(** * rusBeIR wikifacts datasets: corpus construction and qrels propagation

    A shallow embedding of the scripts under [src/wikifacts-datasets]
    ([sents.py], [paras.py], [windows.py], [articles.py]): the text normalizer
    [preprocess_text], the first pass that builds units and intervals, the
    sliding-window assembler and the aggregation of sentence-level qrels
    onto derived units.

    Python values are modelled as follows: a [str] is a list of Unicode
    code points ([Z]), an [int] is a [Z], a [dict] is a [gmap] (or an
    insertion-ordered list where the iteration order is part of the
    program), a [set] is a [gset] or a duplicate-free list, and a raised
    exception is the [Raise] case of [result]; a [float] is a binary64
    number of the kernel ([PrimFloat]). *)

From Stdlib Require Import ZArith Lia Floats Uint63.
From stdpp Require Import base option list gmap strings.

#[local] Open Scope Z_scope.

(** ** Python strings *)

Abbreviation text := (list Z).

(** [str.isspace] for one character, which is also the class [\s] of [re]
    on [str] patterns. *)
Definition isspace (c : Z) : bool :=
  ((0x9 <=? c) && (c <=? 0xd)) || ((0x1c <=? c) && (c <=? 0x20))
  || (c =? 0x85) || (c =? 0xa0) || (c =? 0x1680)
  || ((0x2000 <=? c) && (c <=? 0x200a))
  || (c =? 0x2028) || (c =? 0x2029) || (c =? 0x202f) || (c =? 0x205f)
  || (c =? 0x3000).

Fixpoint lstrip (s : text) : text :=
  match s with
  | c :: s' => if isspace c then lstrip s' else s
  | [] => []
  end.

Definition rstrip (s : text) : text := reverse (lstrip (reverse s)).

(** [s.strip()] *)
Definition strip (s : text) : text := rstrip (lstrip s).

(** [s.replace('\xa0', ' ')] *)
Definition replace_nbsp (s : text) : text :=
  (fun c => if c =? 0xa0 then 0x20 else c) <$> s.

(** [a in b] on strings: [a] occurs in [b] as a contiguous block. *)
Fixpoint starts_with (a b : text) : bool :=
  match a, b with
  | [], _ => true
  | x :: a', y :: b' => (x =? y) && starts_with a' b'
  | _ :: _, [] => false
  end.

Fixpoint str_in (a b : text) : bool :=
  starts_with a b || match b with [] => false | _ :: b' => str_in a b' end.

(** [sep.join(parts)] *)
Fixpoint join (sep : text) (parts : list text) : text :=
  match parts with
  | [] => []
  | [p] => p
  | p :: ps => p ++ sep ++ join sep ps
  end.

(** [s.split("\n\n")]: [cur] is the piece being read. *)
Fixpoint split_blank (cur s : text) : list text :=
  match s with
  | 0xa :: 0xa :: s' => cur :: split_blank [] s'
  | c :: s' => split_blank (cur ++ [c]) s'
  | [] => [cur]
  end.

(** ** The tables of [unicodedata]

    The normalizer reads three tables of the Unicode character database
    through Python's [unicodedata] module; they are a parameter of the
    embedding. *)

Record unicodedata := UnicodeData {
  normalize_NFC : text -> text;
  normalize_NFD : text -> text;
  combining : Z -> Z
}.

(** ** Regular expressions

    The two patterns of [preprocess_text] are matched by backtracking, as
    [re] does: each combinator takes the continuation [k] that matches the
    rest of the pattern, so a failure of [k] makes a star try its next
    alternative. *)

Section Regex.
Context {A : Type}.

(** one literal character *)
Definition lit (c : Z) (k : text -> option A) (s : text) : option A :=
  match s with
  | c' :: s' => if c' =? c then k s' else None
  | [] => None
  end.

(** [\s*]: greedy, the longest run first *)
Fixpoint star_space (k : text -> option A) (s : text) : option A :=
  match s with
  | c :: s' =>
      if isspace c then
        match star_space k s' with
        | Some r => Some r
        | None => k s
        end
      else k s
  | [] => k s
  end.

(** [(.*?)]: lazy, the shortest group first; [.] is any character but
    the newline; [g] is the group read so far. *)
Fixpoint group_lazy (k : text -> text -> option A) (g s : text) : option A :=
  match k g s with
  | Some r => Some r
  | None =>
      match s with
      | c :: s' => if c =? 0xa then None else group_lazy k (g ++ [c]) s'
      | [] => None
      end
  end.
End Regex.

(** [==\s*(.*?)\s*==\s*] matched at the start of [s]: group 1 and what
    follows the match. *)
Definition match_header (s : text) : option (text * text) :=
  lit 0x3d (lit 0x3d (star_space (group_lazy (fun g =>
    star_space (lit 0x3d (lit 0x3d (star_space (fun rest =>
      Some (g, rest)))))) []))) s.

(** [re.sub(r"==\s*(.*?)\s*==\s*", r"\1 ", s)]: matches are searched from
    left to right and do not overlap; [skip] counts the characters of the
    last match that are still to be passed over. *)
Fixpoint sub_header_from (skip : nat) (s : text) : text :=
  match s with
  | [] => []
  | c :: s' =>
      match skip with
      | S n => sub_header_from n s'
      | O =>
          match match_header s with
          | Some (g, rest) =>
              g ++ [0x20] ++ sub_header_from (length s - length rest - 1)%nat s'
          | None => c :: sub_header_from 0 s'
          end
      end
  end.

Definition sub_header (s : text) : text := sub_header_from 0 s.

(** [re.sub(r'а́', 'а', s)]: the pattern is CYRILLIC SMALL LETTER A
    (U+0430) followed by COMBINING ACUTE ACCENT (U+0301). *)
Fixpoint sub_accent (s : text) : text :=
  match s with
  | a :: s1 =>
      match s1 with
      | b :: s2 =>
          if (a =? 0x430) && (b =? 0x301) then 0x430 :: sub_accent s2
          else a :: sub_accent s1
      | [] => s
      end
  | [] => []
  end.

(** ** [preprocess_text] *)

(** ["йё"]: U+0439 and U+0451, both precomposed in the source files. *)
Definition exclude_chars : text := [0x439; 0x451].

Section Normalizer.
Variable ud : unicodedata.

(** The body of the loop over the characters of the text. *)
Definition strip_diacritics (char : Z) : text :=
  if bool_decide (char ∈ exclude_chars) then [char]
  else
    let char_base := normalize_NFD ud [char] in
    filter (fun c => combining ud c = 0) char_base.

Definition preprocess_text (text0 : text) : text :=
  let text1 := sub_accent text0 in
  let text2 := sub_header text1 in
  let text3 := strip (replace_nbsp text2) in
  let text4 := normalize_NFC ud text3 in
  flat_map strip_diacritics text4.

(** [is_sentence_in_window] of [windows.py], [is_sentence_in_paragraph]
    of [paras.py] *)
Definition is_sentence_in_window (sentence window_text : text) : bool :=
  str_in (preprocess_text sentence) (preprocess_text window_text).

Definition is_sentence_in_paragraph (sentence paragraph : text) : bool :=
  str_in (preprocess_text sentence) (preprocess_text paragraph).
End Normalizer.

(** The tables restricted to Basic Latin and the unaccented Cyrillic
    letters: there no character decomposes, none is a combining mark and
    composition changes nothing.  The three marks that the source names or
    that [й] and [ё] decompose into keep their combining class 230. *)
Definition ud_basic : unicodedata :=
  {| normalize_NFC := fun s => s;
     normalize_NFD := fun s =>
       flat_map (fun c =>
         if c =? 0x439 then [0x438; 0x306]
         else if c =? 0x451 then [0x435; 0x308]
         else [c]) s;
     combining := fun c =>
       if (c =? 0x301) || (c =? 0x306) || (c =? 0x308) then 230 else 0 |}.

(** Python string literals, for the examples. *)
Definition py (s : string) : text :=
  (fun a => Z.of_nat (Ascii.nat_of_ascii a)) <$> String.list_ascii_of_string s.

(** ** Exceptions *)

Inductive exn := TypeError | IndexError | KeyError.

Inductive result (A : Type) : Type :=
  | Ok (a : A)
  | Raise (e : exn).
Arguments Ok {A} a.
Arguments Raise {A} e.

#[global] Instance result_bind : MBind result := fun _ _ k m =>
  match m with
  | Ok a => k a
  | Raise e => Raise e
  end.

(** A loop whose body may raise: [for x in l: st = body(st, x)]. *)
Fixpoint for_each {A S} (body : S -> A -> result S) (st : S) (l : list A) : result S :=
  match l with
  | [] => Ok st
  | x :: l' => st' ← body st x; for_each body st' l'
  end.

(** [l[j]] on a Python list. *)
Definition py_index {A} (l : list A) (j : Z) : result A :=
  let j' := if j <? 0 then j + Z.of_nat (length l) else j in
  if j' <? 0 then Raise IndexError
  else match l !! Z.to_nat j' with
       | Some x => Ok x
       | None => Raise IndexError
       end.

(** [d[k]] on a Python dict. *)
Definition py_getitem `{Countable K} {V} (d : gmap K V) (k : K) : result V :=
  match d !! k with
  | Some v => Ok v
  | None => Raise KeyError
  end.

(** ** Input records

    One record of [wiki-corpus.jsonl].  [link] is [link_item.get("link")]
    and [link_data] is [link_item.get("link_data")]: [None] when the key is
    absent.  The key ["scores"] is read by the qrels creation of [sents.py]
    only; it is added by [scored_link] below. *)

Record link_item := LinkItem {
  link : option string;
  link_data : option text
}.

Record fact := Fact {
  fact_text : text;
  links : list link_item
}.

(** An interval is the pair [(start, end)]. *)
Abbreviation interval := (Z * Z)%type.

(** The per-fact variables [fact_links] and [intervals_for_fact]. *)
Record fact_acc := FactAcc {
  fact_links : gset (option string);
  intervals_for_fact : list interval
}.

Definition fact_acc_init : fact_acc := FactAcc ∅ [].

(** ** The first pass of [sents.py] and [paras.py]

    The loops [for item in data] of [sents.py] (lines 95-128) and
    [paras.py] (lines 96-129) are the same text except for the line that
    cuts the article into units; [units_of] stands for that line.  A
    document id ["bwc-<n>"] is represented by [n], a fact id ["bwq-<i>"] by
    the position [i] of the fact in [data]. *)

Module Pass1.

Record state := State {
  corpus : gmap Z text;
  doc_counter : Z;
  processed_links : gmap (option string) interval
}.

Definition init : state := State ∅ 0 ∅.

Section Loop.
Variable ud : unicodedata.
Variable units_of : text -> list text.

(** The body of [for sentence in sentences] ([for paragraph in
    paragraphs]) on the pair [(corpus, doc_counter)]. *)
Definition add_unit (st : gmap Z text * Z) (unit : text) : gmap Z text * Z :=
  if bool_decide (unit = []) then st
  else (<[st.2 := unit]> st.1, st.2 + 1).

(** The body of [for link_item in links]. *)
Definition process_link (sa : state * fact_acc) (link_item : link_item)
  : result (state * fact_acc) :=
  let '(st, acc) := sa in
  let link_url := link link_item in
  if bool_decide (link_url ∈ fact_links acc) then Ok (st, acc)
  else
    let fact_links' := fact_links acc ∪ {[link_url]} in
    match processed_links st !! link_url with
    | Some cached =>
        Ok (st, FactAcc fact_links' (intervals_for_fact acc ++ [cached]))
    | None =>
        match link_data link_item with
        | None => Raise TypeError
        | Some raw =>
            let article_text := preprocess_text ud raw in
            let article_id_start := doc_counter st in
            let built :=
              foldl add_unit (corpus st, doc_counter st) (units_of article_text) in
            let article_id_end := built.2 - 1 in
            let interval := (article_id_start, article_id_end) in
            Ok (State built.1 built.2 (<[link_url := interval]> (processed_links st)),
                FactAcc fact_links' (intervals_for_fact acc ++ [interval]))
        end
    end.

(** The body of [for item in data]; the second component is
    [query_interval], in the order of the facts. *)
Definition process_fact (sq : state * list (list interval)) (item : fact)
  : result (state * list (list interval)) :=
  sa ← for_each process_link (sq.1, fact_acc_init) (links item);
  Ok (sa.1, sq.2 ++ [intervals_for_fact sa.2]).

Definition run (data : list fact) : result (state * list (list interval)) :=
  for_each process_fact (init, []) data.
End Loop.
End Pass1.

Module Sents.
(** [sentences = [sent.text for sent in sentenize(article_text)]];
    [sentenize] is the segmenter of the [razdel] package. *)
Definition run (ud : unicodedata) (sentenize : text -> list text) :=
  Pass1.run ud sentenize.
End Sents.

Module Paras.
(** [[para.strip() for para in article_text.split("\n\n") if para.strip()]] *)
Definition paragraphs (article_text : text) : list text :=
  filter (fun para => para ≠ []) (strip <$> split_blank [] article_text).

Definition run (ud : unicodedata) := Pass1.run ud paragraphs.

(** [valid_para_ids] for one fact: for every interval, the keys of
    [corpus] whose number lies in it. *)
Definition between (iv : interval) (doc_num : Z) : bool :=
  (iv.1 <=? doc_num) && (doc_num <=? iv.2).

Definition valid_para_ids (corpus : gmap Z text) (intervals : list interval)
  : gset Z :=
  ⋃ ((fun iv => dom (filter (fun kv => between iv kv.1 = true) corpus))
       <$> intervals).
End Paras.

(** ** [windows.py]

    A sentence id ["bwc-<n>"] is represented by [n], a window id
    ["bw_window-<i>"] by [i], a fact id ["bwq-<i>"] by [i]. *)

Module Windows.

Record state := State {
  global_sentences_list : list (Z * text * Z);
  processed_links : gmap (option string) interval;
  global_sentence_counter : Z
}.

Definition init : state := State [] ∅ 0.

Section FirstPass.
Variable ud : unicodedata.
Variable sentenize : text -> list text.

(** The body of [for s in sentences] on the pair
    [(global_sentences_list, global_sentence_counter)]. *)
Definition add_sentence (st : list (Z * text * Z) * Z) (s : text)
  : list (Z * text * Z) * Z :=
  (st.1 ++ [(st.2, s, st.2)], st.2 + 1).

(** The body of [for link_item in fact.get("links", [])]. *)
Definition process_link (sa : state * fact_acc) (link_item : link_item)
  : state * fact_acc :=
  let '(st, acc) := sa in
  let link_url := link link_item in
  if bool_decide (link_url ∈ fact_links acc) then (st, acc)
  else
    let fact_links' := fact_links acc ∪ {[link_url]} in
    match processed_links st !! link_url with
    | Some cached =>
        (st, FactAcc fact_links' (intervals_for_fact acc ++ [cached]))
    | None =>
        let article_text := preprocess_text ud (default [] (link_data link_item)) in
        if bool_decide (article_text = []) then
          (st, FactAcc fact_links' (intervals_for_fact acc))
        else
          let sentences :=
            filter (fun s => s ≠ []) (strip <$> sentenize article_text) in
          if bool_decide (sentences = []) then
            (st, FactAcc fact_links' (intervals_for_fact acc))
          else
            let start_index := global_sentence_counter st in
            let end_index :=
              global_sentence_counter st + Z.of_nat (length sentences) - 1 in
            let current_interval := (start_index, end_index) in
            let built :=
              foldl add_sentence
                (global_sentences_list st, global_sentence_counter st) sentences in
            (State built.1 (<[link_url := current_interval]> (processed_links st))
               built.2,
             FactAcc fact_links' (intervals_for_fact acc ++ [current_interval]))
    end.

(** The body of [for fact in data]; the second component is
    [query_interval_sent], in the order of the facts. *)
Definition process_fact (sq : state * list (list interval)) (item : fact)
  : state * list (list interval) :=
  let sa := foldl process_link (sq.1, fact_acc_init) (links item) in
  (sa.1, sq.2 ++ [intervals_for_fact sa.2]).

Definition run (data : list fact) : state * list (list interval) :=
  foldl process_fact (init, []) data.
End FirstPass.

(** *** The windows *)

Record windows := Windows_ {
  corpus_window : gmap Z text;
  window_to_sentence_index : gmap Z Z
}.

Section Assembler.
Variable gsl : list (Z * text * Z).
Variable window_size : Z.

Definition total_sentences : Z := Z.of_nat (length gsl).
Definition total_windows : Z := total_sentences - window_size + 1.

(** [[global_sentences_list[j][1] for j in range(i, i + window_size)]] *)
Fixpoint window_sentences_of (js : list Z) : result (list text) :=
  match js with
  | [] => Ok []
  | j :: js' =>
      entry ← py_index gsl j;
      rest ← window_sentences_of js';
      Ok (entry.1.2 :: rest)
  end.

(** The body of [for i in range(total_windows)]. *)
Definition add_window (ws : windows) (i : Z) : result windows :=
  window_sentences ← window_sentences_of (seqZ i window_size);
  let window_text := join [0x20] window_sentences in
  entry ← py_index gsl i;
  Ok (Windows_ (<[i := window_text]> (corpus_window ws))
               (<[i := entry.2]> (window_to_sentence_index ws))).

Definition build_windows : result windows :=
  for_each add_window (Windows_ ∅ ∅) (seqZ 0 total_windows).
End Assembler.

(** *** Window intervals *)

Section Intervals.
Variable total_sentences : Z.
Variable window_size : Z.

(** The body of [for (start, end) in intervals] that fills
    [query_interval_window]. *)
Definition window_interval (iv : interval) : interval :=
  let '(start, end_) := iv in
  let extended_end := end_ + (window_size - 1) in
  let extended_end :=
    if extended_end >=? total_sentences then total_sentences - 1
    else extended_end in
  let window_start := start in
  let window_end := extended_end - window_size + 1 in
  let window_end :=
    if window_end <? window_start then window_start else window_end in
  (window_start, window_end).

Definition query_interval_window (query_interval_sent : list (list interval))
  : list (list interval) :=
  fmap (M := list) (fmap (M := list) window_interval) query_interval_sent.

(** The body of [for (L, R) in intervals] that fills
    [extended_query_interval]; [i] is the rank of the fact and [n] is
    [len(fact_ids)].  The fact ids are numbered in the order of [data],
    so sorting them by number keeps their order. *)
Definition extend_interval (n i : Z) (iv : interval) : interval :=
  let '(L, R) := iv in
  let total_windows := total_sentences - window_size + 1 in
  let L := if bool_decide (i ≠ 0) then Z.max 0 (L - (window_size - 1)) else L in
  let R :=
    if bool_decide (i ≠ n - 1) then
      let R := R + (window_size - 1) in
      if R >=? total_windows then total_windows - 1 else R
    else R in
  (L, R).

Definition extended_query_interval (query_interval_window : list (list interval))
  : list (list interval) :=
  imap (fun i =>
          fmap (M := list)
            (extend_interval (Z.of_nat (length query_interval_window)) (Z.of_nat i)))
       query_interval_window.

(** The test of the loop that fills [valid_window_ids]. *)
Definition overlaps (start_index : Z) (iv : interval) : bool :=
  let window_end := start_index + window_size - 1 in
  (start_index <=? iv.2) && (window_end >=? iv.1).

Definition valid_window_ids (window_to_sentence_index : gmap Z Z)
    (intervals : list interval) : gset Z :=
  dom (filter (fun kv => existsb (overlaps kv.2) intervals = true)
         window_to_sentence_index).
End Intervals.
End Windows.

(** ** Aggregation of the sentence-level qrels

    The loop [for sent_id, sent_rel in sent_rel_dict.items()] is the same
    text in [windows.py] (lines 202-211) and [paras.py] (lines 165-174), up
    to the names: [scores] is [window_scores] ([para_scores]), a
    [defaultdict(int)]; [units] is [corpus_window] ([corpus]); [valid] is
    [valid_window_ids] ([valid_para_ids]).  [sent_rel_dict] is read in
    insertion order; a sentence id ["bwc-<n>"] is represented by [n]. *)

Section Aggregation.
Variable ud : unicodedata.
Variable units : gmap Z text.
Variable corpus_sentences : gmap Z text.

(** The body of [for window_id in valid_window_ids]. *)
Definition score_unit (sentence_text : text) (sent_rel : Z)
    (scores : gmap Z Z) (unit_id : Z) : result (gmap Z Z) :=
  unit_text ← py_getitem units unit_id;
  if is_sentence_in_window ud sentence_text unit_text then
    Ok (<[unit_id := Z.max (default 0 (scores !! unit_id)) sent_rel]> scores)
  else Ok scores.

(** The body of [for sent_id, sent_rel in sent_rel_dict.items()]. *)
Definition score_sentence (valid : gset Z) (scores : gmap Z Z)
    (item : Z * Z) : result (gmap Z Z) :=
  match corpus_sentences !! item.1 with
  | None => Ok scores
  | Some sentence_text =>
      for_each (score_unit sentence_text item.2) scores (elements valid)
  end.

Definition aggregate (valid : gset Z) (sent_rel_dict : list (Z * Z))
  : result (gmap Z Z) :=
  for_each (score_sentence valid) ∅ sent_rel_dict.
End Aggregation.

(** [window_scores] for the fact [fact_id] of [qrels_sents]. *)
Definition window_scores (ud : unicodedata) (window_size : Z)
    (built : Windows.windows) (corpus_sentences : gmap Z text)
    (extended_query_interval : list (list interval))
    (fact_id : nat) (sent_rel_dict : list (Z * Z)) : result (gmap Z Z) :=
  let intervals := default [] (extended_query_interval !! fact_id) in
  let valid_window_ids :=
    Windows.valid_window_ids window_size
      (Windows.window_to_sentence_index built) intervals in
  aggregate ud (Windows.corpus_window built) corpus_sentences
    valid_window_ids sent_rel_dict.

(** [para_scores] for the fact [fact_id] of [qrels_sents]. *)
Definition para_scores (ud : unicodedata) (corpus : gmap Z text)
    (corpus_sentences : gmap Z text) (query_interval : list (list interval))
    (fact_id : nat) (sent_rel_dict : list (Z * Z)) : result (gmap Z Z) :=
  let intervals := default [] (query_interval !! fact_id) in
  let valid_para_ids := Paras.valid_para_ids corpus intervals in
  aggregate ud corpus corpus_sentences valid_para_ids sent_rel_dict.


(** ** A stand-in for the segmenter

    [razdel.sentenize] is not part of the repository; the theorems below
    hold for every segmenter.  The closed examples need one: they only feed
    it texts of one sentence, which a segmenter returns whole. *)
Definition sentenize_one (article_text : text) : list text := [article_text].

Definition demo_data : list fact :=
  [ Fact (py "q0") [LinkItem (Some "u0"%string) (Some (py "A."));
                    LinkItem (Some "u1"%string) (Some (py "B."));
                    LinkItem (Some "u0"%string) (Some (py "A."));
                    LinkItem (Some "u2"%string) (Some (py "C."))];
    Fact (py "q1") [LinkItem (Some "u2"%string) (Some (py "C."));
                    LinkItem (Some "u3"%string) (Some (py "D."))];
    Fact (py "q2") [LinkItem (Some "u4"%string) (Some (py "E."))] ].

(** A paragraph that holds two judged sentences. *)
Definition paris_sentences : gmap Z text :=
  {[ 0 := py "Paris is the capital of France."; 1 := py "It has many museums." ]}.

Definition paris_paragraphs : gmap Z text :=
  {[ 0 := py "Paris is the capital of France. It has many museums." ]}.

(** ** [articles.py]

    The loop [for item in data] of [articles.py] (lines 81-106) differs from
    the one of [sents.py] in what it does with a new source: the whole
    normalized text becomes one document, empty or not, and the interval is
    [(doc_counter, doc_counter)].  The candidates of a fact (lines 130-138)
    and the aggregation (lines 140-149) are the text of [paras.py]. *)

Module Articles.

Record state := State {
  corpus_articles : gmap Z text;
  doc_counter : Z;
  processed_links : gmap (option string) interval
}.

Definition init : state := State ∅ 0 ∅.

Section Loop.
Variable ud : unicodedata.

(** The body of [for link_item in links]. *)
Definition process_link (sa : state * fact_acc) (link_item : link_item)
  : result (state * fact_acc) :=
  let '(st, acc) := sa in
  let link_url := link link_item in
  if bool_decide (link_url ∈ fact_links acc) then Ok (st, acc)
  else
    let fact_links' := fact_links acc ∪ {[link_url]} in
    match processed_links st !! link_url with
    | Some cached =>
        Ok (st, FactAcc fact_links' (intervals_for_fact acc ++ [cached]))
    | None =>
        match link_data link_item with
        | None => Raise TypeError
        | Some raw =>
            let article_text := preprocess_text ud raw in
            let doc_id := doc_counter st in
            let interval := (doc_counter st, doc_counter st) in
            Ok (State (<[doc_id := article_text]> (corpus_articles st))
                      (doc_counter st + 1)
                      (<[link_url := interval]> (processed_links st)),
                FactAcc fact_links' (intervals_for_fact acc ++ [interval]))
        end
    end.

(** The body of [for item in data]. *)
Definition process_fact (sq : state * list (list interval)) (item : fact)
  : result (state * list (list interval)) :=
  sa ← for_each process_link (sq.1, fact_acc_init) (links item);
  Ok (sa.1, sq.2 ++ [intervals_for_fact sa.2]).

Definition run (data : list fact) : result (state * list (list interval)) :=
  for_each process_fact (init, []) data.
End Loop.

(** [valid_article_ids] for one fact. *)
Definition valid_article_ids (corpus_articles : gmap Z text)
    (intervals : list interval) : gset Z :=
  Paras.valid_para_ids corpus_articles intervals.
End Articles.

(** [article_scores] for the fact [fact_id] of [qrels_sents]. *)
Definition article_scores (ud : unicodedata) (corpus_articles : gmap Z text)
    (corpus_sentences : gmap Z text) (query_interval : list (list interval))
    (fact_id : nat) (sent_rel_dict : list (Z * Z)) : result (gmap Z Z) :=
  let intervals := default [] (query_interval !! fact_id) in
  let valid_article_ids := Articles.valid_article_ids corpus_articles intervals in
  aggregate ud corpus_articles corpus_sentences valid_article_ids sent_rel_dict.

(** ** The sentence-level qrels of [sents.py]

    [find_id_by_text] (lines 53-69) and the loop that writes [qrels.tsv]
    and [not_found.jsonl] (lines 146-168). *)

(** [s.split()]: the maximal runs of characters that are not white space;
    [cur] is the run being read. *)
Fixpoint split_ws_from (cur s : text) : list text :=
  match s with
  | [] => if bool_decide (cur = []) then [] else [cur]
  | c :: s' =>
      if isspace c then
        if bool_decide (cur = []) then split_ws_from [] s'
        else cur :: split_ws_from [] s'
      else split_ws_from (cur ++ [c]) s'
  end.

Definition split_ws (s : text) : list text := split_ws_from [] s.

(** [len(...)] of a set as the operand of [/]: the conversion is exact
    below 2^53, and Python's true division of two such integers is the
    binary64 division of their conversions. *)
Definition float_of_len (n : nat) : float :=
  PrimFloat.of_uint63 (Uint63.of_Z (Z.of_nat n)).

(** The threshold [0.2] of the call in the qrels loop: the binary64 number
    nearest to 1/5. *)
Definition threshold_qrels : float := 0x1.999999999999ap-3%float.

Section Similarity.
Variable ud : unicodedata.
(** [str.lower], another table of the Unicode character database *)
Variable lower : text -> text.

(** [set(preprocess_text(text).lower().split())] *)
Definition words (t : text) : gset text :=
  list_to_set (split_ws (lower (preprocess_text ud t))).

(** [intersection / union if union != 0 else 0] *)
Definition similarity (target_words corpus_words : gset text) : float :=
  let intersection := size (target_words ∩ corpus_words) in
  let union := size (target_words ∪ corpus_words) in
  if bool_decide (union ≠ 0%nat)
  then PrimFloat.div (float_of_len intersection) (float_of_len union)
  else PrimFloat.zero.

(** The body of [for doc_data in corpus.values()] on the pair
    [(best_match_id, best_similarity)]; a document is the pair of its
    number and its text. *)
Definition find_step (target_words : gset text) (threshold : float)
    (best : option Z * float) (doc_data : Z * text) : option Z * float :=
  let corpus_words := words doc_data.2 in
  let similarity := similarity target_words corpus_words in
  if PrimFloat.ltb best.2 similarity && PrimFloat.leb threshold similarity
  then (Some doc_data.1, similarity)
  else best.

Definition find_id_by_text (corpus : list (Z * text)) (text0 : text)
    (threshold : float) : option Z :=
  let target_words := words text0 in
  (foldl (find_step target_words threshold) (None, PrimFloat.zero) corpus).1.
End Similarity.

(** One element of ["scores"]: [score_item.get("text")] and
    [score_item.get("score")].  The scores of the data are integers, so
    [int(relevance)] is the score itself; an item that lacks one of the two
    keys (a [TypeError] in the source) is not modelled. *)
Record score_item := ScoreItem {
  score_text : text;
  score : Z
}.

(** A link with its judgments: [link_item.get("scores", [])]. *)
Record scored_link := ScoredLink {
  scored_item : link_item;
  scores : list score_item
}.

Record scored_fact := ScoredFact {
  scored_text : text;
  scored_links : list scored_link
}.

(** What the first pass reads of a record. *)
Definition plain_fact (item : scored_fact) : fact :=
  Fact (scored_text item) (scored_item <$> scored_links item).

(** [qrels_lines] and [not_found_lines]; a line of [qrels.tsv] is the
    triple of the numbers of the fact and of the document and the score. *)
Record qrels_out := QrelsOut {
  qrels_lines : list (nat * Z * Z);
  not_found_lines : list (nat * text * Z)
}.

(** [{k: v for k, v in corpus.items() if start <= int(k.split('-')[1]) <= end}]
    in the order of its values: the first pass inserts the documents in
    the order of their numbers. *)
Definition corpus_between (corpus : gmap Z text) (iv : interval) : list (Z * text) :=
  omap (fun k => (fun t => (k, t)) <$> corpus !! k) (seqZ iv.1 (iv.2 - iv.1 + 1)).

Section Qrels.
Variable ud : unicodedata.
Variable lower : text -> text.
Variable corpus : gmap Z text.
Variable processed_links : gmap (option string) interval.

(** The body of [for score_item in link_item.get("scores", [])]. *)
Definition score_step (iv : interval) (query_id : nat) (out : qrels_out)
    (item : score_item) : qrels_out :=
  let relevance := score item in
  if relevance =? 0 then out
  else
    match find_id_by_text ud lower (corpus_between corpus iv) (score_text item)
            threshold_qrels with
    | Some doc_id =>
        QrelsOut (qrels_lines out ++ [(query_id, doc_id, relevance)])
                 (not_found_lines out)
    | None =>
        QrelsOut (qrels_lines out)
                 (not_found_lines out ++ [(query_id, score_text item, relevance)])
    end.

(** The body of [for link_item in links]. *)
Definition link_step (query_id : nat) (out : qrels_out) (l : scored_link)
  : qrels_out :=
  match processed_links !! link (scored_item l) with
  | None => out
  | Some iv => foldl (score_step iv query_id) out (scores l)
  end.

(** The body of [for idx, item in enumerate(data)]. *)
Definition qrels_fact_step (out : qrels_out) (entry : nat * scored_fact)
  : qrels_out :=
  foldl (link_step entry.1) out (scored_links entry.2).

Definition create_qrels (data : list scored_fact) : qrels_out :=
  foldl qrels_fact_step (QrelsOut [] []) (imap pair data).
End Qrels.

(** ** [extract_article_title]

    The function is defined in the four scripts (in [sents.py] at lines
    48-50) and called by none of them. *)

(** [s.split(sep)] for a separator that is not empty: the separators are
    found from left to right and do not overlap; [skip] counts the
    characters of the last separator that are still to be passed over and
    [cur] is the piece being read. *)
Fixpoint split_from (sep : text) (skip : nat) (cur s : text) : list text :=
  match s with
  | [] => [cur]
  | c :: s' =>
      match skip with
      | S n => split_from sep n cur s'
      | O =>
          if starts_with sep s
          then cur :: split_from sep (length sep - 1) [] s'
          else split_from sep 0 (cur ++ [c]) s'
      end
  end.

(** ['/wiki/'] *)
Definition wiki_sep : text := [0x2f; 0x77; 0x69; 0x6b; 0x69; 0x2f].

Definition extract_article_title (url : text) : option text :=
  let parts := split_from wiki_sep 0 [] url in
  if bool_decide (1 < length parts)%nat then parts !! 1%nat else None.

(** ** What the claims speak of *)

(** [w] lies in the closed interval [iv]. *)
Definition in_interval (w : Z) (iv : interval) : Prop := iv.1 <= w <= iv.2.

(** [x] is a window index: [0 <= x <= total_windows - 1]. *)
Definition window_index (total_sentences window_size x : Z) : Prop :=
  0 <= x <= (total_sentences - window_size + 1) - 1.

(** Every entry of the sentence list carries its own position, and the
    counter is the length of the list. *)
Definition indexed (p : list (Z * text * Z) * Z) : Prop :=
  p.2 = Z.of_nat (length p.1) /\
  forall k entry, p.1 !! k = Some entry ->
    entry.1.1 = Z.of_nat k /\ entry.2 = Z.of_nat k.

Definition state_indexed (st : Windows.state) : Prop :=
  indexed (Windows.global_sentences_list st, Windows.global_sentence_counter st).

(** The scores of the judgments of [sent_rel_dict] that contribute to a
    unit of text [unit_text]: those of the sentences that are in
    [corpus_sentences] and whose normalized text is contained in the
    normalized text of the unit. *)
Definition contributing (ud : unicodedata) (corpus_sentences : gmap Z text)
    (sent_rel_dict : list (Z * Z)) (unit_text : text) : list Z :=
  omap (fun item : Z * Z =>
          match corpus_sentences !! item.1 with
          | Some sentence_text =>
              if is_sentence_in_window ud sentence_text unit_text
              then Some item.2 else None
          | None => None
          end) sent_rel_dict.

(** The sentence is contained in the unit [u] of [units]. *)
Definition sentence_hits (ud : unicodedata) (units : gmap Z text)
    (sentence_text : text) (u : Z) : bool :=
  match units !! u with
  | Some unit_text => is_sentence_in_window ud sentence_text unit_text
  | None => false
  end.

(** What the unit [u] of [units] may receive from the judgments [items]. *)
Definition received_scores (ud : unicodedata) (corpus_sentences units : gmap Z text)
    (items : list (Z * Z)) (u : Z) : list Z :=
  match units !! u with
  | Some unit_text => contributing ud corpus_sentences items unit_text
  | None => []
  end.

(** The text holds the marker ["=="], with which the header pattern starts
    and ends. *)
Definition has_marker (s : text) : bool := str_in [0x3d; 0x3d] s.

(** A table leaves the characters of the class [plain] alone: composition
    changes no text made of them, and each of them either is one of the
    excluded letters or is its own decomposition and no combining mark. *)
Definition inert_on (ud : unicodedata) (plain : Z -> Prop) : Prop :=
  (forall s, Forall plain s -> normalize_NFC ud s = s) /\
  (forall c, plain c ->
     c ∈ exclude_chars \/ (normalize_NFD ud [c] = [c] /\ combining ud c = 0)).

(** Basic Latin, the lower-case Cyrillic letters U+0430 to U+044F, and U+0451. *)
Definition latin_or_cyrillic (c : Z) : Prop :=
  0 <= c < 0x80 \/ 0x430 <= c <= 0x44f \/ c = 0x451.



(** ** What the further properties speak of *)

(** The texts of the sentences [i .. i + W - 1] of the sentence list. *)
Definition sentences_from (gsl : list (Z * text * Z)) (i W : Z) : list text :=
  (fun entry : Z * text * Z => entry.1.2)
    <$> take (Z.to_nat W) (drop (Z.to_nat i) gsl).

(** The units that the first pass of [sents.py] ([paras.py]) keeps of a
    source text: the non-empty ones, in order. *)
Definition kept_units (ud : unicodedata) (units_of : text -> list text)
    (raw : text) : list text :=
  filter (fun unit => unit ≠ []) (units_of (preprocess_text ud raw)).

(** A state of the first pass of [sents.py] ([paras.py]) is consistent with
    the links [seen] so far: the ids of the corpus are [0 .. doc_counter-1],
    no unit is empty, and every cached interval lies below the counter and
    covers, in order, the units kept of the text of a link that was seen
    with that URL; intervals cached for two URLs do not meet. *)
Definition pass1_consistent (ud : unicodedata) (units_of : text -> list text)
    (seen : list link_item) (st : Pass1.state) : Prop :=
  0 <= Pass1.doc_counter st /\
  (forall k, is_Some (Pass1.corpus st !! k) <-> 0 <= k < Pass1.doc_counter st) /\
  (forall k t, Pass1.corpus st !! k = Some t -> t <> []) /\
  (forall u iv, Pass1.processed_links st !! u = Some iv ->
     0 <= iv.1 /\ iv.2 < Pass1.doc_counter st /\
     exists l raw,
       l ∈ seen /\ link l = u /\ link_data l = Some raw /\
       iv.2 = iv.1 + Z.of_nat (length (kept_units ud units_of raw)) - 1 /\
       forall (j : nat) t,
         kept_units ud units_of raw !! j = Some t ->
         Pass1.corpus st !! (iv.1 + Z.of_nat j) = Some t) /\
  (forall u1 u2 iv1 iv2,
     u1 <> u2 ->
     Pass1.processed_links st !! u1 = Some iv1 ->
     Pass1.processed_links st !! u2 = Some iv2 ->
     iv1.2 < iv2.1 \/ iv2.2 < iv1.1).

(** The list [ivs] holds, for every URL that occurs in [urls], once and
    in the order of [urls], the interval that [cache] has for it. *)
Definition listed_by (cache : gmap (option string) interval)
    (urls : list (option string)) (ivs : list interval) : Prop :=
  exists us : list (option string),
    NoDup us /\ sublist us urls /\ (forall u, u ∈ urls -> u ∈ us) /\
    Forall2 (fun u iv => cache !! u = Some iv) us ivs.

(** The body of [for item in data] over a body [step] of the loop over the
    links: the text that [sents.py], [paras.py] and [articles.py] share. *)
Definition process_fact_with {S : Type}
    (step : S * fact_acc -> link_item -> result (S * fact_acc))
    (sq : S * list (list interval)) (item : fact)
  : result (S * list (list interval)) :=
  sa ← for_each step (sq.1, fact_acc_init) (links item);
  Ok (sa.1, sq.2 ++ [intervals_for_fact sa.2]).

(** Every link of [ls] whose URL is met for the first time, [seen] being the
    URLs met before, has a ["link_data"]. *)
Fixpoint sources_readable (seen : gset (option string)) (ls : list link_item)
  : bool :=
  match ls with
  | [] => true
  | l :: ls' =>
      (bool_decide (link l ∈ seen) || bool_decide (is_Some (link_data l)))
      && sources_readable (seen ∪ {[link l]}) ls'
  end.

(** A state of the first pass of [articles.py] is consistent with the links
    [seen] so far: the ids of the articles are [0 .. doc_counter - 1]; every
    cached interval is [(c, c)] for an article [c] that is the normalized
    text of a link seen with that URL; two URLs have different articles, and
    there are as many articles as URLs. *)
Definition articles_consistent (ud : unicodedata) (seen : list link_item)
    (st : Articles.state) : Prop :=
  0 <= Articles.doc_counter st /\
  (forall k, is_Some (Articles.corpus_articles st !! k)
             <-> 0 <= k < Articles.doc_counter st) /\
  (forall u iv, Articles.processed_links st !! u = Some iv ->
     iv.2 = iv.1 /\ 0 <= iv.1 < Articles.doc_counter st /\
     exists l raw,
       l ∈ seen /\ link l = u /\ link_data l = Some raw /\
       Articles.corpus_articles st !! iv.1 = Some (preprocess_text ud raw)) /\
  (forall u1 u2 iv1 iv2,
     Articles.processed_links st !! u1 = Some iv1 ->
     Articles.processed_links st !! u2 = Some iv2 ->
     iv1.1 = iv2.1 -> u1 = u2) /\
  Z.of_nat (size (Articles.processed_links st)) = Articles.doc_counter st.

(** The sentences that the first pass of [windows.py] keeps of a source
    text: trimmed, the empty ones left out. *)
Definition kept_sentences (ud : unicodedata) (sentenize : text -> list text)
    (raw : text) : list text :=
  filter (fun s => s ≠ []) (strip <$> sentenize (preprocess_text ud raw)).

(** A state of the first pass of [windows.py] is consistent with the links
    [seen] so far: the counter is the length of the sentence list; every
    cached interval is not empty, lies below the counter and holds the
    sentences kept of the text of a link seen with that URL; the intervals
    of two URLs do not meet, and every sentence lies in one. *)
Definition windows_consistent (ud : unicodedata) (sentenize : text -> list text)
    (seen : list link_item) (st : Windows.state) : Prop :=
  Windows.global_sentence_counter st
    = Z.of_nat (length (Windows.global_sentences_list st)) /\
  (forall u iv, Windows.processed_links st !! u = Some iv ->
     0 <= iv.1 <= iv.2 /\ iv.2 < Windows.global_sentence_counter st /\
     exists l,
       l ∈ seen /\ link l = u /\
       sentences_from (Windows.global_sentences_list st) iv.1 (iv.2 - iv.1 + 1)
       = kept_sentences ud sentenize (default [] (link_data l))) /\
  (forall u1 u2 iv1 iv2,
     u1 <> u2 ->
     Windows.processed_links st !! u1 = Some iv1 ->
     Windows.processed_links st !! u2 = Some iv2 ->
     iv1.2 < iv2.1 \/ iv2.2 < iv1.1) /\
  (forall k, 0 <= k < Windows.global_sentence_counter st ->
     exists u iv, Windows.processed_links st !! u = Some iv /\ in_interval k iv).

(** The document [doc_data] passes the two tests of [find_id_by_text]
    against the initial [best_similarity]. *)
Definition passes_tests (ud : unicodedata) (lower : text -> text)
    (target_words : gset text) (threshold : float) (doc_data : Z * text) : bool :=
  PrimFloat.ltb PrimFloat.zero
    (similarity target_words (words ud lower doc_data.2))
  && PrimFloat.leb threshold
       (similarity target_words (words ud lower doc_data.2)).

(** What a line of [qrels.tsv] is written for: a judgment with a score
    other than 0 of a link of the fact, and a document in the interval of
    the link whose similarity with the judged text reaches the threshold. *)
Definition row_sound (ud : unicodedata) (lower : text -> text)
    (corpus : gmap Z text) (processed_links : gmap (option string) interval)
    (data : list scored_fact) (row : nat * Z * Z) : Prop :=
  row.2 <> 0 /\
  exists item l judged iv doc_text,
    data !! row.1.1 = Some item /\ l ∈ scored_links item /\ judged ∈ scores l /\
    score judged = row.2 /\
    processed_links !! link (scored_item l) = Some iv /\
    in_interval row.1.2 iv /\
    corpus !! row.1.2 = Some doc_text /\
    PrimFloat.leb threshold_qrels
      (similarity (words ud lower (score_text judged)) (words ud lower doc_text))
    = true.

(** The number of records in the two output lists. *)
Definition records_written (out : qrels_out) : nat :=
  (length (qrels_lines out) + length (not_found_lines out))%nat.

(** The judgments with a score other than 0. *)
Definition nonzero_scores (l : list score_item) : list score_item :=
  filter (fun judged => score judged <> 0) l.

(** [str.lower] restricted to Basic Latin, for the examples. *)
Definition lower_basic (s : text) : text :=
  (fun c => if (0x41 <=? c) && (c <=? 0x5a) then c + 0x20 else c) <$> s.

(** A record with three judgments: one that matches the sentence of the
    source, one that matches nothing, and one with the score 0. *)
Definition scored_demo : list scored_fact :=
  [ ScoredFact (py "q0")
      [ ScoredLink (LinkItem (Some "u0"%string) (Some (py "Paris is big.")))
          [ ScoreItem (py "paris is BIG.") 2;
            ScoreItem (py "unrelated words") 1;
            ScoreItem (py "Paris") 0 ] ] ].

(** * Window intervals *)

Lemma window_interval_closed_form T W s e :
  Windows.window_interval T W (s, e) = (s, Z.max s (Z.min e (T - W))).
Proof.
  unfold Windows.window_interval.
  destruct (e + (W - 1) >=? T) eqn:Hext;
    destruct (_ <? s) eqn:Hclamp; f_equal; lia.
Qed.

(** C1, as stated, fails: with 10 sentences and windows of 2 sentences, the
    sentence interval [3,5] becomes the window interval [3,5], and window 2
    (sentences 2 and 3) holds sentence 3 but is not in it. *)
Lemma window_interval_misses_earlier_window :
  3 <= 5 /\ 2 <= 5 /\ 2 + 2 - 1 >= 3 /\
  ~ in_interval 2 (Windows.window_interval 10 2 (3, 5)).
Proof.
  rewrite window_interval_closed_form. unfold in_interval. simpl. lia.
Qed.

(** C1, amended: the window interval of a sentence interval [s,e] keeps the
    start [s]; it contains every window index [w <= T - W] with
    [s <= w <= e], that is every window whose first sentence is in [s,e];
    and it contains nothing else, apart from [s] itself when the end is
    clamped up to the start. *)
Theorem window_interval_covers_window_starts T W s e :
  s <= e ->
  (Windows.window_interval T W (s, e)).1 = s /\
  (forall w, s <= w <= e -> w <= T - W ->
     in_interval w (Windows.window_interval T W (s, e))) /\
  (forall w, in_interval w (Windows.window_interval T W (s, e)) ->
     w = s \/ (s <= w <= e /\ w <= T - W)).
Proof.
  intros Hse. rewrite window_interval_closed_form. unfold in_interval. simpl.
  split; [reflexivity|]. split; intros w; lia.
Qed.

Lemma window_interval_covers_window_starts_witness :
  (Windows.window_interval 10 2 (3, 5)).1 = 3 /\
  (forall w, 3 <= w <= 5 -> w <= 10 - 2 ->
     in_interval w (Windows.window_interval 10 2 (3, 5))) /\
  (forall w, in_interval w (Windows.window_interval 10 2 (3, 5)) ->
     w = 3 \/ (3 <= w <= 5 /\ w <= 10 - 2)).
Proof.
  apply (window_interval_covers_window_starts 10 2 3 5). lia.
Defined.

(** What the later steps add: whatever the rank of the fact, every window
    [w] that holds a sentence of [s,e] passes the overlap test of
    [valid_window_ids] against the extended window interval of [(s,e)]. *)
Lemma overlapping_window_passes_test T W n i s e w :
  1 <= W -> s <= e -> 0 <= w <= T - W -> w <= e -> w + W - 1 >= s ->
  Windows.overlaps W w
    (Windows.extend_interval T W n i (Windows.window_interval T W (s, e)))
  = true.
Proof.
  intros HW Hse Hw Hwe Hws. rewrite window_interval_closed_form.
  unfold Windows.extend_interval, Windows.overlaps.
  destruct (Z.geb_spec (Z.max s (Z.min e (T - W)) + (W - 1)) (T - W + 1));
    repeat case_bool_decide; cbn [fst snd]; apply andb_true_iff; split; lia.
Qed.

(** * Cross-query extension *)

Lemma extended_query_interval_lookup T W (qiw : list (list interval)) i ivs k iv :
  qiw !! i = Some ivs -> ivs !! k = Some iv ->
  exists ivs', Windows.extended_query_interval T W qiw !! i = Some ivs' /\
    ivs' !! k
    = Some (Windows.extend_interval T W (Z.of_nat (length qiw)) (Z.of_nat i) iv).
Proof.
  intros Hi Hk. unfold Windows.extended_query_interval.
  eexists. rewrite list_lookup_imap, Hi. simpl. split; [reflexivity|].
  rewrite list_lookup_fmap, Hk. reflexivity.
Qed.

Lemma query_interval_window_lookup T W (qis : list (list interval)) i ivs k iv :
  qis !! i = Some ivs -> ivs !! k = Some iv ->
  exists ivs', Windows.query_interval_window T W qis !! i = Some ivs' /\
               ivs' !! k = Some (Windows.window_interval T W iv).
Proof.
  intros Hi Hk. unfold Windows.query_interval_window.
  exists (Windows.window_interval T W <$> ivs).
  rewrite !list_lookup_fmap, Hi, Hk. by split.
Qed.

Lemma query_interval_window_length T W (qis : list (list interval)) :
  length (Windows.query_interval_window T W qis) = length qis.
Proof. unfold Windows.query_interval_window. by rewrite length_fmap. Qed.

(** C2, as stated, fails: one fact with two sources of one sentence each
    and windows of 2 sentences.  There is one window, so the window indices
    are [0,0]; the second sentence interval (1,1) becomes the window
    interval (1,1), and the only fact is both the first and the last one, so
    the extension leaves it there. *)
Lemma extended_interval_outside_window_range :
  Windows.extended_query_interval 2 2
    (Windows.query_interval_window 2 2 [[(0, 0); (1, 1)]])
  = [[(0, 0); (1, 1)]]
  /\ ~ window_index 2 2 1.
Proof. split; [reflexivity | unfold window_index; lia]. Qed.

(** C2, amended: let [(L,R)] be the extended window interval that the fact
    of rank [i] gets for its sentence interval [(s,e)], with
    [0 <= s <= e < T] and [1 <= W <= T].  Then [L] and [R] are not
    negative; [L] is at most [total_windows - 1] unless the fact is the
    first one, in which case [L] is the start [s] of the unextended
    interval; [R] is at most [total_windows - 1] unless the fact is the last
    one, in which case [R] is the end of the unextended interval; and both
    are window indices whenever [s] itself is one ([s <= T - W]). *)
Theorem extended_interval_bounds T W (qis : list (list interval))
    (i k : nat) (ivs : list interval) (s e : Z) :
  1 <= W <= T ->
  qis !! i = Some ivs -> ivs !! k = Some (s, e) ->
  0 <= s <= e -> e < T ->
  exists extended L R,
    Windows.extended_query_interval T W (Windows.query_interval_window T W qis)
      !! i = Some extended /\
    extended !! k = Some (L, R) /\
    0 <= L /\ 0 <= R /\
    (i <> 0%nat -> L <= (T - W + 1) - 1) /\
    (i = 0%nat -> L = (Windows.window_interval T W (s, e)).1 /\ L = s) /\
    (S i <> length qis -> R <= (T - W + 1) - 1) /\
    (S i = length qis -> R = (Windows.window_interval T W (s, e)).2) /\
    (s <= T - W -> window_index T W L /\ window_index T W R).
Proof.
  intros HW Hi Hk Hse HeT.
  destruct (query_interval_window_lookup T W qis i ivs k (s, e) Hi Hk)
    as (ivs' & Hi' & Hk').
  destruct (extended_query_interval_lookup T W _ i ivs' k _ Hi' Hk')
    as (ext & Hext & Hextk).
  rewrite query_interval_window_length, window_interval_closed_form in Hextk.
  rewrite window_interval_closed_form.
  unfold Windows.extend_interval in Hextk. unfold window_index. simpl.
  assert (Hrank : i <> 0%nat <-> Z.of_nat i <> 0) by lia.
  assert (Hlast : S i <> length qis <-> Z.of_nat i <> Z.of_nat (length qis) - 1)
    by lia.
  repeat case_bool_decide;
    repeat match type of Hextk with
           | context [?a >=? ?b] => destruct (Z.geb_spec a b)
           end;
    (eexists ext, _, _; split; [exact Hext|]; split; [exact Hextk|]);
    repeat split; intros; lia.
Qed.

Lemma extended_interval_bounds_witness :
  exists extended L R,
    Windows.extended_query_interval 5 2
      (Windows.query_interval_window 5 2 [[(0, 2)]; [(3, 3)]; [(4, 4)]])
      !! 1%nat = Some extended /\
    extended !! 0%nat = Some (L, R) /\
    0 <= L /\ 0 <= R /\
    (1%nat <> 0%nat -> L <= (5 - 2 + 1) - 1) /\
    (1%nat = 0%nat -> L = (Windows.window_interval 5 2 (3, 3)).1 /\ L = 3) /\
    (2%nat <> length [[(0, 2)]; [(3, 3)]; [(4, 4)]] -> R <= (5 - 2 + 1) - 1) /\
    (2%nat = length [[(0, 2)]; [(3, 3)]; [(4, 4)]] ->
       R = (Windows.window_interval 5 2 (3, 3)).2) /\
    (3 <= 5 - 2 -> window_index 5 2 L /\ window_index 5 2 R).
Proof.
  apply (extended_interval_bounds 5 2 [[(0, 2)]; [(3, 3)]; [(4, 4)]]
           1 0 [(3, 3)] 3 3); [lia | reflexivity | reflexivity | lia | lia].
Defined.

(** * The windows *)

Lemma result_bind_ok {A B} (a : A) (k : A -> result B) : (Ok a ≫= k) = k a.
Proof. reflexivity. Qed.

Lemma result_bind_inv {A B} (m : result A) (k : A -> result B) (b : B) :
  (m ≫= k) = Ok b -> exists a, m = Ok a /\ k a = Ok b.
Proof. destruct m as [a|e]; [|done]. intros Hk. by exists a. Qed.

Lemma for_each_invariant {A S} (P : S -> Prop) (body : S -> A -> result S) :
  (forall s a s', P s -> body s a = Ok s' -> P s') ->
  forall l s s', P s -> for_each body s l = Ok s' -> P s'.
Proof.
  intros Hbody l. induction l as [|a l IH]; intros s s' Hs Hrun; simpl in Hrun.
  - by injection Hrun as <-.
  - destruct (body s a) as [s1|e] eqn:Hs1; [|done].
    rewrite result_bind_ok in Hrun. eapply IH; [|exact Hrun]. by eapply Hbody.
Qed.

Lemma for_each_app {A S} (body : S -> A -> result S) l1 l2 s :
  for_each body s (l1 ++ l2) = (s1 ← for_each body s l1; for_each body s1 l2).
Proof.
  revert s. induction l1 as [|a l1 IH]; intros s; simpl; [done|].
  destruct (body s a) as [s1|e]; [|done]. rewrite !result_bind_ok. apply IH.
Qed.

Lemma for_each_raises {A S} (body : S -> A -> result S) l1 a l2 s s1 e :
  for_each body s l1 = Ok s1 -> body s1 a = Raise e ->
  for_each body s (l1 ++ a :: l2) = Raise e.
Proof.
  intros H1 Ha. rewrite for_each_app, H1, result_bind_ok. simpl. by rewrite Ha.
Qed.

Lemma py_index_lookup {A} (l : list A) (j : Z) (x : A) :
  0 <= j -> l !! Z.to_nat j = Some x -> py_index l j = Ok x.
Proof.
  intros Hj Hx. unfold py_index.
  assert (Hlt : (j <? 0) = false) by lia.
  rewrite Hlt. cbv zeta. by rewrite Hlt, Hx.
Qed.

Lemma py_index_in_range {A} (l : list A) (j : Z) :
  0 <= j < Z.of_nat (length l) ->
  exists x, l !! Z.to_nat j = Some x /\ py_index l j = Ok x.
Proof.
  intros Hj. destruct (lookup_lt_is_Some_2 l (Z.to_nat j)) as [x Hx]; [lia|].
  exists x. split; [done|]. apply py_index_lookup; [lia | done].
Qed.

Lemma py_index_past_end {A} (l : list A) (j : Z) :
  Z.of_nat (length l) <= j -> py_index l j = Raise IndexError.
Proof.
  intros Hj. unfold py_index.
  assert (Hlt : (j <? 0) = false) by lia.
  rewrite Hlt. cbv zeta. rewrite Hlt.
  by rewrite lookup_ge_None_2 by lia.
Qed.

Section AssemblerFacts.
Variable gsl : list (Z * text * Z).
Variable window_size : Z.

Abbreviation T := (Windows.total_sentences gsl).

Lemma window_sentences_of_ok (js : list Z) :
  (forall j, j ∈ js -> 0 <= j < T) ->
  exists texts, Windows.window_sentences_of gsl js = Ok texts.
Proof.
  induction js as [|j js IH]; intros Hjs; simpl; [by eexists|].
  destruct (py_index_in_range gsl j) as (x & _ & ->);
    [apply Hjs; by left|].
  destruct IH as [texts ->]; [intros; apply Hjs; by right|].
  by eexists.
Qed.

Lemma add_window_ok (ws : Windows.windows) (i : Z) :
  1 <= window_size -> 0 <= i -> i + window_size <= T ->
  exists window_text entry,
    gsl !! Z.to_nat i = Some entry /\
    Windows.add_window gsl window_size ws i
    = Ok (Windows.Windows_
            (<[i := window_text]> (Windows.corpus_window ws))
            (<[i := entry.2]> (Windows.window_to_sentence_index ws))).
Proof.
  intros HW Hi HiT. unfold Windows.add_window.
  destruct (window_sentences_of_ok (seqZ i window_size)) as [texts ->].
  { intros j Hj. apply elem_of_seqZ in Hj. lia. }
  destruct (py_index_in_range gsl i) as (entry & Hentry & ->);
    [unfold Windows.total_sentences in HiT; lia|].
  by eexists _, entry.
Qed.

(** The loop [for i in range(total_windows)] over a list [l] of window
    starts that fit in the sentence list. *)
Lemma add_windows_ok (l : list Z) (ws : Windows.windows) :
  1 <= window_size ->
  (forall i, i ∈ l -> 0 <= i /\ i + window_size <= T) ->
  exists ws',
    for_each (Windows.add_window gsl window_size) ws l = Ok ws' /\
    dom (Windows.corpus_window ws')
      = dom (Windows.corpus_window ws) ∪ list_to_set l /\
    dom (Windows.window_to_sentence_index ws')
      = dom (Windows.window_to_sentence_index ws) ∪ list_to_set l /\
    forall i start_index,
      Windows.window_to_sentence_index ws' !! i = Some start_index ->
      Windows.window_to_sentence_index ws !! i = Some start_index \/
      (i ∈ l /\ exists entry,
          gsl !! Z.to_nat i = Some entry /\ entry.2 = start_index).
Proof.
  intros HW. revert ws.
  induction l as [|i l IH]; intros ws Hl; simpl.
  - exists ws. repeat split; [set_solver.. | by left].
  - destruct (add_window_ok ws i HW) as (txt & entry & Hentry & ->);
      [apply Hl; by left.. |].
    rewrite result_bind_ok.
    destruct (IH (Windows.Windows_
                    (<[i := txt]> (Windows.corpus_window ws))
                    (<[i := entry.2]> (Windows.window_to_sentence_index ws))))
      as (ws' & -> & Hdc & Hdw & Hstart); [intros; apply Hl; by right|].
    exists ws'. simpl in *. split; [done|].
    rewrite Hdc, Hdw, !dom_insert_L.
    split; [set_solver|]. split; [set_solver|].
    intros j start Hj. destruct (Hstart j start Hj) as [Hold|[Hin Hent]].
    + destruct (decide (i = j)) as [->|Hne].
      * rewrite lookup_insert_eq in Hold. injection Hold as <-.
        right. split; [by left|]. by exists entry.
      * rewrite lookup_insert_ne in Hold by done. by left.
    + right. split; [by right | done].
Qed.

Lemma build_windows_ok :
  1 <= window_size ->
  exists ws,
    Windows.build_windows gsl window_size = Ok ws /\
    dom (Windows.corpus_window ws)
      = list_to_set (seqZ 0 (Windows.total_windows gsl window_size)) /\
    dom (Windows.window_to_sentence_index ws)
      = list_to_set (seqZ 0 (Windows.total_windows gsl window_size)) /\
    forall i start_index,
      Windows.window_to_sentence_index ws !! i = Some start_index ->
      0 <= i /\ exists entry,
        gsl !! Z.to_nat i = Some entry /\ entry.2 = start_index.
Proof.
  intros HW. unfold Windows.build_windows.
  destruct (add_windows_ok (seqZ 0 (Windows.total_windows gsl window_size))
              (Windows.Windows_ ∅ ∅) HW)
    as (ws & Hws & Hdc & Hdw & Hstart).
  { intros i Hi. apply elem_of_seqZ in Hi.
    unfold Windows.total_windows in Hi. lia. }
  exists ws. simpl in *. split; [done|].
  split; [set_solver|]. split; [set_solver|].
  intros i start Hi. destruct (Hstart i start Hi) as [Habs|[Hin Hent]].
  - by rewrite lookup_empty in Habs.
  - apply elem_of_seqZ in Hin. split; [lia | done].
Qed.

Lemma build_windows_size (ws : Windows.windows) :
  dom (Windows.corpus_window ws)
    = list_to_set (seqZ 0 (Windows.total_windows gsl window_size)) ->
  size (Windows.corpus_window ws)
    = Z.to_nat (Windows.total_windows gsl window_size).
Proof.
  intros Hdom. rewrite <- size_dom, Hdom.
  rewrite size_list_to_set by apply NoDup_seqZ. apply length_seqZ.
Qed.
End AssemblerFacts.

Lemma add_window_below_one gsl W ws i :
  W <= 0 ->
  Windows.add_window gsl W ws i
  = (entry ← py_index gsl i;
     Ok (Windows.Windows_ (<[i := []]> (Windows.corpus_window ws))
           (<[i := entry.2]> (Windows.window_to_sentence_index ws)))).
Proof. intros HW. unfold Windows.add_window. by rewrite seqZ_nil by lia. Qed.

(** A window size below 1 makes the loop read past the end of the sentence
    list: the windows [0 .. T-1] are built (empty), and
    [global_sentences_list[T]] raises. *)
Lemma build_windows_raises_below_one gsl W :
  W <= 0 -> Windows.build_windows gsl W = Raise IndexError.
Proof.
  intros HW. unfold Windows.build_windows, Windows.total_windows.
  set (T := Windows.total_sentences gsl).
  assert (HT : 0 <= T) by (unfold T, Windows.total_sentences; lia).
  replace (T - W + 1) with (T + (1 + - W)) by lia.
  rewrite seqZ_app by lia. rewrite (seqZ_cons (0 + T)) by lia.
  assert (Hpre : forall l ws, (forall i, i ∈ l -> 0 <= i < T) ->
            exists ws', for_each (Windows.add_window gsl W) ws l = Ok ws').
  { induction l as [|i l IH]; intros ws Hl; [by eexists|]. cbn [for_each].
    rewrite add_window_below_one by done.
    destruct (py_index_in_range gsl i) as (entry & _ & ->); [apply Hl; by left|].
    rewrite !result_bind_ok. apply IH. intros j Hj. apply Hl. by right. }
  destruct (Hpre (seqZ 0 T) (Windows.Windows_ ∅ ∅)) as [ws' Hws'].
  { intros i Hi. apply elem_of_seqZ in Hi. lia. }
  apply (for_each_raises _ _ _ _ _ _ _ Hws').
  rewrite add_window_below_one, py_index_past_end; [done| |done].
  unfold T, Windows.total_sentences. lia.
Qed.

(** * The sentence list of [windows.py] *)

Lemma foldl_invariant {A B} (P : A -> Prop) (f : A -> B -> A) :
  (forall a b, P a -> P (f a b)) ->
  forall l a, P a -> P (foldl f a l).
Proof.
  intros Hf l. induction l as [|b l IH]; intros a Ha; simpl; [done|].
  apply IH, Hf, Ha.
Qed.

Lemma add_sentence_indexed p s : indexed p -> indexed (Windows.add_sentence p s).
Proof.
  intros [Hc Hk]. unfold Windows.add_sentence. split; simpl.
  - rewrite length_app. simpl. lia.
  - intros k entry Hentry.
    apply lookup_app_Some in Hentry as [Hold|[Hge Hnew]]; [by apply Hk|].
    apply list_lookup_singleton_Some in Hnew as [Hk0 <-]. simpl.
    rewrite Hc. split; f_equal; lia.
Qed.

Section FirstPassFacts.
Variable ud : unicodedata.
Variable sentenize : text -> list text.

Lemma process_link_indexed sa link_item :
  state_indexed sa.1 ->
  state_indexed (Windows.process_link ud sentenize sa link_item).1.
Proof.
  destruct sa as [st acc]. intros Hst. unfold Windows.process_link.
  repeat (case_bool_decide || case_match); simpl; try done.
  unfold state_indexed. simpl.
  match goal with
  | |- indexed ((foldl ?f ?a ?l).1, (foldl ?f ?a ?l).2) =>
      destruct (foldl f a l) as [g c] eqn:Hfold;
      pose proof (foldl_invariant indexed f add_sentence_indexed l a Hst) as Hinv
  end.
  by rewrite Hfold in Hinv.
Qed.

Lemma process_fact_indexed sq item :
  state_indexed sq.1 -> state_indexed (Windows.process_fact ud sentenize sq item).1.
Proof.
  intros Hsq. unfold Windows.process_fact. simpl.
  apply (foldl_invariant (fun sa => state_indexed sa.1)); [|done].
  intros. by apply process_link_indexed.
Qed.

Lemma run_indexed data : state_indexed (Windows.run ud sentenize data).1.
Proof.
  unfold Windows.run.
  apply (foldl_invariant (fun sq => state_indexed sq.1)).
  - intros. by apply process_fact_indexed.
  - split; simpl; [done|]. intros k entry Hk. by rewrite lookup_nil in Hk.
Qed.
End FirstPassFacts.

(** C10: in the run of [windows.py], the element at position [k] of
    [global_sentences_list] carries the global index [k] (and the id
    ["bwc-k"]); hence, for every window size of at least one sentence, the
    windows are built without an error and every window [i] records [i] as
    its start-sentence index. *)
Theorem window_records_its_own_index ud sentenize data window_size :
  let gsl := Windows.global_sentences_list (Windows.run ud sentenize data).1 in
  (forall k entry, gsl !! k = Some entry ->
     entry.2 = Z.of_nat k /\ entry.1.1 = Z.of_nat k) /\
  (1 <= window_size ->
   exists ws, Windows.build_windows gsl window_size = Ok ws /\
     forall i start_index,
       Windows.window_to_sentence_index ws !! i = Some start_index ->
       start_index = i).
Proof.
  intros gsl.
  destruct (run_indexed ud sentenize data) as [_ Hidx]. simpl in Hidx.
  split; [intros k entry Hk; destruct (Hidx k entry Hk); by split|].
  intros HW.
  destruct (build_windows_ok gsl window_size HW) as (ws & Hws & _ & _ & Hstart).
  exists ws. split; [done|].
  intros i start Hi.
  destruct (Hstart i start Hi) as (Hi0 & entry & Hentry & <-).
  destruct (Hidx _ _ Hentry) as [_ ->]. lia.
Qed.

Lemma window_records_its_own_index_witness :
  exists ws,
    Windows.build_windows
      (Windows.global_sentences_list
         (Windows.run ud_basic sentenize_one demo_data).1) 2 = Ok ws /\
    forall i start_index,
      Windows.window_to_sentence_index ws !! i = Some start_index ->
      start_index = i.
Proof.
  apply (proj2 (window_records_its_own_index ud_basic sentenize_one demo_data 2)).
  lia.
Defined.

(** * The number of windows *)

(** C5, as stated, fails: with one sentence and windows of 2 sentences no
    window is built and nothing is raised, but the window interval list of
    a fact that has the sentence interval (0,0) is not empty. *)
Lemma window_interval_list_not_empty :
  let gsl := [(0, py "A.", 0)] in
  Z.of_nat (length gsl) < 2 /\
  Windows.build_windows gsl 2 = Ok (Windows.Windows_ ∅ ∅) /\
  Windows.query_interval_window (Z.of_nat (length gsl)) 2 [[(0, 0)]] = [[(0, 0)]] /\
  ~ Forall (fun intervals => intervals = [])
      (Windows.query_interval_window (Z.of_nat (length gsl)) 2 [[(0, 0)]]).
Proof.
  cbv zeta. split; [simpl; lia|]. split; [reflexivity|]. split; [reflexivity|].
  intros H. apply Forall_cons_1 in H as [H _]. discriminate H.
Qed.

(** C5, amended: for a sentence list of length [T] and a window size [W]:
    if [1 <= W <= T], exactly [T - W + 1] windows are built, those of index
    [0] to [T - W]; if [W > T], no window is built and nothing is raised;
    and in both cases every fact keeps one window interval per sentence
    interval. *)
Theorem window_count (gsl : list (Z * text * Z)) (W : Z)
    (query_interval_sent : list (list interval)) :
  let T := Z.of_nat (length gsl) in
  (1 <= W <= T ->
   exists ws, Windows.build_windows gsl W = Ok ws /\
     Z.of_nat (size (Windows.corpus_window ws)) = T - W + 1 /\
     forall i, i ∈ dom (Windows.corpus_window ws) <-> 0 <= i <= T - W) /\
  (W > T -> Windows.build_windows gsl W = Ok (Windows.Windows_ ∅ ∅)) /\
  length <$> Windows.query_interval_window T W query_interval_sent
  = length <$> query_interval_sent.
Proof.
  intros T. split; [|split].
  - intros HW.
    destruct (build_windows_ok gsl W) as (ws & Hws & Hdc & _); [lia|].
    exists ws. split; [done|]. split.
    + rewrite (build_windows_size gsl W ws Hdc).
      unfold Windows.total_windows, Windows.total_sentences. lia.
    + intros i. rewrite Hdc, elem_of_list_to_set, elem_of_seqZ.
      unfold Windows.total_windows, Windows.total_sentences. lia.
  - intros HW. unfold Windows.build_windows.
    rewrite seqZ_nil; [done|].
    unfold Windows.total_windows, Windows.total_sentences. lia.
  - unfold Windows.query_interval_window.
    rewrite <- list_fmap_compose. apply list_fmap_ext.
    intros _ ivs _. simpl. by rewrite length_fmap.
Qed.

Lemma window_count_witness :
  let gsl := [(0, py "A.", 0); (1, py "B.", 1); (2, py "C.", 2)] in
  exists ws, Windows.build_windows gsl 2 = Ok ws /\
    Z.of_nat (size (Windows.corpus_window ws)) = 3 - 2 + 1 /\
    forall i, i ∈ dom (Windows.corpus_window ws) <-> 0 <= i <= 3 - 2.
Proof.
  cbv zeta.
  apply (proj1 (window_count [(0, py "A.", 0); (1, py "B.", 1); (2, py "C.", 2)]
                  2 [])).
  simpl. lia.
Defined.

(** * Candidate units *)

Lemma existsb_Exists {A} (f : A -> bool) (l : list A) :
  existsb f l = true <-> Exists (fun x => f x = true) l.
Proof.
  rewrite existsb_exists, Exists_exists.
  split; intros (x & Hx & Hf); exists x; split; try done; by apply list_elem_of_In.
Qed.

Lemma valid_para_ids_spec (corpus : gmap Z text) (intervals : list interval) u :
  u ∈ Paras.valid_para_ids corpus intervals <->
  u ∈ dom corpus /\ Exists (in_interval u) intervals.
Proof.
  unfold Paras.valid_para_ids. rewrite elem_of_union_list, Exists_exists. split.
  - intros (X & HX & Hu). apply list_elem_of_fmap in HX as (iv & -> & Hiv).
    apply elem_of_dom in Hu as [t Ht].
    apply map_lookup_filter_Some in Ht as [Ht Hb]. simpl in Hb.
    split; [by apply elem_of_dom|]. exists iv. split; [done|].
    unfold Paras.between in Hb. unfold in_interval. lia.
  - intros (Hu & iv & Hiv & Hin). apply elem_of_dom in Hu as [t Ht].
    eexists. split; [apply list_elem_of_fmap; by exists iv|].
    apply elem_of_dom. exists t. apply map_lookup_filter_Some. split; [done|].
    simpl. unfold Paras.between. unfold in_interval in Hin. lia.
Qed.

Lemma valid_window_ids_spec W (w2s : gmap Z Z) (intervals : list interval) u :
  u ∈ Windows.valid_window_ids W w2s intervals <->
  exists start_index, w2s !! u = Some start_index /\
    Exists (fun iv => iv.1 - (W - 1) <= start_index <= iv.2) intervals.
Proof.
  unfold Windows.valid_window_ids. rewrite elem_of_dom. unfold is_Some.
  setoid_rewrite map_lookup_filter_Some. simpl.
  setoid_rewrite existsb_Exists.
  split; intros (start & Hu & Hex); exists start; (split; [done|]);
    eapply Exists_impl; try exact Hex; intros iv; unfold Windows.overlaps; lia.
Qed.

(** C4, as stated, fails for the windows: in the run on [demo_data] with
    windows of 2 sentences, the extended interval list of the second fact
    is [(1,3); (2,3)], and window 0 is one of its candidates. *)
Lemma window_candidate_outside_intervals :
  let r := Windows.run ud_basic sentenize_one demo_data in
  let gsl := Windows.global_sentences_list r.1 in
  let T := Z.of_nat (length gsl) in
  let intervals :=
    default []
      (Windows.extended_query_interval T 2
         (Windows.query_interval_window T 2 r.2) !! 1%nat) in
  intervals = [(1, 3); (2, 3)] /\
  exists ws, Windows.build_windows gsl 2 = Ok ws /\
    0 ∈ Windows.valid_window_ids 2 (Windows.window_to_sentence_index ws) intervals /\
    ~ Exists (in_interval 0) intervals.
Proof.
  cbv zeta.
  assert (default []
            (Windows.extended_query_interval
               (Z.of_nat (length (Windows.global_sentences_list
                  (Windows.run ud_basic sentenize_one demo_data).1))) 2
               (Windows.query_interval_window
                  (Z.of_nat (length (Windows.global_sentences_list
                     (Windows.run ud_basic sentenize_one demo_data).1))) 2
                  (Windows.run ud_basic sentenize_one demo_data).2) !! 1%nat)
          = [(1, 3); (2, 3)]) as -> by (by vm_compute).
  split; [done|].
  eexists. split; [by vm_compute|]. split.
  - apply valid_window_ids_spec. exists 0. split; [by vm_compute|].
    apply Exists_cons_hd. simpl. lia.
  - rewrite !Exists_cons, Exists_nil. unfold in_interval. simpl. lia.
Qed.

(** C4, amended: for the paragraphs the candidates of a fact are exactly
    the units of the corpus whose index lies in one of the fact's
    intervals; for the windows they are exactly the windows [u] whose
    sentences [u .. u + W - 1] meet one of the fact's extended intervals
    [(L,R)], that is [L - (W - 1) <= u <= R]: every window whose index lies
    in an interval, and the up to [W - 1] windows before it. *)
Theorem candidate_units ud sentenize data W (intervals : list interval) :
  (forall (corpus : gmap Z text) u,
     u ∈ Paras.valid_para_ids corpus intervals <->
     u ∈ dom corpus /\ Exists (in_interval u) intervals) /\
  (1 <= W ->
   exists ws,
     Windows.build_windows
       (Windows.global_sentences_list (Windows.run ud sentenize data).1) W = Ok ws /\
     forall u,
       u ∈ Windows.valid_window_ids W (Windows.window_to_sentence_index ws) intervals <->
       u ∈ dom (Windows.corpus_window ws) /\
       Exists (fun iv => iv.1 - (W - 1) <= u <= iv.2) intervals).
Proof.
  split; [intros; apply valid_para_ids_spec|].
  intros HW.
  destruct (run_indexed ud sentenize data) as [_ Hidx]. simpl in Hidx.
  destruct (build_windows_ok
              (Windows.global_sentences_list (Windows.run ud sentenize data).1) W HW)
    as (ws & Hws & Hdc & Hdw & Hstart).
  exists ws. split; [done|]. intros u. rewrite valid_window_ids_spec.
  rewrite Hdc, <- Hdw, elem_of_dom. unfold is_Some. split.
  - intros (start & Hu & Hex).
    destruct (Hstart u start Hu) as (Hu0 & entry & Hentry & <-).
    destruct (Hidx _ _ Hentry) as [_ Heq].
    split; [by eexists|]. rewrite Heq in Hex.
    by rewrite Z2Nat.id in Hex by done.
  - intros ([start Hu] & Hex). exists start. split; [done|].
    destruct (Hstart u start Hu) as (Hu0 & entry & Hentry & <-).
    destruct (Hidx _ _ Hentry) as [_ ->]. by rewrite Z2Nat.id by done.
Qed.

Lemma candidate_units_witness :
  exists ws,
    Windows.build_windows
      (Windows.global_sentences_list
         (Windows.run ud_basic sentenize_one demo_data).1) 2 = Ok ws /\
    forall u,
      u ∈ Windows.valid_window_ids 2 (Windows.window_to_sentence_index ws)
            [(1, 3); (2, 3)] <->
      u ∈ dom (Windows.corpus_window ws) /\
      Exists (fun iv => iv.1 - (2 - 1) <= u <= iv.2) [(1, 3); (2, 3)].
Proof.
  apply (proj2 (candidate_units ud_basic sentenize_one demo_data 2 [(1, 3); (2, 3)])).
  lia.
Defined.

(** * The first pass: deduplication and intervals *)

(** The number of units that the inner loop adds. *)
Lemma foldl_add_unit_counter (units : list text) (corpus : gmap Z text) (c : Z) :
  (foldl Pass1.add_unit (corpus, c) units).2
  = c + Z.of_nat (length (filter (fun unit => unit ≠ []) units)).
Proof.
  revert corpus c. induction units as [|u units IH]; intros corpus c; simpl; [lia|].
  unfold Pass1.add_unit at 2. simpl. rewrite filter_cons.
  case_bool_decide as Hu; case_decide; try done; rewrite IH; simpl; lia.
Qed.

Section Pass1Facts.
Variable ud : unicodedata.
Variable units_of : text -> list text.

Abbreviation step := (Pass1.process_link ud units_of).

Lemma process_link_duplicate st acc l :
  link l ∈ fact_links acc -> step (st, acc) l = Ok (st, acc).
Proof. intros Hin. unfold Pass1.process_link. by rewrite bool_decide_eq_true_2. Qed.

Lemma process_link_cached st acc l cached :
  link l ∉ fact_links acc ->
  Pass1.processed_links st !! link l = Some cached ->
  step (st, acc) l
  = Ok (st, FactAcc (fact_links acc ∪ {[link l]})
              (intervals_for_fact acc ++ [cached])).
Proof.
  intros Hin Hc. unfold Pass1.process_link.
  by rewrite bool_decide_eq_false_2, Hc.
Qed.

Lemma process_link_no_data st acc l :
  link l ∉ fact_links acc ->
  Pass1.processed_links st !! link l = None ->
  link_data l = None ->
  step (st, acc) l = Raise TypeError.
Proof.
  intros Hin Hc Hd. unfold Pass1.process_link.
  by rewrite bool_decide_eq_false_2, Hc, Hd.
Qed.

Lemma process_link_fresh st acc l raw :
  link l ∉ fact_links acc ->
  Pass1.processed_links st !! link l = None ->
  link_data l = Some raw ->
  let n := Z.of_nat (length (filter (fun unit => unit ≠ [])
                               (units_of (preprocess_text ud raw)))) in
  let interval := (Pass1.doc_counter st, Pass1.doc_counter st + n - 1) in
  exists corpus',
    step (st, acc) l
    = Ok (Pass1.State corpus' (Pass1.doc_counter st + n)
            (<[link l := interval]> (Pass1.processed_links st)),
          FactAcc (fact_links acc ∪ {[link l]})
            (intervals_for_fact acc ++ [interval])).
Proof.
  intros Hin Hc Hd n interval. unfold Pass1.process_link.
  rewrite bool_decide_eq_false_2, Hc, Hd by done.
  eexists. rewrite foldl_add_unit_counter. reflexivity.
Qed.

(** What one step does to the accumulators, whichever branch it takes. *)
Lemma process_link_effect st acc l st' acc' :
  (forall u, u ∈ fact_links acc -> is_Some (Pass1.processed_links st !! u)) ->
  step (st, acc) l = Ok (st', acc') ->
  fact_links acc' = fact_links acc ∪ {[link l]} /\
  (forall u iv, Pass1.processed_links st !! u = Some iv ->
                Pass1.processed_links st' !! u = Some iv) /\
  is_Some (Pass1.processed_links st' !! link l) /\
  (forall good : interval -> Prop,
     (forall c n, 0 <= n -> good (c, c + n - 1)) ->
     (forall u iv, Pass1.processed_links st !! u = Some iv -> good iv) ->
     Forall good (intervals_for_fact acc) ->
     (forall u iv, Pass1.processed_links st' !! u = Some iv -> good iv) /\
     Forall good (intervals_for_fact acc')).
Proof.
  intros Hfl Hstep.
  destruct (decide (link l ∈ fact_links acc)) as [Hin|Hin].
  { rewrite process_link_duplicate in Hstep by done.
    injection Hstep as <- <-. split; [set_solver|]. split; [done|].
    split; [by apply Hfl|by intros]. }
  destruct (Pass1.processed_links st !! link l) as [cached|] eqn:Hc.
  { rewrite (process_link_cached _ _ _ cached) in Hstep by done.
    injection Hstep as <- <-. simpl. split; [done|]. split; [done|].
    split; [by eexists|]. intros good Hfresh Hcache Hacc. split; [done|].
    apply Forall_app. split; [done|]. apply Forall_singleton. by eapply Hcache. }
  destruct (link_data l) as [raw|] eqn:Hd;
    [|by rewrite process_link_no_data in Hstep].
  destruct (process_link_fresh st acc l raw Hin Hc Hd) as [corpus' Heq].
  rewrite Heq in Hstep. injection Hstep as <- <-. simpl.
  split; [done|]. split.
  { intros u iv Hu. rewrite lookup_insert_ne; [done|]. intros <-. congruence. }
  split; [rewrite lookup_insert_eq; by eexists|].
  intros good Hfresh Hcache Hacc. split.
  - intros u iv Hu. destruct (decide (link l = u)) as [<-|Hne].
    + rewrite lookup_insert_eq in Hu. injection Hu as <-. apply Hfresh. lia.
    + rewrite lookup_insert_ne in Hu by done. by eapply Hcache.
  - apply Forall_app. split; [done|]. apply Forall_singleton, Hfresh. lia.
Qed.

(** The same for the links of one fact. *)
Lemma process_links_effect l1 : forall st1 acc1 st acc,
  (forall u, u ∈ fact_links acc1 -> is_Some (Pass1.processed_links st1 !! u)) ->
  for_each step (st1, acc1) l1 = Ok (st, acc) ->
  fact_links acc = fact_links acc1 ∪ list_to_set (link <$> l1) /\
  (forall u iv, Pass1.processed_links st1 !! u = Some iv ->
                Pass1.processed_links st !! u = Some iv) /\
  (forall u, u ∈ fact_links acc -> is_Some (Pass1.processed_links st !! u)) /\
  (forall good : interval -> Prop,
     (forall c n, 0 <= n -> good (c, c + n - 1)) ->
     (forall u iv, Pass1.processed_links st1 !! u = Some iv -> good iv) ->
     Forall good (intervals_for_fact acc1) ->
     (forall u iv, Pass1.processed_links st !! u = Some iv -> good iv) /\
     Forall good (intervals_for_fact acc)).
Proof.
  induction l1 as [|a l1 IH]; intros st1 acc1 st acc Hfl Hrun; simpl in Hrun.
  - injection Hrun as <- <-. split; [set_solver|]. split; [done|].
    split; [done|]. by intros.
  - apply result_bind_inv in Hrun as ([st2 acc2] & Hstep & Hrun).
    destruct (process_link_effect _ _ _ _ _ Hfl Hstep)
      as (Hfl2 & Hkeep2 & Hsome2 & Hgood2).
    assert (Hfl' : forall u, u ∈ fact_links acc2 ->
              is_Some (Pass1.processed_links st2 !! u)).
    { intros u Hu. rewrite Hfl2 in Hu.
      apply elem_of_union in Hu as [Hu|Hu].
      - destruct (Hfl u Hu) as [iv Hiv]. exists iv. by apply Hkeep2.
      - apply elem_of_singleton in Hu as ->. done. }
    destruct (IH _ _ _ _ Hfl' Hrun) as (Hfl3 & Hkeep3 & Hsome3 & Hgood3).
    split; [rewrite Hfl3, Hfl2; set_solver|].
    split; [intros; by apply Hkeep3, Hkeep2|]. split; [done|].
    intros good Hfresh Hcache Hacc.
    destruct (Hgood2 good Hfresh Hcache Hacc) as [Hc2 Ha2].
    by apply Hgood3.
Qed.

(** The same for a list of facts. *)
Lemma process_facts_effect data : forall st0 qi0 st qi,
  for_each (Pass1.process_fact ud units_of) (st0, qi0) data = Ok (st, qi) ->
  (forall u iv, Pass1.processed_links st0 !! u = Some iv ->
                Pass1.processed_links st !! u = Some iv) /\
  (forall item l, item ∈ data -> l ∈ links item ->
                  is_Some (Pass1.processed_links st !! link l)) /\
  (forall good : interval -> Prop,
     (forall c n, 0 <= n -> good (c, c + n - 1)) ->
     (forall u iv, Pass1.processed_links st0 !! u = Some iv -> good iv) ->
     Forall (Forall good) qi0 ->
     (forall u iv, Pass1.processed_links st !! u = Some iv -> good iv) /\
     Forall (Forall good) qi).
Proof.
  induction data as [|item data IH]; intros st0 qi0 st qi Hrun; simpl in Hrun.
  - injection Hrun as <- <-. split; [done|]. split; [|by intros].
    intros item l Hitem. by apply elem_of_nil in Hitem.
  - apply result_bind_inv in Hrun as ([st1 qi1] & Hfact & Hrun).
    unfold Pass1.process_fact in Hfact. simpl in Hfact.
    apply result_bind_inv in Hfact as ([st1' acc] & Hlinks & Hret).
    injection Hret as <- <-.
    destruct (process_links_effect _ _ _ _ _ (fun u Hu =>
                False_rect _ (not_elem_of_empty (C := gset _) u Hu)) Hlinks)
      as (Hfl & Hkeep1 & Hsome1 & Hgood1).
    destruct (IH _ _ _ _ Hrun) as (Hkeep & Hsome & Hgood).
    split; [intros; by apply Hkeep, Hkeep1|]. split.
    + intros item' l Hitem Hl. apply elem_of_cons in Hitem as [->|Hitem].
      * destruct (Hsome1 (link l)) as [iv Hiv].
        { rewrite Hfl. apply elem_of_union_r, elem_of_list_to_set.
          apply list_elem_of_fmap. by exists l. }
        exists iv. by apply Hkeep.
      * by eapply Hsome.
    + intros good Hfresh Hcache Hq.
      destruct (Hgood1 good Hfresh Hcache) as [Hc1 Ha1]; [by apply Forall_nil|].
      apply Hgood; [done..|]. apply Forall_app. split; [done|].
      by apply Forall_singleton.
Qed.
End Pass1Facts.

Section WindowsPassFacts.
Variable ud : unicodedata.
Variable sentenize : text -> list text.

Abbreviation wstep := (Windows.process_link ud sentenize).

Lemma windows_process_link_duplicate st acc l :
  link l ∈ fact_links acc -> wstep (st, acc) l = (st, acc).
Proof. intros Hin. unfold Windows.process_link. by rewrite bool_decide_eq_true_2. Qed.

Lemma windows_process_link_cached st acc l cached :
  link l ∉ fact_links acc ->
  Windows.processed_links st !! link l = Some cached ->
  wstep (st, acc) l
  = (st, FactAcc (fact_links acc ∪ {[link l]})
           (intervals_for_fact acc ++ [cached])).
Proof.
  intros Hin Hc. unfold Windows.process_link.
  by rewrite bool_decide_eq_false_2, Hc.
Qed.

(** A source without text is passed over. *)
Lemma windows_process_link_no_text st acc l :
  link l ∉ fact_links acc ->
  Windows.processed_links st !! link l = None ->
  preprocess_text ud (default [] (link_data l)) = [] ->
  wstep (st, acc) l
  = (st, FactAcc (fact_links acc ∪ {[link l]}) (intervals_for_fact acc)).
Proof.
  intros Hin Hc Ht. unfold Windows.process_link.
  by rewrite bool_decide_eq_false_2, Hc, Ht.
Qed.

Lemma foldl_add_sentence_counter (sentences : list text) gsl c :
  (foldl Windows.add_sentence (gsl, c) sentences).2
  = c + Z.of_nat (length sentences).
Proof.
  revert gsl c. induction sentences as [|s ss IH]; intros gsl c; simpl; [lia|].
  unfold Windows.add_sentence at 2. simpl. rewrite IH. lia.
Qed.

Lemma windows_process_link_effect st acc l :
  let sa' := wstep (st, acc) l in
  fact_links sa'.2 = fact_links acc ∪ {[link l]} /\
  (forall u iv, Windows.processed_links st !! u = Some iv ->
                Windows.processed_links sa'.1 !! u = Some iv) /\
  (forall good : interval -> Prop,
     (forall c n, 1 <= n -> good (c, c + n - 1)) ->
     (forall u iv, Windows.processed_links st !! u = Some iv -> good iv) ->
     Forall good (intervals_for_fact acc) ->
     (forall u iv, Windows.processed_links sa'.1 !! u = Some iv -> good iv) /\
     Forall good (intervals_for_fact sa'.2)).
Proof.
  intros sa'. subst sa'.
  destruct (decide (link l ∈ fact_links acc)) as [Hin|Hin].
  { rewrite windows_process_link_duplicate by done. simpl.
    split; [set_solver|]. split; [done|]. by intros. }
  destruct (Windows.processed_links st !! link l) as [cached|] eqn:Hc.
  { rewrite (windows_process_link_cached _ _ _ cached) by done. simpl.
    split; [done|]. split; [done|]. intros good Hfresh Hcache Hacc.
    split; [done|]. apply Forall_app. split; [done|].
    apply Forall_singleton. by eapply Hcache. }
  unfold Windows.process_link.
  rewrite bool_decide_eq_false_2, Hc by done.
  case_bool_decide as Htext; [simpl; split; [done|]; split; [done|]; by intros|].
  case_bool_decide as Hsent; [simpl; split; [done|]; split; [done|]; by intros|].
  simpl. split; [done|]. split.
  { intros u iv Hu. rewrite lookup_insert_ne; [done|]. intros <-. congruence. }
  intros good Hfresh Hcache Hacc.
  assert (Hn : 1 <= Z.of_nat (length (filter (fun s => s ≠ [])
                                (strip <$> sentenize
                                   (preprocess_text ud (default [] (link_data l))))))).
  { destruct (filter _ _); [done | simpl; lia]. }
  split.
  - intros u iv Hu. destruct (decide (link l = u)) as [<-|Hne].
    + rewrite lookup_insert_eq in Hu. injection Hu as <-. by apply Hfresh.
    + rewrite lookup_insert_ne in Hu by done. by eapply Hcache.
  - apply Forall_app. split; [done|]. by apply Forall_singleton, Hfresh.
Qed.

Lemma windows_process_links_effect l1 : forall st1 acc1,
  let sa := foldl wstep (st1, acc1) l1 in
  fact_links sa.2 = fact_links acc1 ∪ list_to_set (link <$> l1) /\
  (forall u iv, Windows.processed_links st1 !! u = Some iv ->
                Windows.processed_links sa.1 !! u = Some iv) /\
  (forall good : interval -> Prop,
     (forall c n, 1 <= n -> good (c, c + n - 1)) ->
     (forall u iv, Windows.processed_links st1 !! u = Some iv -> good iv) ->
     Forall good (intervals_for_fact acc1) ->
     (forall u iv, Windows.processed_links sa.1 !! u = Some iv -> good iv) /\
     Forall good (intervals_for_fact sa.2)).
Proof.
  induction l1 as [|a l1 IH]; intros st1 acc1; cbv zeta; cbn [foldl].
  - simpl. split; [set_solver|]. split; [done|]. by intros.
  - destruct (windows_process_link_effect st1 acc1 a) as (Hfl2 & Hkeep2 & Hgood2).
    destruct (wstep (st1, acc1) a) as [st2 acc2]. cbn [fst snd] in *.
    destruct (IH st2 acc2) as (Hfl3 & Hkeep3 & Hgood3).
    rewrite fmap_cons, list_to_set_cons.
    split; [rewrite Hfl3, Hfl2; set_solver|].
    split; [intros; by apply Hkeep3, Hkeep2|].
    intros good Hfresh Hcache Hacc.
    destruct (Hgood2 good Hfresh Hcache Hacc) as [Hc2 Ha2].
    by apply Hgood3.
Qed.

Lemma windows_process_facts_effect data : forall st0 qi0,
  let sq := foldl (Windows.process_fact ud sentenize) (st0, qi0) data in
  (forall u iv, Windows.processed_links st0 !! u = Some iv ->
                Windows.processed_links sq.1 !! u = Some iv) /\
  (forall good : interval -> Prop,
     (forall c n, 1 <= n -> good (c, c + n - 1)) ->
     (forall u iv, Windows.processed_links st0 !! u = Some iv -> good iv) ->
     Forall (Forall good) qi0 ->
     (forall u iv, Windows.processed_links sq.1 !! u = Some iv -> good iv) /\
     Forall (Forall good) sq.2).
Proof.
  induction data as [|item data IH]; intros st0 qi0; cbv zeta; cbn [foldl].
  - simpl. split; [done|]. by intros.
  - assert (Hfact : Windows.process_fact ud sentenize (st0, qi0) item
                    = ((foldl wstep (st0, fact_acc_init) (links item)).1,
                       qi0 ++ [intervals_for_fact
                                 (foldl wstep (st0, fact_acc_init) (links item)).2]))
      by reflexivity.
    rewrite Hfact. clear Hfact.
    destruct (windows_process_links_effect (links item) st0 fact_acc_init)
      as (_ & Hkeep1 & Hgood1).
    destruct (foldl wstep (st0, fact_acc_init) (links item)) as [st1 acc].
    cbn [fst snd] in *.
    destruct (IH st1 (qi0 ++ [intervals_for_fact acc])) as (Hkeep & Hgood).
    split; [intros; by apply Hkeep, Hkeep1|].
    intros good Hfresh Hcache Hq.
    destruct (Hgood1 good Hfresh Hcache) as [Hc1 Ha1]; [by apply Forall_nil|].
    apply Hgood; [done..|]. apply Forall_app. split; [done|].
    by apply Forall_singleton.
Qed.
End WindowsPassFacts.

(** C7: let [st1] be the state after the facts [earlier], and let the
    links [l1] of the current fact be processed already.  A link whose URL
    occurs in [l1] is dropped: the step changes nothing.  A link whose URL
    does not occur in [l1] but has an interval [cached] in
    [processed_links] after the earlier facts leaves the corpus, the
    counter and the cache as they are and appends [cached] to the fact's
    interval list.  This holds for the loop of [sents.py] and [paras.py]
    (where every URL of an earlier fact is in the cache) and for the loop of
    [windows.py]. *)
Theorem cached_source_is_reused ud units_of sentenize
    (earlier : list fact) (l1 : list link_item) (link_item : link_item) :
  (forall st1 qi1 st acc,
     Pass1.run ud units_of earlier = Ok (st1, qi1) ->
     for_each (Pass1.process_link ud units_of) (st1, fact_acc_init) l1
       = Ok (st, acc) ->
     (forall item l, item ∈ earlier -> l ∈ links item ->
        is_Some (Pass1.processed_links st1 !! link l)) /\
     (link link_item ∈ link <$> l1 ->
        Pass1.process_link ud units_of (st, acc) link_item = Ok (st, acc)) /\
     (link link_item ∉ link <$> l1 ->
        forall cached,
          Pass1.processed_links st1 !! link link_item = Some cached ->
          Pass1.process_link ud units_of (st, acc) link_item
          = Ok (st, FactAcc (fact_links acc ∪ {[link link_item]})
                      (intervals_for_fact acc ++ [cached])))) /\
  (let st1 := (Windows.run ud sentenize earlier).1 in
   let sa := foldl (Windows.process_link ud sentenize) (st1, fact_acc_init) l1 in
   (link link_item ∈ link <$> l1 ->
      Windows.process_link ud sentenize sa link_item = sa) /\
   (link link_item ∉ link <$> l1 ->
      forall cached,
        Windows.processed_links st1 !! link link_item = Some cached ->
        Windows.process_link ud sentenize sa link_item
        = (sa.1, FactAcc (fact_links sa.2 ∪ {[link link_item]})
                   (intervals_for_fact sa.2 ++ [cached])))).
Proof.
  split.
  - intros st1 qi1 st acc Hrun Hlinks.
    destruct (process_facts_effect ud units_of earlier _ _ _ _ Hrun)
      as (_ & Hsome & _).
    destruct (process_links_effect ud units_of l1 _ _ _ _ (fun u Hu =>
                False_rect _ (not_elem_of_empty (C := gset _) u Hu)) Hlinks)
      as (Hfl & Hkeep & _).
    assert (Hset : forall u, u ∈ fact_links acc <-> u ∈ link <$> l1).
    { intros u. rewrite Hfl. simpl. rewrite elem_of_union, elem_of_list_to_set.
      set_solver. }
    split; [done|]. split.
    + intros Hin. apply process_link_duplicate. by apply Hset.
    + intros Hin cached Hc. apply process_link_cached; [by rewrite Hset|].
      by apply Hkeep.
  - intros st1 sa.
    destruct (windows_process_links_effect ud sentenize l1 st1 fact_acc_init)
      as (Hfl & Hkeep & _).
    fold sa in Hfl, Hkeep. destruct sa as [st acc]. simpl in *.
    assert (Hset : forall u, u ∈ fact_links acc <-> u ∈ link <$> l1).
    { intros u. rewrite Hfl. rewrite elem_of_union, elem_of_list_to_set.
      set_solver. }
    split.
    + intros Hin. apply windows_process_link_duplicate. by apply Hset.
    + intros Hin cached Hc. apply windows_process_link_cached; [by rewrite Hset|].
      by apply Hkeep.
Qed.

Lemma cached_source_is_reused_witness :
  let link_item := LinkItem (Some "u2"%string) (Some (py "C.")) in
  let st1 := (Windows.run ud_basic sentenize_one (take 1 demo_data)).1 in
  let sa := foldl (Windows.process_link ud_basic sentenize_one) (st1, fact_acc_init) [] in
  Windows.process_link ud_basic sentenize_one sa link_item
  = (sa.1, FactAcc (fact_links sa.2 ∪ {[link link_item]})
             (intervals_for_fact sa.2 ++ [(2, 2)])).
Proof.
  cbv zeta.
  apply (proj2 (proj2 (cached_source_is_reused ud_basic Paras.paragraphs sentenize_one
                         (take 1 demo_data) []
                         (LinkItem (Some "u2"%string) (Some (py "C.")))))).
  - simpl. apply not_elem_of_nil.
  - by vm_compute.
Defined.

(** * Empty intervals *)




(** * Sources without text *)

(** The failure in general: the first pass of [sents.py] and [paras.py]
    is aborted by the first link without text whose URL is neither a
    duplicate nor in the cache, wherever it stands. *)
Lemma run_raises_on_missing_link_data ud units_of earlier t l1 l l2 later
    st1 qi1 st acc :
  Pass1.run ud units_of earlier = Ok (st1, qi1) ->
  for_each (Pass1.process_link ud units_of) (st1, fact_acc_init) l1 = Ok (st, acc) ->
  link l ∉ fact_links acc ->
  Pass1.processed_links st !! link l = None ->
  link_data l = None ->
  Pass1.run ud units_of (earlier ++ Fact t (l1 ++ l :: l2) :: later)
  = Raise TypeError.
Proof.
  intros Hrun Hlinks Hin Hc Hd. unfold Pass1.run in *.
  apply (for_each_raises _ _ _ _ _ _ _ Hrun).
  unfold Pass1.process_fact. simpl.
  rewrite (for_each_raises _ l1 l l2 _ _ TypeError Hlinks); [done|].
  by apply process_link_no_data.
Qed.

Lemma preprocess_text_empty ud :
  normalize_NFC ud [] = [] -> preprocess_text ud [] = [].
Proof.
  intros H. unfold preprocess_text. cbv zeta.
  change (strip (replace_nbsp (sub_header (sub_accent [])))) with (@nil Z).
  by rewrite H.
Qed.

(** [windows.py] passes over such a link: the state is unchanged and the
    loop goes on with the next link. *)
Lemma windows_skips_missing_link_data ud sentenize st acc l rest :
  normalize_NFC ud [] = [] ->
  link l ∉ fact_links acc ->
  Windows.processed_links st !! link l = None ->
  link_data l = None ->
  foldl (Windows.process_link ud sentenize) (st, acc) (l :: rest)
  = foldl (Windows.process_link ud sentenize)
      (st, FactAcc (fact_links acc ∪ {[link l]}) (intervals_for_fact acc)) rest.
Proof.
  intros Hnfc Hin Hc Hd. simpl. f_equal.
  apply windows_process_link_no_text; [done..|].
  rewrite Hd. by apply preprocess_text_empty.
Qed.

(** C9 on the code: a fact whose first link has no ["link_data"] makes the
    first pass of [sents.py] and of [paras.py] raise [TypeError], for every
    segmenter and whatever follows; the claim has the link passed over. *)
Theorem missing_link_data_aborts_first_pass ud sentenize t url ls data :
  Sents.run ud sentenize (Fact t (LinkItem url None :: ls) :: data)
    = Raise TypeError /\
  Paras.run ud (Fact t (LinkItem url None :: ls) :: data) = Raise TypeError.
Proof.
  split.
  - apply (run_raises_on_missing_link_data ud sentenize [] t [] _ ls data
             Pass1.init [] Pass1.init fact_acc_init); try reflexivity.
    simpl. apply not_elem_of_empty.
  - apply (run_raises_on_missing_link_data ud Paras.paragraphs [] t [] _ ls data
             Pass1.init [] Pass1.init fact_acc_init); try reflexivity.
    simpl. apply not_elem_of_empty.
Qed.

(** * Aggregation of the qrels *)

Lemma foldl_max_spec (l : list Z) : forall a,
  a <= foldl Z.max a l /\
  (forall r, r ∈ l -> r <= foldl Z.max a l) /\
  (foldl Z.max a l = a \/ foldl Z.max a l ∈ l).
Proof.
  induction l as [|x l IH]; intros a; simpl.
  - split; [lia|]. split; [|by left]. intros r Hr. by apply elem_of_nil in Hr.
  - destruct (IH (Z.max a x)) as (Hge & Hall & Hin).
    split; [lia|]. split.
    + intros r Hr. apply elem_of_cons in Hr as [->|Hr]; [lia | by apply Hall].
    + destruct Hin as [Heq|Hin]; [|right; by right].
      rewrite Heq. destruct (Z.max_spec a x) as [[_ ->]|[_ ->]];
        [right; by left | by left].
Qed.


Section AggregationFacts.
Variable ud : unicodedata.
Variable units : gmap Z text.
Variable corpus_sentences : gmap Z text.

Abbreviation hit := (sentence_hits ud units).

Lemma score_unit_found sentence_text r scores a ta :
  units !! a = Some ta ->
  score_unit ud units sentence_text r scores a
  = Ok (if is_sentence_in_window ud sentence_text ta
        then <[a := Z.max (default 0 (scores !! a)) r]> scores
        else scores).
Proof.
  intros Hta. unfold score_unit, py_getitem. rewrite Hta, result_bind_ok.
  by destruct (is_sentence_in_window _ _ _).
Qed.

(** The loop over the candidates, for one judgment. *)
Lemma score_units_spec sentence_text r (ids : list Z) : forall scores,
  (forall u, u ∈ ids -> is_Some (units !! u)) ->
  exists scores',
    for_each (score_unit ud units sentence_text r) scores ids = Ok scores' /\
    forall u,
      scores' !! u
      = if bool_decide (u ∈ ids) && hit sentence_text u
        then Some (Z.max (default 0 (scores !! u)) r)
        else scores !! u.
Proof.
  induction ids as [|a ids IH]; intros scores Hdom; cbn [for_each].
  - exists scores. split; [done|]. intros u.
    destruct (bool_decide (u ∈ [])) eqn:E; [|done].
    apply bool_decide_eq_true in E. by apply elem_of_nil in E.
  - destruct (Hdom a) as [ta Hta]; [by left|].
    rewrite (score_unit_found _ _ _ _ _ Hta), result_bind_ok.
    destruct (is_sentence_in_window ud sentence_text ta) eqn:Hhit;
      (edestruct IH as (scores' & -> & Hspec); [intros; apply Hdom; by right|]);
      exists scores'; (split; [done|]); intros u; rewrite Hspec;
      destruct (decide (u = a)) as [->|Hne].
    + rewrite lookup_insert_eq. unfold sentence_hits. rewrite Hta, Hhit. simpl.
      rewrite (bool_decide_eq_true_2 (a ∈ a :: ids)) by (by left).
      rewrite andb_true_r. simpl. case_bool_decide; f_equal; lia.
    + rewrite lookup_insert_ne by done.
      destruct (decide (u ∈ ids)) as [Hin|Hin].
      * rewrite !bool_decide_eq_true_2 by (done || by right). done.
      * rewrite !bool_decide_eq_false_2; [done| |done].
        intros [?|?]%elem_of_cons; done.
    + unfold sentence_hits. rewrite Hta, Hhit. by rewrite !andb_false_r.
    + destruct (decide (u ∈ ids)) as [Hin|Hin].
      * rewrite !bool_decide_eq_true_2 by (done || by right). done.
      * rewrite !bool_decide_eq_false_2; [done| |done].
        intros [?|?]%elem_of_cons; done.
Qed.

Lemma contributing_cons item items unit_text :
  contributing ud corpus_sentences (item :: items) unit_text
  = match corpus_sentences !! item.1 with
    | Some sentence_text =>
        if is_sentence_in_window ud sentence_text unit_text
        then item.2 :: contributing ud corpus_sentences items unit_text
        else contributing ud corpus_sentences items unit_text
    | None => contributing ud corpus_sentences items unit_text
    end.
Proof.
  unfold contributing. cbn [omap list_omap].
  destruct (corpus_sentences !! item.1) as [sentence_text|]; [|done].
  by destruct (is_sentence_in_window _ _ _).
Qed.

Abbreviation received := (received_scores ud corpus_sentences units).

Lemma score_sentence_unfold valid scores item :
  score_sentence ud units corpus_sentences valid scores item
  = match corpus_sentences !! item.1 with
    | None => Ok scores
    | Some sentence_text =>
        for_each (score_unit ud units sentence_text item.2) scores
          (elements valid)
    end.
Proof. reflexivity. Qed.

(** The loop over the judgments of one fact. *)
Lemma score_sentences_spec (valid : gset Z) (items : list (Z * Z)) :
  valid ⊆ dom units ->
  forall scores,
  exists final,
    for_each (score_sentence ud units corpus_sentences valid) scores items
      = Ok final /\
    forall u,
      final !! u
      = if bool_decide (u ∈ valid) && bool_decide (received items u <> [])
        then Some (foldl Z.max (default 0 (scores !! u)) (received items u))
        else scores !! u.
Proof.
  intros Hvalid. induction items as [|item items IH]; intros scores;
    cbn [for_each].
  - exists scores. split; [done|]. intros u.
    assert (received [] u = []) as ->
      by (unfold received_scores; by destruct (units !! u)).
    rewrite (bool_decide_eq_false_2 (_ <> _)) by (by intros []).
    by rewrite andb_false_r.
  - rewrite score_sentence_unfold.
    destruct (corpus_sentences !! item.1) as [sentence_text|] eqn:Hsent.
    + destruct (score_units_spec sentence_text item.2 (elements valid) scores)
        as (scores1 & -> & Hspec1).
      { intros u Hu. apply elem_of_elements in Hu.
        apply elem_of_dom. by apply Hvalid. }
      rewrite result_bind_ok.
      destruct (IH scores1) as (final & -> & Hspec).
      exists final. split; [done|]. intros u. rewrite Hspec, Hspec1.
      unfold received_scores, sentence_hits.
      destruct (units !! u) as [unit_text|] eqn:Hu.
      * rewrite contributing_cons, Hsent.
        destruct (decide (u ∈ valid)) as [Hin|Hin].
        -- rewrite !(bool_decide_eq_true_2 (u ∈ valid)) by done.
           rewrite (bool_decide_eq_true_2 (u ∈ elements valid))
             by (by apply elem_of_elements).
           cbn [andb].
           destruct (is_sentence_in_window ud sentence_text unit_text).
           ++ rewrite (bool_decide_eq_true_2 (_ :: _ <> [])) by done.
              cbn [foldl default]. by case_bool_decide as Hc; [|rewrite Hc].
           ++ done.
        -- rewrite !(bool_decide_eq_false_2 (u ∈ valid)) by done.
           rewrite (bool_decide_eq_false_2 (u ∈ elements valid))
             by (by rewrite elem_of_elements).
           done.
      * by rewrite !andb_false_r.
    + rewrite result_bind_ok.
      destruct (IH scores) as (final & -> & Hspec).
      exists final. split; [done|]. intros u. rewrite Hspec.
      unfold received_scores. destruct (units !! u) as [unit_text|]; [|done].
      by rewrite contributing_cons, Hsent.
Qed.

End AggregationFacts.

Lemma build_windows_same_keys gsl W built :
  Windows.build_windows gsl W = Ok built ->
  dom (Windows.window_to_sentence_index built) = dom (Windows.corpus_window built).
Proof.
  unfold Windows.build_windows.
  apply (for_each_invariant
           (fun ws => dom (Windows.window_to_sentence_index ws)
                      = dom (Windows.corpus_window ws))); [|done].
  intros ws i ws' Hws Hstep. unfold Windows.add_window in Hstep.
  apply result_bind_inv in Hstep as (texts & _ & Hstep).
  apply result_bind_inv in Hstep as (entry & _ & Hstep).
  injection Hstep as <-. simpl. by rewrite !dom_insert_L, Hws.
Qed.

Lemma valid_window_ids_in_corpus gsl W built intervals :
  Windows.build_windows gsl W = Ok built ->
  Windows.valid_window_ids W (Windows.window_to_sentence_index built) intervals
    ⊆ dom (Windows.corpus_window built).
Proof.
  intros Hbuilt u Hu. rewrite <- (build_windows_same_keys _ _ _ Hbuilt).
  apply valid_window_ids_spec in Hu as (start & Hstart & _).
  apply elem_of_dom. by eexists.
Qed.

Lemma valid_para_ids_in_corpus (corpus : gmap Z text) intervals :
  Paras.valid_para_ids corpus intervals ⊆ dom corpus.
Proof. intros u Hu. by apply valid_para_ids_spec in Hu as [Hu _]. Qed.





(** The scores 2 and 4 on one paragraph leave the score 4. *)
Lemma scores_2_and_4_leave_4 :
  para_scores ud_basic paris_paragraphs paris_sentences [[(0, 0)]] 0
    [(0, 2); (1, 4)] = Ok {[ 0 := 4 ]} /\
  para_scores ud_basic paris_paragraphs paris_sentences [[(0, 0)]] 0
    [(0, 4); (1, 2)] = Ok {[ 0 := 4 ]}.
Proof. split; by vm_compute. Qed.

(** * The normalizer *)

(** C6, as stated, fails: the header pattern can match in the output of
    the normalizer where it did not match in the input.  In
    ["===\n=a===="] the pattern finds no match at the first character (the
    group cannot cross the newline), matches ["==\n=a=="] from the second
    one and leaves ["==a =="], in which it matches again. *)
Lemma preprocess_text_not_idempotent :
  let x := py "===" ++ [0xa] ++ py "=a====" in
  preprocess_text ud_basic x = py "==a ==" /\
  preprocess_text ud_basic (preprocess_text ud_basic x) = py "a" /\
  preprocess_text ud_basic (preprocess_text ud_basic x)
    <> preprocess_text ud_basic x.
Proof. cbv zeta. split; [by vm_compute|]. split; by vm_compute. Qed.

(** The same failure for every table that leaves Basic Latin text alone. *)
Lemma preprocess_text_not_idempotent_any_table ud :
  (forall s, Forall (fun c => 0 <= c < 0x80) s -> normalize_NFC ud s = s) ->
  (forall c, 0 <= c < 0x80 -> normalize_NFD ud [c] = [c] /\ combining ud c = 0) ->
  let x := py "===" ++ [0xa] ++ py "=a====" in
  preprocess_text ud (preprocess_text ud x) <> preprocess_text ud x.
Proof.
  intros Hnfc Hnfd x.
  assert (Hchar : forall c, 0 <= c < 0x80 -> strip_diacritics ud c = [c]).
  { intros c Hc. unfold strip_diacritics.
    rewrite bool_decide_eq_false_2.
    - destruct (Hnfd c Hc) as [-> Hcomb]. cbv zeta.
      rewrite filter_cons, filter_nil. by case_decide.
    - unfold exclude_chars. rewrite !elem_of_cons, elem_of_nil. lia. }
  assert (H1 : preprocess_text ud x = [61; 61; 97; 32; 61; 61]).
  { unfold preprocess_text. cbv zeta.
    change (strip (replace_nbsp (sub_header (sub_accent x))))
      with [61; 61; 97; 32; 61; 61].
    rewrite Hnfc by (repeat constructor; lia).
    cbn [flat_map]. rewrite !Hchar by lia. reflexivity. }
  assert (H2 : preprocess_text ud [61; 61; 97; 32; 61; 61] = [97]).
  { unfold preprocess_text. cbv zeta.
    change (strip (replace_nbsp (sub_header (sub_accent [61; 61; 97; 32; 61; 61]))))
      with [97].
    rewrite Hnfc by (repeat constructor; lia).
    cbn [flat_map]. rewrite !Hchar by lia. reflexivity. }
  rewrite H1, H2. discriminate.
Qed.

(** A second way to fail: a combining mark that follows a blank is removed
    after the text is stripped, so the blank is left at the end. *)
Lemma preprocess_text_leaves_trailing_blank :
  let x := [0x61; 0x20; 0x301] in
  preprocess_text ud_basic x = [0x61; 0x20] /\
  preprocess_text ud_basic (preprocess_text ud_basic x) = [0x61].
Proof. cbv zeta. split; by vm_compute. Qed.

(** ** Stripping *)

Lemma lstrip_suffix s : exists a, s = a ++ lstrip s.
Proof.
  induction s as [|c s [a IH]]; [by exists []|]. simpl.
  destruct (isspace c); [|by exists []].
  exists (c :: a). simpl. by f_equal.
Qed.

Lemma lstrip_head s :
  match lstrip s with c :: _ => isspace c = false | [] => True end.
Proof.
  induction s as [|c s IH]; [done|]. simpl.
  by destruct (isspace c) eqn:Hc.
Qed.

Lemma lstrip_fixed s :
  match s with c :: _ => isspace c = false | [] => True end -> lstrip s = s.
Proof. destruct s as [|c s]; [done|]. simpl. by intros ->. Qed.

Lemma lstrip_idem s : lstrip (lstrip s) = lstrip s.
Proof. apply lstrip_fixed, lstrip_head. Qed.

Lemma lstrip_snoc l c :
  lstrip (l ++ [c]) = if forallb isspace l then lstrip [c] else lstrip l ++ [c].
Proof.
  induction l as [|a l IH]; [done|]. cbn [app lstrip forallb].
  destruct (isspace a); [exact IH | done].
Qed.

Lemma rstrip_head c s :
  isspace c = false -> exists s', rstrip (c :: s) = c :: s'.
Proof.
  intros Hc. unfold rstrip. rewrite reverse_cons, lstrip_snoc.
  destruct (forallb isspace (reverse s)).
  - exists []. simpl. by rewrite Hc.
  - eexists. by rewrite reverse_app.
Qed.

Lemma rstrip_prefix s : exists b, s = rstrip s ++ b.
Proof.
  destruct (lstrip_suffix (reverse s)) as [a Ha].
  exists (reverse a). unfold rstrip.
  rewrite <- reverse_app, <- Ha. by rewrite reverse_involutive.
Qed.

Lemma rstrip_idem s : rstrip (rstrip s) = rstrip s.
Proof. unfold rstrip. by rewrite reverse_involutive, lstrip_idem. Qed.

Lemma strip_head s :
  match strip s with c :: _ => isspace c = false | [] => True end.
Proof.
  unfold strip. pose proof (lstrip_head s) as Hs.
  destruct (lstrip s) as [|c t]; [done|].
  by destruct (rstrip_head c t Hs) as [s' ->].
Qed.

Lemma strip_idem s : strip (strip s) = strip s.
Proof.
  unfold strip at 1. rewrite (lstrip_fixed (strip s)) by apply strip_head.
  unfold strip. apply rstrip_idem.
Qed.

Lemma strip_infix s : exists a b, s = a ++ strip s ++ b.
Proof.
  destruct (lstrip_suffix s) as [a Ha].
  destruct (rstrip_prefix (lstrip s)) as [b Hb].
  exists a, b. unfold strip. by rewrite <- Hb.
Qed.

Lemma strip_Forall (P : Z -> Prop) s : Forall P s -> Forall P (strip s).
Proof.
  destruct (strip_infix s) as (a & b & Hs). rewrite Hs at 1.
  rewrite !Forall_app. tauto.
Qed.

(** ** Occurrences *)

Lemma starts_with_app p s b :
  starts_with p s = true -> starts_with p (s ++ b) = true.
Proof.
  revert s. induction p as [|x p IH]; intros s; [done|].
  destruct s as [|y s]; [done|]. simpl.
  intros [-> Hp]%andb_true_iff. by rewrite IH.
Qed.

Lemma str_in_cons p c s :
  str_in p (c :: s) = starts_with p (c :: s) || str_in p s.
Proof. reflexivity. Qed.

Lemma str_in_drop_prefix p a s : str_in p (a ++ s) = false -> str_in p s = false.
Proof.
  induction a as [|c a IH]; [done|]. cbn [app]. rewrite str_in_cons.
  intros [_ H]%orb_false_iff. by apply IH.
Qed.

Lemma str_in_drop_suffix p s b : str_in p (s ++ b) = false -> str_in p s = false.
Proof.
  intros H. destruct (str_in p s) eqn:Hs; [|done]. rewrite <- H. clear H.
  induction s as [|c s IH].
  - simpl in Hs. rewrite orb_false_r in Hs. destruct p; [|done].
    by destruct b.
  - rewrite str_in_cons in Hs.
    change (str_in p ((c :: s) ++ b))
      with (starts_with p ((c :: s) ++ b) || str_in p (s ++ b)).
    apply orb_true_iff in Hs as [Hs|Hs].
    + by rewrite (starts_with_app _ (c :: s) b Hs).
    + rewrite <- (IH Hs). by rewrite orb_true_r.
Qed.

Lemma strip_no_marker s : has_marker s = false -> has_marker (strip s) = false.
Proof.
  unfold has_marker. destruct (strip_infix s) as (a & b & Hs).
  rewrite Hs at 1. intros H.
  by apply str_in_drop_prefix, str_in_drop_suffix in H.
Qed.

Lemma replace_nbsp_marker s : has_marker (replace_nbsp s) = has_marker s.
Proof.
  unfold has_marker, replace_nbsp. induction s as [|c1 s IH]; [done|].
  assert (Heq : forall c, (0x3d =? (if c =? 0xa0 then 0x20 else c)) = (0x3d =? c)).
  { intros c. destruct (Z.eqb_spec c 0xa0) as [->|]; [|done]. lia. }
  rewrite fmap_cons, !str_in_cons, IH. f_equal.
  destruct s as [|c2 s]; [by rewrite fmap_nil; cbn [starts_with]; rewrite Heq|].
  rewrite fmap_cons. cbn [starts_with]. by rewrite !Heq.
Qed.

Lemma replace_nbsp_fixed s : 0xa0 ∉ s -> replace_nbsp s = s.
Proof.
  unfold replace_nbsp. induction s as [|c s IH]; [done|].
  intros Hs. rewrite fmap_cons, IH by set_solver. f_equal.
  destruct (Z.eqb_spec c 0xa0) as [->|]; [set_solver | done].
Qed.

Lemma replace_nbsp_none s : 0xa0 ∉ replace_nbsp s.
Proof.
  unfold replace_nbsp. intros (c & Hc & _)%list_elem_of_fmap.
  destruct (Z.eqb_spec c 0xa0); lia.
Qed.

Lemma replace_nbsp_Forall (P : Z -> Prop) s :
  P 0x20 -> Forall P s -> Forall P (replace_nbsp s).
Proof.
  intros Hsp Hs. unfold replace_nbsp. apply Forall_fmap.
  eapply Forall_impl; [exact Hs|]. intros c Hc. simpl. by destruct (c =? 0xa0).
Qed.

(** ** The two substitutions on text without their patterns *)

Lemma sub_accent_cons2 a b s :
  sub_accent (a :: b :: s)
  = if (a =? 0x430) && (b =? 0x301) then 0x430 :: sub_accent s
    else a :: sub_accent (b :: s).
Proof. reflexivity. Qed.

Lemma sub_accent_no_acute s : 0x301 ∉ s -> sub_accent s = s.
Proof.
  induction s as [|a s IH]; [done|]. intros Hs.
  destruct s as [|b s]; [done|]. rewrite sub_accent_cons2.
  assert (Hb : (b =? 0x301) = false) by (apply Z.eqb_neq; set_solver).
  rewrite Hb, andb_false_r. f_equal. apply IH. set_solver.
Qed.

Lemma match_header_needs_marker s :
  starts_with [0x3d; 0x3d] s = false -> match_header s = None.
Proof.
  unfold match_header, lit. destruct s as [|c1 [|c2 s]]; simpl; try done.
  - by destruct (c1 =? 61).
  - destruct (Z.eqb_spec c1 61) as [->|]; [|done].
    destruct (Z.eqb_spec c2 61) as [->|]; [|done]. done.
Qed.

Lemma sub_header_no_marker s : has_marker s = false -> sub_header s = s.
Proof.
  unfold has_marker, sub_header. induction s as [|c s IH]; [done|].
  rewrite str_in_cons. intros [Hhere Hrest]%orb_false_iff.
  cbn [sub_header_from]. rewrite (match_header_needs_marker _ Hhere).
  by rewrite IH.
Qed.

(** ** Text of plain characters *)

Lemma strip_replace_nbsp_fixed (y : text) :
  strip (replace_nbsp y) = y <-> strip y = y /\ 0xa0 ∉ y.
Proof.
  split.
  - intros Hfix.
    assert (Hn : 0xa0 ∉ y).
    { intros Hin. apply (replace_nbsp_none y).
      destruct (strip_infix (replace_nbsp y)) as (a & b & Hab).
      rewrite Hfix in Hab. rewrite Hab, !elem_of_app. tauto. }
    split; [|done]. by rewrite (replace_nbsp_fixed y Hn) in Hfix.
  - intros [Hs Hn]. by rewrite replace_nbsp_fixed.
Qed.

Section PlainText.
Variable ud : unicodedata.
Variable plain : Z -> Prop.
Hypothesis Hinert : inert_on ud plain.
Hypothesis Hspace : plain 0x20.
Hypothesis Hacute : ~ plain 0x301.

Lemma strip_diacritics_plain c : plain c -> strip_diacritics ud c = [c].
Proof.
  intros Hc. unfold strip_diacritics. case_bool_decide as Hex; [done|].
  destruct (proj2 Hinert c Hc) as [?|[-> Hcomb]]; [done|]. cbv zeta.
  rewrite filter_cons, filter_nil. by case_decide.
Qed.

Lemma flat_map_strip_diacritics_plain s :
  Forall plain s -> flat_map (strip_diacritics ud) s = s.
Proof.
  induction 1 as [|c s Hc Hs IH]; [done|].
  cbn [flat_map]. by rewrite IH, strip_diacritics_plain.
Qed.

Lemma preprocess_text_plain x :
  Forall plain x -> has_marker x = false ->
  preprocess_text ud x = strip (replace_nbsp x).
Proof.
  intros Hx Hm. unfold preprocess_text. cbv zeta.
  rewrite sub_accent_no_acute.
  - rewrite (sub_header_no_marker x Hm).
    assert (Hy : Forall plain (strip (replace_nbsp x)))
      by (by apply strip_Forall, replace_nbsp_Forall).
    rewrite (proj1 Hinert _ Hy). by apply flat_map_strip_diacritics_plain.
  - intros Hin. apply Hacute. by eapply Forall_forall in Hx.
Qed.

Lemma preprocess_text_plain_idempotent x :
  Forall plain x -> has_marker x = false ->
  preprocess_text ud (preprocess_text ud x) = preprocess_text ud x.
Proof.
  intros Hx Hm. rewrite (preprocess_text_plain x Hx Hm).
  rewrite preprocess_text_plain.
  - rewrite replace_nbsp_fixed; [apply strip_idem|].
    intros Hin. apply (replace_nbsp_none x).
    destruct (strip_infix (replace_nbsp x)) as (a & b & ->).
    rewrite !elem_of_app. tauto.
  - by apply strip_Forall, replace_nbsp_Forall.
  - apply strip_no_marker. by rewrite replace_nbsp_marker.
Qed.

(** A plain text without the marker is a fixed point of the normalizer
    exactly when it is trimmed and holds no no-break space. *)
Lemma preprocess_text_plain_fixed y :
  Forall plain y -> has_marker y = false ->
  preprocess_text ud y = y <-> strip y = y /\ 0xa0 ∉ y.
Proof.
  intros Hy Hm. rewrite (preprocess_text_plain y Hy Hm).
  apply strip_replace_nbsp_fixed.
Qed.
End PlainText.

Lemma ud_basic_inert : inert_on ud_basic latin_or_cyrillic.
Proof.
  split; [done|]. intros c Hc. unfold latin_or_cyrillic in Hc.
  destruct (decide (c = 0x439)) as [->|H1]; [left; set_solver|].
  destruct (decide (c = 0x451)) as [->|H2]; [left; set_solver|].
  right. simpl.
  rewrite (proj2 (Z.eqb_neq c 0x439)), (proj2 (Z.eqb_neq c 0x451)) by done.
  split; [done|].
  rewrite (proj2 (Z.eqb_neq c 0x301)), (proj2 (Z.eqb_neq c 0x306)),
    (proj2 (Z.eqb_neq c 0x308)) by lia.
  done.
Qed.

(** C6, amended.  The code runs each step once, so the claim holds only
    where the normalized text gives the steps nothing more to do.  Let the
    tables leave the characters of a class [plain] alone (blanks among them,
    the acute accent not).

    For every input [x], whatever it holds (headings, accented [а], combining
    marks): when the normalized text is made of plain characters and does
    not hold the marker ["=="], then normalizing it again changes nothing
    if and only if it neither starts nor ends with white space and holds no
    no-break space.

    In particular the normalizer is idempotent on every input that itself
    is made of plain characters and does not hold ["=="], the empty string
    and mixed Latin and Cyrillic text among them; on such an input it only
    replaces the no-break spaces and strips the ends. *)
Theorem preprocess_text_idempotent_on_plain_text ud (plain : Z -> Prop) (x : text) :
  inert_on ud plain -> plain 0x20 -> ~ plain 0x301 ->
  (Forall plain (preprocess_text ud x) ->
   has_marker (preprocess_text ud x) = false ->
   (preprocess_text ud (preprocess_text ud x) = preprocess_text ud x <->
    strip (preprocess_text ud x) = preprocess_text ud x /\
    0xa0 ∉ preprocess_text ud x)) /\
  (Forall plain x -> has_marker x = false ->
   preprocess_text ud x = strip (replace_nbsp x) /\
   preprocess_text ud (preprocess_text ud x) = preprocess_text ud x).
Proof.
  intros Hinert Hspace Hacute. split.
  - intros Hy Hm. by apply (preprocess_text_plain_fixed ud plain).
  - intros Hx Hm. split.
    + by apply (preprocess_text_plain ud plain).
    + by apply (preprocess_text_plain_idempotent ud plain).
Qed.

(** The first input holds a heading, an accented [а] and a combining mark,
    all of which the normalizer removes; the second is plain. *)
Lemma preprocess_text_idempotent_on_plain_text_witness :
  let x1 := py "== History ==" ++ [0xa] ++ py "It began. "
            ++ [0x43c; 0x430; 0x301; 0x43c; 0x430] ++ py " e" ++ [0x301] in
  let x2 := py " Moscow " ++ [0x43c; 0x43e; 0x441; 0x43a; 0x432; 0x430; 0x20] in
  (preprocess_text ud_basic x1
   = py "History It began. " ++ [0x43c; 0x430; 0x43c; 0x430] ++ py " e" /\
   preprocess_text ud_basic (preprocess_text ud_basic x1)
   = preprocess_text ud_basic x1) /\
  (preprocess_text ud_basic x2 = strip (replace_nbsp x2) /\
   preprocess_text ud_basic (preprocess_text ud_basic x2)
   = preprocess_text ud_basic x2).
Proof.
  cbv zeta.
  assert (Hspace : latin_or_cyrillic 0x20) by (unfold latin_or_cyrillic; lia).
  assert (Hacute : ~ latin_or_cyrillic 0x301) by (unfold latin_or_cyrillic; lia).
  split.
  - assert (Hy : preprocess_text ud_basic
                   (py "== History ==" ++ [0xa] ++ py "It began. "
                    ++ [0x43c; 0x430; 0x301; 0x43c; 0x430] ++ py " e" ++ [0x301])
                 = py "History It began. " ++ [0x43c; 0x430; 0x43c; 0x430] ++ py " e")
      by (by vm_compute).
    split; [exact Hy|].
    apply (proj1 (preprocess_text_idempotent_on_plain_text ud_basic latin_or_cyrillic
                    _ ud_basic_inert Hspace Hacute)).
    + rewrite Hy.
      match goal with
      | |- Forall _ ?l => let l' := eval vm_compute in l in change l with l'
      end.
      repeat (apply Forall_cons_2; [unfold latin_or_cyrillic; lia|]).
      apply Forall_nil_2.
    + rewrite Hy. by vm_compute.
    + rewrite Hy. split; [by vm_compute|].
      match goal with
      | |- _ ∉ ?l => let l' := eval vm_compute in l in change l with l'
      end.
      intros Hin. repeat (apply elem_of_cons in Hin as [Hin|Hin]; [discriminate|]).
      by apply elem_of_nil in Hin.
  - apply (proj2 (preprocess_text_idempotent_on_plain_text ud_basic latin_or_cyrillic
                    _ ud_basic_inert Hspace Hacute)).
    + match goal with
      | |- Forall _ ?l => let l' := eval vm_compute in l in change l with l'
      end.
      repeat (apply Forall_cons_2; [unfold latin_or_cyrillic; lia|]).
      apply Forall_nil_2.
    + reflexivity.
Defined.

(** * Further properties of the windows *)

Lemma window_sentences_of_range gsl (n : nat) : forall i,
  0 <= i -> i + Z.of_nat n <= Z.of_nat (length gsl) ->
  Windows.window_sentences_of gsl (seqZ i (Z.of_nat n))
  = Ok (sentences_from gsl i (Z.of_nat n)).
Proof.
  unfold sentences_from. induction n as [|n IH]; intros i Hi Hn; [done|].
  rewrite seqZ_cons by lia. cbn [Windows.window_sentences_of].
  destruct (py_index_in_range gsl i) as (entry & Hentry & ->); [lia|].
  rewrite result_bind_ok.
  replace (Z.pred (Z.of_nat (S n))) with (Z.of_nat n) by lia.
  rewrite IH by lia. rewrite result_bind_ok.
  rewrite !Nat2Z.id. rewrite (drop_S _ _ _ Hentry). cbn [take fmap list_fmap].
  by replace (Z.to_nat (Z.succ i)) with (S (Z.to_nat i)) by lia.
Qed.

Lemma add_window_text gsl W ws i :
  1 <= W -> 0 <= i -> i + W <= Z.of_nat (length gsl) ->
  exists entry,
    gsl !! Z.to_nat i = Some entry /\
    Windows.add_window gsl W ws i
    = Ok (Windows.Windows_
            (<[i := join [0x20] (sentences_from gsl i W)]> (Windows.corpus_window ws))
            (<[i := entry.2]> (Windows.window_to_sentence_index ws))).
Proof.
  intros HW Hi HiT. unfold Windows.add_window.
  assert (Hs : Windows.window_sentences_of gsl (seqZ i W)
               = Ok (sentences_from gsl i W)).
  { pose proof (window_sentences_of_range gsl (Z.to_nat W) i Hi) as Hr.
    rewrite Z2Nat.id in Hr by lia. apply Hr. lia. }
  rewrite Hs, result_bind_ok.
  destruct (py_index_in_range gsl i) as (entry & Hentry & ->); [lia|].
  by exists entry.
Qed.

Lemma add_windows_text gsl W (l : list Z) : forall ws,
  1 <= W ->
  (forall i, i ∈ l -> 0 <= i /\ i + W <= Z.of_nat (length gsl)) ->
  exists ws',
    for_each (Windows.add_window gsl W) ws l = Ok ws' /\
    forall i,
      Windows.corpus_window ws' !! i
      = if bool_decide (i ∈ l) then Some (join [0x20] (sentences_from gsl i W))
        else Windows.corpus_window ws !! i.
Proof.
  induction l as [|a l IH]; intros ws HW Hl; cbn [for_each].
  - exists ws. split; [done|]. intros i.
    destruct (bool_decide (i ∈ [])) eqn:E; [|done].
    apply bool_decide_eq_true in E. by apply elem_of_nil in E.
  - destruct (add_window_text gsl W ws a HW) as (entry & _ & ->);
      [apply Hl; by left..|].
    rewrite result_bind_ok.
    edestruct IH as (ws' & -> & Hspec); [done | intros; apply Hl; by right|].
    exists ws'. split; [done|]. intros i. rewrite Hspec. cbn [Windows.corpus_window].
    destruct (decide (i ∈ l)) as [Hin|Hin].
    + rewrite !bool_decide_eq_true_2; [done | by right | done].
    + rewrite (bool_decide_eq_false_2 (i ∈ l)) by done.
      destruct (decide (i = a)) as [->|Hne].
      * rewrite lookup_insert_eq. by rewrite bool_decide_eq_true_2 by (by left).
      * rewrite lookup_insert_ne by done.
        rewrite bool_decide_eq_false_2; [done|].
        intros [?|?]%elem_of_cons; done.
Qed.

Lemma str_in_unfold a b :
  str_in a b
  = starts_with a b || match b with [] => false | _ :: b' => str_in a b' end.
Proof. by destruct b. Qed.

Lemma starts_with_prefix a b : starts_with a (a ++ b) = true.
Proof.
  induction a as [|x a IH]; [done|]. cbn [app starts_with].
  by rewrite Z.eqb_refl, IH.
Qed.

Lemma str_in_infix a p q : str_in a (p ++ a ++ q) = true.
Proof.
  induction p as [|c p IH].
  - cbn [app]. by rewrite str_in_unfold, starts_with_prefix.
  - cbn [app]. by rewrite str_in_cons, IH, orb_true_r.
Qed.

Lemma str_in_join (sep s : text) (parts : list text) :
  s ∈ parts -> str_in s (join sep parts) = true.
Proof.
  induction parts as [|p ps IH]; intros Hs; [by apply elem_of_nil in Hs|].
  destruct ps as [|p' ps].
  - apply list_elem_of_singleton in Hs as ->. cbn [join].
    rewrite <- (app_nil_r p) at 2. apply (str_in_infix p []).
  - change (join sep (p :: p' :: ps)) with (p ++ sep ++ join sep (p' :: ps)).
    apply elem_of_cons in Hs as [->|Hs]; [apply (str_in_infix p [])|].
    destruct (str_in s ((p ++ sep) ++ join sep (p' :: ps))) eqn:E;
      [by rewrite <- (assoc_L (++)) in E|].
    apply str_in_drop_prefix in E. by rewrite IH in E.
Qed.

(** X3: for a window size of at least one sentence, the text of window [i]
    is the texts of the sentences [i] to [i + W - 1] of the global list,
    joined by single blanks; there are [W] of them, and each occurs in the
    window text as it stands. *)
Theorem window_text_joins_its_sentences (gsl : list (Z * text * Z)) (W : Z) :
  1 <= W ->
  exists ws,
    Windows.build_windows gsl W = Ok ws /\
    forall i, 0 <= i <= Z.of_nat (length gsl) - W ->
      Windows.corpus_window ws !! i = Some (join [0x20] (sentences_from gsl i W)) /\
      length (sentences_from gsl i W) = Z.to_nat W /\
      forall s, s ∈ sentences_from gsl i W ->
        str_in s (join [0x20] (sentences_from gsl i W)) = true.
Proof.
  intros HW. unfold Windows.build_windows.
  destruct (add_windows_text gsl W
              (seqZ 0 (Windows.total_windows gsl W)) (Windows.Windows_ ∅ ∅) HW)
    as (ws & Hws & Hspec).
  { intros i Hi. apply elem_of_seqZ in Hi.
    unfold Windows.total_windows, Windows.total_sentences in Hi. lia. }
  exists ws. split; [done|]. intros i Hi. split; [|split].
  - rewrite Hspec, bool_decide_eq_true_2; [done|].
    apply elem_of_seqZ. unfold Windows.total_windows, Windows.total_sentences. lia.
  - unfold sentences_from. rewrite length_fmap, length_take, length_drop. lia.
  - intros s. apply str_in_join.
Qed.

Lemma window_text_joins_its_sentences_witness :
  let gsl := [(0, py "A.", 0); (1, py "B.", 1); (2, py "C.", 2)] in
  exists ws,
    Windows.build_windows gsl 2 = Ok ws /\
    forall i, 0 <= i <= Z.of_nat (length gsl) - 2 ->
      Windows.corpus_window ws !! i = Some (join [0x20] (sentences_from gsl i 2)) /\
      length (sentences_from gsl i 2) = Z.to_nat 2 /\
      forall s, s ∈ sentences_from gsl i 2 ->
        str_in s (join [0x20] (sentences_from gsl i 2)) = true.
Proof.
  cbv zeta.
  apply (window_text_joins_its_sentences
           [(0, py "A.", 0); (1, py "B.", 1); (2, py "C.", 2)] 2).
  lia.
Defined.

(** * Further properties of the aggregation *)

Lemma foldl_max_same_elements (l l' : list Z) a :
  (forall r, r ∈ l <-> r ∈ l') -> foldl Z.max a l = foldl Z.max a l'.
Proof.
  intros Hsame.
  destruct (foldl_max_spec l a) as (Ha & Hall & Hin).
  destruct (foldl_max_spec l' a) as (Ha' & Hall' & Hin').
  apply Z.le_antisymm.
  - destruct Hin as [->|Hin]; [done|]. by apply Hall', Hsame.
  - destruct Hin' as [->|Hin']; [done|]. by apply Hall, Hsame.
Qed.

Lemma same_elements_nil {A} (l l' : list A) :
  (forall r, r ∈ l <-> r ∈ l') -> l = [] <-> l' = [].
Proof.
  intros Hsame. split; intros ->.
  - destruct l' as [|x l']; [done|].
    exfalso. eapply not_elem_of_nil, Hsame. by left.
  - destruct l as [|x l]; [done|].
    exfalso. eapply not_elem_of_nil, Hsame. by left.
Qed.

(** The score dict of one fact, as a function of the unit. *)
Lemma aggregate_lookup ud (units corpus_sentences : gmap Z text) (valid : gset Z)
    (sent_rel_dict : list (Z * Z)) :
  valid ⊆ dom units ->
  exists scores,
    aggregate ud units corpus_sentences valid sent_rel_dict = Ok scores /\
    forall u,
      scores !! u
      = if bool_decide (u ∈ valid)
           && bool_decide (received_scores ud corpus_sentences units sent_rel_dict u <> [])
        then Some (foldl Z.max 0
                     (received_scores ud corpus_sentences units sent_rel_dict u))
        else None.
Proof.
  intros Hvalid.
  destruct (score_sentences_spec ud units corpus_sentences valid sent_rel_dict
              Hvalid ∅) as (scores & Hrun & Hspec).
  exists scores. split; [done|]. intros u. by rewrite Hspec, lookup_empty.
Qed.

Lemma received_scores_permutation ud (units corpus_sentences : gmap Z text)
    (d d' : list (Z * Z)) u r :
  d ≡ₚ d' ->
  r ∈ received_scores ud corpus_sentences units d u <->
  r ∈ received_scores ud corpus_sentences units d' u.
Proof.
  intros Hperm. unfold received_scores, contributing.
  destruct (units !! u); [|done]. rewrite !list_elem_of_omap.
  split; intros (item & Hitem & Hr); exists item; (split; [|done]).
  - by rewrite <- Hperm.
  - by rewrite Hperm.
Qed.

Lemma aggregate_permutation ud (units corpus_sentences : gmap Z text)
    (valid : gset Z) (d d' : list (Z * Z)) :
  valid ⊆ dom units -> d ≡ₚ d' ->
  aggregate ud units corpus_sentences valid d
  = aggregate ud units corpus_sentences valid d'.
Proof.
  intros Hvalid Hperm.
  destruct (aggregate_lookup ud units corpus_sentences valid d Hvalid)
    as (s1 & -> & H1).
  destruct (aggregate_lookup ud units corpus_sentences valid d' Hvalid)
    as (s2 & -> & H2).
  f_equal. apply map_eq. intros u. rewrite H1, H2.
  pose proof (received_scores_permutation ud units corpus_sentences d d' u) as Hsame.
  rewrite (foldl_max_same_elements _ _ 0 (fun r => Hsame r Hperm)).
  destruct (same_elements_nil _ _ (fun r => Hsame r Hperm)) as [Hn1 Hn2].
  repeat case_bool_decide; try done; tauto.
Qed.

Lemma aggregate_positive ud (units corpus_sentences : gmap Z text)
    (valid : gset Z) (d : list (Z * Z)) scores u v :
  valid ⊆ dom units ->
  (forall item, item ∈ d -> 0 < item.2) ->
  aggregate ud units corpus_sentences valid d = Ok scores ->
  scores !! u = Some v -> 0 < v.
Proof.
  intros Hvalid Hpos Hrun Hu.
  destruct (aggregate_lookup ud units corpus_sentences valid d Hvalid)
    as (s & Hs & Hspec).
  rewrite Hrun in Hs. injection Hs as <-. rewrite Hspec in Hu.
  destruct (bool_decide (u ∈ valid)); [|done]. cbn [andb] in Hu.
  case_bool_decide as Hne; [|done]. injection Hu as <-.
  destruct (received_scores ud corpus_sentences units d u) as [|r cs] eqn:Hcs;
    [done|].
  assert (Hr : r ∈ received_scores ud corpus_sentences units d u)
    by (rewrite Hcs; by left).
  unfold received_scores, contributing in Hr.
  destruct (units !! u); [|by apply elem_of_nil in Hr].
  apply list_elem_of_omap in Hr as (item & Hitem & Hr).
  destruct (corpus_sentences !! item.1); [|done].
  destruct (is_sentence_in_window _ _ _); [|done]. injection Hr as <-.
  destruct (foldl_max_spec (item.2 :: cs) 0) as (_ & Hall & _).
  specialize (Hall item.2 ltac:(by left)). specialize (Hpos item Hitem). lia.
Qed.

Lemma aggregate_no_candidate ud (units corpus_sentences : gmap Z text)
    (d : list (Z * Z)) :
  aggregate ud units corpus_sentences ∅ d = Ok ∅.
Proof.
  unfold aggregate. generalize (∅ : gmap Z Z) as scores.
  induction d as [|item d IH]; intros scores; cbn [for_each]; [done|].
  rewrite score_sentence_unfold, elements_empty.
  destruct (corpus_sentences !! item.1); cbn [for_each];
    rewrite result_bind_ok; apply IH.
Qed.

Lemma valid_window_ids_nil W (w2s : gmap Z Z) :
  Windows.valid_window_ids W w2s [] = ∅.
Proof.
  apply elem_of_equiv_empty_L. intros u Hu.
  apply valid_window_ids_spec in Hu as (start & _ & Hex).
  by apply Exists_nil in Hex.
Qed.

(** X4: the score that a fact's dict holds for a unit is the largest of 0
    and the scores of the judgments that reach the unit, for the windows
    and for the paragraphs; a candidate that only negative scores reach
    gets 0, and a unit that is no candidate or that no judgment reaches has
    no entry. *)
Theorem score_is_floored_maximum ud W gsl built (corpus corpus_sentences : gmap Z text)
    (intervals_of : list (list interval)) (fact_id : nat)
    (sent_rel_dict : list (Z * Z)) :
  Windows.build_windows gsl W = Ok built ->
  (exists scores,
     window_scores ud W built corpus_sentences intervals_of fact_id sent_rel_dict
       = Ok scores /\
     forall u,
       scores !! u
       = if bool_decide
              (u ∈ Windows.valid_window_ids W (Windows.window_to_sentence_index built)
                     (default [] (intervals_of !! fact_id)))
            && bool_decide
                 (received_scores ud corpus_sentences (Windows.corpus_window built)
                    sent_rel_dict u <> [])
         then Some (foldl Z.max 0
                      (received_scores ud corpus_sentences
                         (Windows.corpus_window built) sent_rel_dict u))
         else None) /\
  (exists scores,
     para_scores ud corpus corpus_sentences intervals_of fact_id sent_rel_dict
       = Ok scores /\
     forall u,
       scores !! u
       = if bool_decide
              (u ∈ Paras.valid_para_ids corpus (default [] (intervals_of !! fact_id)))
            && bool_decide
                 (received_scores ud corpus_sentences corpus sent_rel_dict u <> [])
         then Some (foldl Z.max 0
                      (received_scores ud corpus_sentences corpus sent_rel_dict u))
         else None).
Proof.
  intros Hbuilt. split.
  - apply aggregate_lookup. by eapply valid_window_ids_in_corpus.
  - apply aggregate_lookup, valid_para_ids_in_corpus.
Qed.

Lemma score_is_floored_maximum_witness :
  exists scores,
    para_scores ud_basic paris_paragraphs paris_sentences [[(0, 0)]] 0
      [(0, -3); (1, -1)] = Ok scores /\
    forall u,
      scores !! u
      = if bool_decide
             (u ∈ Paras.valid_para_ids paris_paragraphs
                    (default [] ([[(0, 0)]] !! 0%nat)))
           && bool_decide
                (received_scores ud_basic paris_sentences paris_paragraphs
                   [(0, -3); (1, -1)] u <> [])
        then Some (foldl Z.max 0
                     (received_scores ud_basic paris_sentences paris_paragraphs
                        [(0, -3); (1, -1)] u))
        else None.
Proof.
  apply (proj2 (score_is_floored_maximum ud_basic 1 [] (Windows.Windows_ ∅ ∅)
                  paris_paragraphs paris_sentences [[(0, 0)]] 0
                  [(0, -3); (1, -1)] eq_refl)).
Defined.

(** X5: the score dict of a fact does not depend on the order in which
    [sent_rel_dict] holds the judgments, for the windows and for the
    paragraphs. *)
Theorem scores_ignore_judgment_order ud W gsl built
    (corpus corpus_sentences : gmap Z text)
    (intervals_of : list (list interval)) (fact_id : nat) (d d' : list (Z * Z)) :
  Windows.build_windows gsl W = Ok built ->
  d ≡ₚ d' ->
  window_scores ud W built corpus_sentences intervals_of fact_id d
    = window_scores ud W built corpus_sentences intervals_of fact_id d' /\
  para_scores ud corpus corpus_sentences intervals_of fact_id d
    = para_scores ud corpus corpus_sentences intervals_of fact_id d'.
Proof.
  intros Hbuilt Hperm. split.
  - apply aggregate_permutation; [|done]. by eapply valid_window_ids_in_corpus.
  - apply aggregate_permutation; [|done]. apply valid_para_ids_in_corpus.
Qed.

Lemma scores_ignore_judgment_order_witness :
  window_scores ud_basic 1 (Windows.Windows_ ∅ ∅) paris_sentences [[(0, 0)]] 0
    [(0, 2); (1, 4)]
    = window_scores ud_basic 1 (Windows.Windows_ ∅ ∅) paris_sentences [[(0, 0)]] 0
        [(1, 4); (0, 2)] /\
  para_scores ud_basic paris_paragraphs paris_sentences [[(0, 0)]] 0 [(0, 2); (1, 4)]
    = para_scores ud_basic paris_paragraphs paris_sentences [[(0, 0)]] 0
        [(1, 4); (0, 2)].
Proof.
  apply (scores_ignore_judgment_order ud_basic 1 [] (Windows.Windows_ ∅ ∅)
           paris_paragraphs paris_sentences [[(0, 0)]] 0
           [(0, 2); (1, 4)] [(1, 4); (0, 2)] eq_refl).
  apply perm_swap.
Defined.

(** X6: when every judgment of the fact has a positive score, every score
    of the fact's dict is positive, for the windows and for the paragraphs:
    no row with the score 0 is written. *)
Theorem positive_judgments_give_positive_scores ud W gsl built
    (corpus corpus_sentences : gmap Z text)
    (intervals_of : list (list interval)) (fact_id : nat) (d : list (Z * Z)) :
  Windows.build_windows gsl W = Ok built ->
  (forall item, item ∈ d -> 0 < item.2) ->
  (forall scores u v,
     window_scores ud W built corpus_sentences intervals_of fact_id d = Ok scores ->
     scores !! u = Some v -> 0 < v) /\
  (forall scores u v,
     para_scores ud corpus corpus_sentences intervals_of fact_id d = Ok scores ->
     scores !! u = Some v -> 0 < v).
Proof.
  intros Hbuilt Hpos. split; intros scores u v Hrun Hu.
  - eapply aggregate_positive; [|exact Hpos|exact Hrun|exact Hu].
    by eapply valid_window_ids_in_corpus.
  - eapply aggregate_positive; [|exact Hpos|exact Hrun|exact Hu].
    apply valid_para_ids_in_corpus.
Qed.

Lemma positive_judgments_give_positive_scores_witness :
  (forall item : Z * Z, item ∈ [(0, 2); (1, 4)] -> 0 < item.2) /\
  forall scores u v,
    para_scores ud_basic paris_paragraphs paris_sentences [[(0, 0)]] 0
      [(0, 2); (1, 4)] = Ok scores ->
    scores !! u = Some v -> 0 < v.
Proof.
  assert (Hpos : forall item : Z * Z, item ∈ [(0, 2); (1, 4)] -> 0 < item.2).
  { intros item Hitem.
    repeat (apply elem_of_cons in Hitem as [->|Hitem]);
      [simpl; lia | simpl; lia | by apply elem_of_nil in Hitem]. }
  split; [exact Hpos|].
  apply (proj2 (positive_judgments_give_positive_scores ud_basic 1 []
                  (Windows.Windows_ ∅ ∅) paris_paragraphs paris_sentences
                  [[(0, 0)]] 0 [(0, 2); (1, 4)] eq_refl Hpos)).
Defined.

(** X7: a fact of the qrels that has no interval list (its id is not a key
    of the interval dict) or an empty one gets the empty score dict,
    whatever its judgments and without an error, for the windows and for
    the paragraphs. *)
Theorem fact_without_intervals_gets_no_score ud W (built : Windows.windows)
    (corpus corpus_sentences : gmap Z text)
    (intervals_of : list (list interval)) (fact_id : nat) (d : list (Z * Z)) :
  default [] (intervals_of !! fact_id) = [] ->
  window_scores ud W built corpus_sentences intervals_of fact_id d = Ok ∅ /\
  para_scores ud corpus corpus_sentences intervals_of fact_id d = Ok ∅.
Proof.
  intros Hnone. unfold window_scores, para_scores. rewrite Hnone. cbv zeta.
  rewrite valid_window_ids_nil. split; [apply aggregate_no_candidate|].
  change (Paras.valid_para_ids corpus []) with (∅ : gset Z).
  apply aggregate_no_candidate.
Qed.

Lemma fact_without_intervals_gets_no_score_witness :
  window_scores ud_basic 2 (Windows.Windows_ ∅ ∅) paris_sentences [[(0, 0)]] 7
    [(0, 2); (1, 4)] = Ok ∅ /\
  para_scores ud_basic paris_paragraphs paris_sentences [[(0, 0)]] 7
    [(0, 2); (1, 4)] = Ok ∅.
Proof.
  apply (fact_without_intervals_gets_no_score ud_basic 2 (Windows.Windows_ ∅ ∅)
           paris_paragraphs paris_sentences [[(0, 0)]] 7 [(0, 2); (1, 4)]).
  reflexivity.
Defined.

(** * Further properties of the first pass of [sents.py] and [paras.py] *)

(** The inner loop writes the kept units at the ids that follow the
    counter and leaves the other ids alone. *)
Lemma foldl_add_unit_lookup (units : list text) : forall (m : gmap Z text) (c k : Z),
  (foldl Pass1.add_unit (m, c) units).1 !! k
  = if bool_decide
         (c <= k < c + Z.of_nat (length (filter (fun unit => unit ≠ []) units)))
    then filter (fun unit => unit ≠ []) units !! Z.to_nat (k - c)
    else m !! k.
Proof.
  induction units as [|u units IH]; intros m c k; cbn [foldl].
  - rewrite filter_nil. cbn [length]. by rewrite bool_decide_eq_false_2 by lia.
  - unfold Pass1.add_unit at 2. cbn [fst snd]. rewrite filter_cons.
    case_bool_decide as Hu; case_decide; try done.
    rewrite IH. cbn [length].
    destruct (decide (k = c)) as [->|Hne].
    + rewrite bool_decide_eq_false_2 by lia.
      rewrite bool_decide_eq_true_2 by lia.
      rewrite lookup_insert_eq. by replace (c - c) with 0 by lia.
    + rewrite lookup_insert_ne by done.
      destruct (decide (c + 1 <= k
                        < c + 1 + Z.of_nat (length (filter (fun unit => unit ≠ [])
                                                      units)))) as [Hk|Hk].
      * rewrite !bool_decide_eq_true_2 by lia.
        replace (Z.to_nat (k - c)) with (S (Z.to_nat (k - (c + 1)))) by lia.
        done.
      * rewrite !bool_decide_eq_false_2 by lia. done.
Qed.

Section Pass1Consistency.
Variable ud : unicodedata.
Variable units_of : text -> list text.

Lemma pass1_consistent_seen seen seen' st :
  (forall l, l ∈ seen -> l ∈ seen') ->
  pass1_consistent ud units_of seen st -> pass1_consistent ud units_of seen' st.
Proof.
  intros Hsub (Hc & Hdom & Hne & Hcache & Hdis).
  split; [done|]. split; [done|]. split; [done|]. split; [|done].
  intros u iv Hu. destruct (Hcache u iv Hu) as (H1 & H2 & l & raw & Hl & Hrest).
  split; [done|]. split; [done|]. exists l, raw. split; [by apply Hsub | done].
Qed.

Lemma process_link_consistent seen st acc l st' acc' :
  pass1_consistent ud units_of seen st ->
  Pass1.process_link ud units_of (st, acc) l = Ok (st', acc') ->
  pass1_consistent ud units_of (seen ++ [l]) st'.
Proof.
  intros Hinv Hstep.
  assert (Hweak : pass1_consistent ud units_of (seen ++ [l]) st).
  { eapply pass1_consistent_seen; [|exact Hinv].
    intros x Hx. apply elem_of_app. by left. }
  destruct (decide (link l ∈ fact_links acc)) as [Hin|Hin].
  { rewrite process_link_duplicate in Hstep by done. by injection Hstep as <- <-. }
  destruct (Pass1.processed_links st !! link l) as [cached|] eqn:Hc.
  { rewrite (process_link_cached _ _ _ _ _ cached) in Hstep by done.
    by injection Hstep as <- <-. }
  destruct (link_data l) as [raw|] eqn:Hd;
    [|by rewrite process_link_no_data in Hstep].
  clear Hweak. unfold Pass1.process_link in Hstep.
  rewrite bool_decide_eq_false_2, Hc, Hd in Hstep by done.
  injection Hstep as <- <-.
  destruct Hinv as (Hcnt & Hdom & Hne & Hcache & Hdis).
  pose proof (foldl_add_unit_counter (units_of (preprocess_text ud raw))
                (Pass1.corpus st) (Pass1.doc_counter st)) as Hcounter.
  pose proof (foldl_add_unit_lookup (units_of (preprocess_text ud raw))
                (Pass1.corpus st) (Pass1.doc_counter st)) as Hlookup.
  fold (kept_units ud units_of raw) in Hcounter, Hlookup.
  set (built := foldl Pass1.add_unit (Pass1.corpus st, Pass1.doc_counter st)
                  (units_of (preprocess_text ud raw))) in *.
  set (c := Pass1.doc_counter st) in *.
  set (n := Z.of_nat (length (kept_units ud units_of raw))) in *.
  unfold pass1_consistent. cbn [Pass1.corpus Pass1.doc_counter Pass1.processed_links].
  rewrite Hcounter.
  split; [lia|]. split; [|split; [|split]].
  - intros k. rewrite Hlookup. case_bool_decide as Hk.
    + split; [lia|]. intros _. apply lookup_lt_is_Some. lia.
    + rewrite Hdom. lia.
  - intros k t. rewrite Hlookup. case_bool_decide as Hk; [|apply Hne].
    intros Ht. apply list_elem_of_lookup_2 in Ht.
    unfold kept_units in Ht. by apply list_elem_of_filter in Ht as [Ht _].
  - intros u iv Hu. destruct (decide (link l = u)) as [<-|Hneq].
    + rewrite lookup_insert_eq in Hu. injection Hu as <-. cbn [fst snd].
      split; [lia|]. split; [lia|]. exists l, raw.
      split; [apply elem_of_app; right; by left|].
      split; [done|]. split; [done|]. split; [done|].
      intros j t Hj. rewrite Hlookup.
      pose proof (lookup_lt_Some _ _ _ Hj) as Hlt.
      rewrite bool_decide_eq_true_2 by lia.
      by replace (Z.to_nat (c + Z.of_nat j - c)) with j by lia.
    + rewrite lookup_insert_ne in Hu by done.
      destruct (Hcache u iv Hu) as (H1 & H2 & l0 & raw0 & Hl0 & Hu0 & Hd0 & Hend & Hunits).
      split; [done|]. split; [lia|]. exists l0, raw0.
      split; [apply elem_of_app; by left|].
      split; [done|]. split; [done|]. split; [done|].
      intros j t Hj. rewrite Hlookup.
      pose proof (lookup_lt_Some _ _ _ Hj) as Hlt.
      rewrite bool_decide_eq_false_2 by lia. by apply Hunits.
  - intros u1 u2 iv1 iv2 Hneq Hu1 Hu2.
    destruct (decide (link l = u1)) as [<-|Hn1];
      destruct (decide (link l = u2)) as [<-|Hn2]; try done.
    + rewrite lookup_insert_eq in Hu1. rewrite lookup_insert_ne in Hu2 by done.
      injection Hu1 as <-. destruct (Hcache _ _ Hu2) as (_ & H2 & _).
      right. cbn [fst]. lia.
    + rewrite lookup_insert_eq in Hu2. rewrite lookup_insert_ne in Hu1 by done.
      injection Hu2 as <-. destruct (Hcache _ _ Hu1) as (_ & H1 & _).
      left. cbn [fst]. lia.
    + rewrite lookup_insert_ne in Hu1, Hu2 by done.
      exact (Hdis u1 u2 iv1 iv2 Hneq Hu1 Hu2).
Qed.

Lemma process_links_consistent l1 : forall seen st acc st' acc',
  pass1_consistent ud units_of seen st ->
  for_each (Pass1.process_link ud units_of) (st, acc) l1 = Ok (st', acc') ->
  pass1_consistent ud units_of (seen ++ l1) st'.
Proof.
  induction l1 as [|a l1 IH]; intros seen st acc st' acc' Hinv Hrun;
    cbn [for_each] in Hrun.
  - injection Hrun as <- <-. by rewrite app_nil_r.
  - apply result_bind_inv in Hrun as ([st2 acc2] & Hstep & Hrun).
    rewrite (cons_middle a seen l1), (assoc_L (++)).
    eapply IH; [|exact Hrun]. by eapply process_link_consistent.
Qed.

Lemma process_facts_consistent data : forall seen st qi st' qi',
  pass1_consistent ud units_of seen st ->
  for_each (Pass1.process_fact ud units_of) (st, qi) data = Ok (st', qi') ->
  pass1_consistent ud units_of (seen ++ concat (links <$> data)) st'.
Proof.
  induction data as [|item data IH]; intros seen st qi st' qi' Hinv Hrun;
    cbn [for_each] in Hrun.
  - injection Hrun as <- <-. by rewrite app_nil_r.
  - apply result_bind_inv in Hrun as ([st1 qi1] & Hfact & Hrun).
    unfold Pass1.process_fact in Hfact. cbn [fst snd] in Hfact.
    apply result_bind_inv in Hfact as ([st1' acc] & Hlinks & Hret).
    injection Hret as <- <-.
    rewrite fmap_cons. cbn [concat]. rewrite (assoc_L (++)).
    eapply IH; [|exact Hrun]. by eapply process_links_consistent.
Qed.

Lemma run_consistent data st qi :
  Pass1.run ud units_of data = Ok (st, qi) ->
  pass1_consistent ud units_of (concat (links <$> data)) st.
Proof.
  intros Hrun.
  apply (process_facts_consistent data [] Pass1.init [] st qi); [|done].
  unfold pass1_consistent. cbn.
  split; [done|]. split; [|split; [|split]].
  - intros k. rewrite lookup_empty. split; [by intros [] | lia].
  - intros k t Hk. by rewrite lookup_empty in Hk.
  - intros u iv Hu. by rewrite lookup_empty in Hu.
  - intros u1 u2 iv1 iv2 _ Hu1. by rewrite lookup_empty in Hu1.
Qed.
End Pass1Consistency.

Lemma elem_of_concat_links (data : list fact) (l : link_item) :
  l ∈ concat (links <$> data) -> exists item, item ∈ data /\ l ∈ links item.
Proof.
  induction data as [|item data IH]; cbn [fmap list_fmap concat].
  - by intros ?%elem_of_nil.
  - intros [Hl|Hl]%elem_of_app.
    + exists item. split; [left|done].
    + destruct (IH Hl) as (item' & ? & ?). exists item'. split; [by right|done].
Qed.

(** X8: after a run of the first pass of [sents.py] or [paras.py] that
    ends without an error, the ids of the corpus are exactly
    [0 .. doc_counter - 1] and no unit of the corpus is empty. *)
Theorem corpus_ids_are_consecutive ud units_of (data : list fact) st qi :
  Pass1.run ud units_of data = Ok (st, qi) ->
  0 <= Pass1.doc_counter st /\
  (forall k, is_Some (Pass1.corpus st !! k) <-> 0 <= k < Pass1.doc_counter st) /\
  (forall k t, Pass1.corpus st !! k = Some t -> t <> []).
Proof.
  intros Hrun.
  destruct (run_consistent ud units_of data st qi Hrun) as (H1 & H2 & H3 & _).
  done.
Qed.

Lemma corpus_ids_are_consecutive_witness :
  exists st qi,
    Sents.run ud_basic sentenize_one demo_data = Ok (st, qi) /\
    0 <= Pass1.doc_counter st /\
    (forall k, is_Some (Pass1.corpus st !! k) <-> 0 <= k < Pass1.doc_counter st) /\
    (forall k t, Pass1.corpus st !! k = Some t -> t <> []).
Proof.
  destruct (Sents.run ud_basic sentenize_one demo_data) as [[st qi]|e] eqn:Hrun;
    [|by vm_compute in Hrun].
  exists st, qi. split; [done|].
  exact (corpus_ids_are_consecutive ud_basic sentenize_one demo_data st qi Hrun).
Defined.

(** X9: after such a run every cached interval lies in
    [0 .. doc_counter - 1] (as far as it is not empty), and the intervals
    cached for two different URLs have no unit in common. *)
Theorem source_intervals_do_not_meet ud units_of (data : list fact) st qi :
  Pass1.run ud units_of data = Ok (st, qi) ->
  (forall u iv, Pass1.processed_links st !! u = Some iv ->
     0 <= iv.1 /\ iv.2 < Pass1.doc_counter st) /\
  (forall u1 u2 iv1 iv2 k,
     u1 <> u2 ->
     Pass1.processed_links st !! u1 = Some iv1 ->
     Pass1.processed_links st !! u2 = Some iv2 ->
     ~ (in_interval k iv1 /\ in_interval k iv2)).
Proof.
  intros Hrun.
  destruct (run_consistent ud units_of data st qi Hrun)
    as (_ & _ & _ & Hcache & Hdis).
  split.
  - intros u iv Hu. destruct (Hcache u iv Hu) as (H1 & H2 & _). done.
  - intros u1 u2 iv1 iv2 k Hne Hu1 Hu2 [Hk1 Hk2].
    unfold in_interval in Hk1, Hk2.
    destruct (Hdis u1 u2 iv1 iv2 Hne Hu1 Hu2); lia.
Qed.

Lemma source_intervals_do_not_meet_witness :
  exists st qi,
    Sents.run ud_basic sentenize_one demo_data = Ok (st, qi) /\
    (forall u iv, Pass1.processed_links st !! u = Some iv ->
       0 <= iv.1 /\ iv.2 < Pass1.doc_counter st) /\
    (forall u1 u2 iv1 iv2 k,
       u1 <> u2 ->
       Pass1.processed_links st !! u1 = Some iv1 ->
       Pass1.processed_links st !! u2 = Some iv2 ->
       ~ (in_interval k iv1 /\ in_interval k iv2)).
Proof.
  destruct (Sents.run ud_basic sentenize_one demo_data) as [[st qi]|e] eqn:Hrun;
    [|by vm_compute in Hrun].
  exists st, qi. split; [done|].
  exact (source_intervals_do_not_meet ud_basic sentenize_one demo_data st qi Hrun).
Defined.

(** X10: after such a run, the interval cached for a URL covers exactly
    the units built from the text of a link of the data that has this URL:
    the non-empty units of the normalized text, in order, stand in the
    corpus at the ids [start], [start + 1], ... up to [end]. *)
Theorem interval_covers_units_of_its_source ud units_of (data : list fact) st qi :
  Pass1.run ud units_of data = Ok (st, qi) ->
  forall u iv,
    Pass1.processed_links st !! u = Some iv ->
    exists item l raw,
      item ∈ data /\ l ∈ links item /\ link l = u /\ link_data l = Some raw /\
      iv.2 = iv.1 + Z.of_nat (length (kept_units ud units_of raw)) - 1 /\
      forall (j : nat) t,
        kept_units ud units_of raw !! j = Some t ->
        Pass1.corpus st !! (iv.1 + Z.of_nat j) = Some t.
Proof.
  intros Hrun u iv Hu.
  destruct (run_consistent ud units_of data st qi Hrun)
    as (_ & _ & _ & Hcache & _).
  destruct (Hcache u iv Hu) as (_ & _ & l & raw & Hl & Hlu & Hd & Hend & Hunits).
  apply elem_of_concat_links in Hl as (item & Hitem & Hl).
  by exists item, l, raw.
Qed.

Lemma interval_covers_units_of_its_source_witness :
  exists st qi,
    Sents.run ud_basic sentenize_one demo_data = Ok (st, qi) /\
    forall u iv,
      Pass1.processed_links st !! u = Some iv ->
      exists item l raw,
        item ∈ demo_data /\ l ∈ links item /\ link l = u /\
        link_data l = Some raw /\
        iv.2 = iv.1 + Z.of_nat (length (kept_units ud_basic sentenize_one raw)) - 1 /\
        forall (j : nat) t,
          kept_units ud_basic sentenize_one raw !! j = Some t ->
          Pass1.corpus st !! (iv.1 + Z.of_nat j) = Some t.
Proof.
  destruct (Sents.run ud_basic sentenize_one demo_data) as [[st qi]|e] eqn:Hrun;
    [|by vm_compute in Hrun].
  exists st, qi. split; [done|].
  exact (interval_covers_units_of_its_source ud_basic sentenize_one demo_data
           st qi Hrun).
Defined.

(** * Further properties of the window assembly and the candidates *)

(** X1: the loop that builds the windows ends with an [IndexError]
    exactly when [window_size] is below 1; for every window size of at
    least 1 it ends without an error, whatever the sentence list. *)
Theorem build_windows_raises_iff_size_below_one (gsl : list (Z * text * Z)) W :
  Windows.build_windows gsl W = Raise IndexError <-> W <= 0.
Proof.
  split.
  - intros Hraise. destruct (Z.le_gt_cases W 0) as [|HW]; [done|].
    destruct (build_windows_ok gsl W) as (ws & Hws & _); [lia|].
    rewrite Hws in Hraise. discriminate.
  - apply build_windows_raises_below_one.
Qed.

Lemma window_candidate ud sentenize (data : list fact)
    W built (i : nat) ivs s e w :
  let sq := Windows.run ud sentenize data in
  let T := Windows.total_sentences (Windows.global_sentences_list sq.1) in
  1 <= W ->
  Windows.build_windows (Windows.global_sentences_list sq.1) W = Ok built ->
  sq.2 !! i = Some ivs ->
  (s, e) ∈ ivs ->
  0 <= w <= T - W ->
  w <= e ->
  s <= w + W - 1 ->
  exists ivs',
    Windows.extended_query_interval T W (Windows.query_interval_window T W sq.2) !! i
      = Some ivs' /\
    w ∈ Windows.valid_window_ids W (Windows.window_to_sentence_index built) ivs'.
Proof.
  intros sq T HW Hbuilt Hi Hiv Hw Hwe Hsw.
  assert (Hse : s <= e).
  { destruct (windows_process_facts_effect ud sentenize data Windows.init [])
      as [_ Hgood].
    destruct (Hgood (fun iv : interval => iv.1 <= iv.2)) as [_ Hall].
    - intros c n Hn. simpl. lia.
    - intros u iv Hu. simpl in Hu. by rewrite lookup_empty in Hu.
    - apply Forall_nil_2.
    - rewrite Forall_forall in Hall.
      assert (Hivs : ivs ∈ sq.2) by (by eapply list_elem_of_lookup_2).
      specialize (Hall ivs Hivs). rewrite Forall_forall in Hall.
      exact (Hall (s, e) Hiv). }
  apply list_elem_of_lookup in Hiv as [k Hk].
  destruct (query_interval_window_lookup T W sq.2 i ivs k (s, e) Hi Hk)
    as (ivs1 & Hi1 & Hk1).
  destruct (extended_query_interval_lookup T W _ i ivs1 k _ Hi1 Hk1)
    as (ivs' & Hi' & Hk').
  exists ivs'. split; [done|].
  destruct (build_windows_ok (Windows.global_sentences_list sq.1) W HW)
    as (ws & Hws & _ & Hdw & Hstart).
  rewrite Hbuilt in Hws. injection Hws as <-.
  assert (Hin : w ∈ dom (Windows.window_to_sentence_index built)).
  { rewrite Hdw. apply elem_of_list_to_set, elem_of_seqZ.
    unfold Windows.total_windows. fold T. lia. }
  apply elem_of_dom in Hin as [start Hstart_w].
  destruct (Hstart w start Hstart_w) as (Hw0 & entry & Hentry & Hes).
  destruct (run_indexed ud sentenize data) as [_ Hidx]. simpl in Hidx.
  destruct (Hidx _ _ Hentry) as [_ Heq].
  rewrite Z2Nat.id in Heq by done.
  apply valid_window_ids_spec. exists start. split; [done|].
  apply Exists_exists. eexists. split; [by eapply list_elem_of_lookup_2|].
  assert (Hov := overlapping_window_passes_test T W
                   (Z.of_nat (length (Windows.query_interval_window T W sq.2)))
                   (Z.of_nat i) s e w HW Hse Hw Hwe ltac:(lia)).
  unfold Windows.overlaps in Hov. apply andb_true_iff in Hov as [H1 H2].
  rewrite <- Hes, Heq. lia.
Qed.

(** X2: no window that holds a sentence of a source of a fact is lost.
    Let [(s, e)] be one of the sentence intervals that the first pass of
    [windows.py] stored for the fact of rank [i], and let the window [w]
    hold one of the sentences [s .. e].  Then, after the conversion to
    window intervals and the cross-query extension, [w] is among the
    [valid_window_ids] of the fact. *)
Theorem window_of_source_sentence_is_candidate ud sentenize (data : list fact)
    W built (i : nat) ivs s e w :
  let sq := Windows.run ud sentenize data in
  let T := Windows.total_sentences (Windows.global_sentences_list sq.1) in
  1 <= W ->
  Windows.build_windows (Windows.global_sentences_list sq.1) W = Ok built ->
  sq.2 !! i = Some ivs ->
  (s, e) ∈ ivs ->
  0 <= w <= T - W ->
  w <= e ->
  s <= w + W - 1 ->
  exists ivs',
    Windows.extended_query_interval T W (Windows.query_interval_window T W sq.2) !! i
      = Some ivs' /\
    w ∈ Windows.valid_window_ids W (Windows.window_to_sentence_index built) ivs'.
Proof. apply window_candidate. Qed.

Lemma window_of_source_sentence_is_candidate_witness :
  exists ivs',
    Windows.extended_query_interval 5 2
      (Windows.query_interval_window 5 2
         (Windows.run ud_basic sentenize_one demo_data).2) !! 1%nat
      = Some ivs' /\
    1 ∈ Windows.valid_window_ids 2
          (Windows.window_to_sentence_index
             (Windows.Windows_
                {[ 0 := py "A. B."; 1 := py "B. C."; 2 := py "C. D.";
                   3 := py "D. E." ]}
                {[ 0 := 0; 1 := 1; 2 := 2; 3 := 3 ]})) ivs'.
Proof.
  apply (window_of_source_sentence_is_candidate ud_basic sentenize_one demo_data
           2 _ 1 [(2, 2); (3, 3)] 2 2 1).
  - lia.
  - by vm_compute.
  - by vm_compute.
  - by left.
  - vm_compute. split; discriminate.
  - lia.
  - lia.
Defined.

(** ** The loop over the links, whatever a new source becomes

    The loops of [sents.py], [paras.py] and [articles.py] take the same
    four branches; what follows holds for every body that takes them. *)

Section LinkLoop.
Context {S : Type}.
Variable cache : S -> gmap (option string) interval.
Variable step : S * fact_acc -> link_item -> result (S * fact_acc).

Hypothesis step_duplicate : forall st acc l,
  link l ∈ fact_links acc -> step (st, acc) l = Ok (st, acc).
Hypothesis step_cached : forall st acc l cached,
  link l ∉ fact_links acc ->
  cache st !! link l = Some cached ->
  step (st, acc) l
  = Ok (st, FactAcc (fact_links acc ∪ {[link l]})
              (intervals_for_fact acc ++ [cached])).
Hypothesis step_no_data : forall st acc l,
  link l ∉ fact_links acc ->
  cache st !! link l = None ->
  link_data l = None ->
  step (st, acc) l = Raise TypeError.
Hypothesis step_fresh : forall st acc l raw,
  link l ∉ fact_links acc ->
  cache st !! link l = None ->
  link_data l = Some raw ->
  exists st' iv,
    step (st, acc) l
    = Ok (st', FactAcc (fact_links acc ∪ {[link l]})
                 (intervals_for_fact acc ++ [iv])) /\
    cache st' = <[link l := iv]> (cache st).

Lemma step_keeps st acc l st' acc' u iv :
  step (st, acc) l = Ok (st', acc') ->
  cache st !! u = Some iv -> cache st' !! u = Some iv.
Proof.
  intros Hstep Hu.
  destruct (decide (link l ∈ fact_links acc)) as [Hin|Hin].
  { rewrite step_duplicate in Hstep by done. by injection Hstep as <- <-. }
  destruct (cache st !! link l) as [cached|] eqn:Hc.
  { rewrite (step_cached _ _ _ cached) in Hstep by done.
    by injection Hstep as <- <-. }
  destruct (link_data l) as [raw|] eqn:Hd;
    [|by rewrite step_no_data in Hstep].
  destruct (step_fresh st acc l raw Hin Hc Hd) as (st2 & iv2 & Heq & Hcache).
  rewrite Heq in Hstep. injection Hstep as <- <-. rewrite Hcache.
  rewrite lookup_insert_ne; [done|]. intros <-. congruence.
Qed.

Lemma steps_keep l1 : forall st1 acc1 st acc u iv,
  for_each step (st1, acc1) l1 = Ok (st, acc) ->
  cache st1 !! u = Some iv -> cache st !! u = Some iv.
Proof.
  induction l1 as [|a l1 IH]; intros st1 acc1 st acc u iv Hrun Hu;
    cbn [for_each] in Hrun.
  - by injection Hrun as <- <-.
  - apply result_bind_inv in Hrun as ([st2 acc2] & Hstep & Hrun).
    eapply IH; [exact Hrun|]. by eapply step_keeps.
Qed.

Lemma facts_keep data : forall st0 qi0 st qi u iv,
  for_each (process_fact_with step) (st0, qi0) data = Ok (st, qi) ->
  cache st0 !! u = Some iv -> cache st !! u = Some iv.
Proof.
  induction data as [|item data IH]; intros st0 qi0 st qi u iv Hrun Hu;
    cbn [for_each] in Hrun.
  - by injection Hrun as <- <-.
  - apply result_bind_inv in Hrun as ([st1 qi1] & Hfact & Hrun).
    unfold process_fact_with in Hfact. cbn [fst snd] in Hfact.
    apply result_bind_inv in Hfact as ([st1' acc] & Hlinks & Hret).
    injection Hret as <- <-. cbn [fst snd] in *.
    eapply IH; [exact Hrun|]. by eapply steps_keep.
Qed.

(** *** The interval list of a fact *)

Lemma step_listed seen st acc l st' acc' :
  (forall u, u ∈ fact_links acc <-> u ∈ seen) ->
  listed_by (cache st) seen (intervals_for_fact acc) ->
  step (st, acc) l = Ok (st', acc') ->
  (forall u, u ∈ fact_links acc' <-> u ∈ seen ++ [link l]) /\
  listed_by (cache st') (seen ++ [link l]) (intervals_for_fact acc').
Proof.
  intros Hfl (us & Hnd & Hsub & Hall & Hivs) Hstep.
  assert (Hus : forall u, u ∈ us -> u ∈ seen).
  { intros u Hu. exact (elem_of_sublist _ _ _ Hu Hsub). }
  destruct (decide (link l ∈ fact_links acc)) as [Hin|Hin].
  { rewrite step_duplicate in Hstep by done. injection Hstep as <- <-.
    split.
    - intros u. rewrite elem_of_app, list_elem_of_singleton, Hfl.
      split; [by left|]. intros [Hu| ->]; [done | by apply Hfl].
    - exists us. split; [done|]. split; [by apply sublist_inserts_r|].
      split; [|done]. intros u [Hu| ->%list_elem_of_singleton]%elem_of_app;
        apply Hall; [done | by apply Hfl]. }
  assert (Hfresh : link l ∉ us) by (intros Hu; by apply Hin, Hfl, Hus).
  assert (Hnd' : NoDup (us ++ [link l])).
  { apply NoDup_app. split; [done|]. split; [|apply NoDup_singleton].
    intros u Hu ->%list_elem_of_singleton. done. }
  assert (Hsub' : sublist (us ++ [link l]) (seen ++ [link l])).
  { by apply sublist_app. }
  assert (Hall' : forall u, u ∈ seen ++ [link l] -> u ∈ us ++ [link l]).
  { intros u [Hu|Hu]%elem_of_app; apply elem_of_app; [left; by apply Hall | by right]. }
  assert (Hfl' : forall u, u ∈ fact_links acc ∪ {[link l]} <-> u ∈ seen ++ [link l]).
  { intros u. rewrite elem_of_union, elem_of_singleton, elem_of_app,
      list_elem_of_singleton, Hfl. done. }
  destruct (cache st !! link l) as [cached|] eqn:Hc.
  { rewrite (step_cached _ _ _ cached) in Hstep by done.
    injection Hstep as <- <-. cbn [fact_links intervals_for_fact].
    split; [done|]. exists (us ++ [link l]).
    split; [done|]. split; [done|]. split; [done|].
    apply Forall2_app; [done|]. by apply Forall2_cons. }
  destruct (link_data l) as [raw|] eqn:Hd;
    [|by rewrite step_no_data in Hstep].
  destruct (step_fresh st acc l raw Hin Hc Hd) as (st2 & iv2 & Heq & Hcache).
  rewrite Heq in Hstep. injection Hstep as <- <-.
  cbn [fact_links intervals_for_fact]. rewrite Hcache.
  split; [done|]. exists (us ++ [link l]).
  split; [done|]. split; [done|]. split; [done|].
  apply Forall2_app.
  - eapply Forall2_impl; [exact Hivs|]. intros u iv Hu. cbv beta in *.
    rewrite lookup_insert_ne; [done|]. intros <-. congruence.
  - apply Forall2_cons. split; [apply lookup_insert_eq | done].
Qed.

Lemma steps_listed l1 : forall seen st1 acc1 st acc,
  (forall u, u ∈ fact_links acc1 <-> u ∈ seen) ->
  listed_by (cache st1) seen (intervals_for_fact acc1) ->
  for_each step (st1, acc1) l1 = Ok (st, acc) ->
  listed_by (cache st) (seen ++ (link <$> l1)) (intervals_for_fact acc).
Proof.
  induction l1 as [|a l1 IH]; intros seen st1 acc1 st acc Hfl Hl Hrun;
    cbn [for_each] in Hrun.
  - injection Hrun as <- <-. by rewrite fmap_nil, app_nil_r.
  - apply result_bind_inv in Hrun as ([st2 acc2] & Hstep & Hrun).
    destruct (step_listed _ _ _ _ _ _ Hfl Hl Hstep) as [Hfl2 Hl2].
    rewrite fmap_cons, cons_middle, app_assoc. by eapply IH.
Qed.

Lemma listed_by_later (c c' : gmap (option string) interval) urls ivs :
  (forall u iv, c !! u = Some iv -> c' !! u = Some iv) ->
  listed_by c urls ivs -> listed_by c' urls ivs.
Proof.
  intros Hkeep (us & Hnd & Hsub & Hall & Hivs). exists us.
  split; [done|]. split; [done|]. split; [done|].
  eapply Forall2_impl; [exact Hivs|]. intros u iv. apply Hkeep.
Qed.

Lemma listed_by_length (c : gmap (option string) interval) urls ivs :
  listed_by c urls ivs ->
  length ivs = size (list_to_set urls : gset (option string)).
Proof.
  intros (us & Hnd & Hsub & Hall & Hivs).
  rewrite <- (Forall2_length _ _ _ Hivs).
  rewrite <- (size_list_to_set (C := gset (option string)) us) by done.
  f_equal. apply set_eq. intros u. rewrite !elem_of_list_to_set. split.
  - intros Hu. exact (elem_of_sublist _ _ _ Hu Hsub).
  - apply Hall.
Qed.

Lemma facts_listed data : forall st0 qi0 st qi,
  for_each (process_fact_with step) (st0, qi0) data = Ok (st, qi) ->
  exists new,
    qi = qi0 ++ new /\
    Forall2 (fun item ivs => listed_by (cache st) (link <$> links item) ivs)
            data new.
Proof.
  induction data as [|item data IH]; intros st0 qi0 st qi Hrun;
    cbn [for_each] in Hrun.
  - injection Hrun as <- <-. exists []. by rewrite app_nil_r.
  - apply result_bind_inv in Hrun as ([st1 qi1] & Hfact & Hrun).
    unfold process_fact_with in Hfact. cbn [fst snd] in Hfact.
    apply result_bind_inv in Hfact as ([st1' acc] & Hlinks & Hret).
    injection Hret as <- <-. cbn [fst snd] in *.
    destruct (IH _ _ _ _ Hrun) as (new & -> & Hnew).
    exists (intervals_for_fact acc :: new).
    split; [by rewrite <- app_assoc|]. apply Forall2_cons. split; [|done].
    apply (listed_by_later (cache st1')).
    { intros u iv Hu. by eapply facts_keep. }
    apply (steps_listed (links item) [] st0 fact_acc_init st1' acc);
      [set_solver | | done].
    exists []. split; [apply NoDup_nil_2|]. split; [done|]. split; [done|].
    apply Forall2_nil_2.
Qed.

(** *** When the loop raises *)

Lemma step_readable (seen : gset (option string)) st acc l :
  dom (cache st) = seen ->
  fact_links acc ⊆ seen ->
  match step (st, acc) l with
  | Ok (st', acc') =>
      bool_decide (link l ∈ seen) || bool_decide (is_Some (link_data l)) = true /\
      dom (cache st') = seen ∪ {[link l]} /\
      fact_links acc' ⊆ seen ∪ {[link l]}
  | Raise e =>
      e = TypeError /\
      bool_decide (link l ∈ seen) || bool_decide (is_Some (link_data l)) = false
  end.
Proof.
  intros Hdom Hfl.
  destruct (decide (link l ∈ fact_links acc)) as [Hin|Hin].
  { rewrite step_duplicate by done.
    assert (link l ∈ seen) by set_solver.
    rewrite bool_decide_eq_true_2 by done. split; [done|].
    split; set_solver. }
  destruct (cache st !! link l) as [cached|] eqn:Hc.
  { rewrite (step_cached _ _ _ cached) by done.
    assert (link l ∈ seen).
    { rewrite <- Hdom. apply elem_of_dom. by eexists. }
    rewrite bool_decide_eq_true_2 by done. split; [done|].
    cbn [fact_links]. split; set_solver. }
  assert (Hnew : link l ∉ seen).
  { rewrite <- Hdom. by apply not_elem_of_dom. }
  destruct (link_data l) as [raw|] eqn:Hd.
  - destruct (step_fresh st acc l raw Hin Hc Hd) as (st2 & iv2 & -> & Hcache).
    rewrite (bool_decide_eq_true_2 (is_Some (Some raw))) by by eexists.
    split; [apply orb_true_r|]. rewrite Hcache, dom_insert_L, Hdom.
    cbn [fact_links]. split; set_solver.
  - rewrite step_no_data by done. split; [done|].
    rewrite bool_decide_eq_false_2 by done.
    rewrite bool_decide_eq_false_2; [done|]. by intros [? ?].
Qed.

Lemma steps_readable l1 : forall (seen : gset (option string)) st acc,
  dom (cache st) = seen ->
  fact_links acc ⊆ seen ->
  match for_each step (st, acc) l1 with
  | Ok (st', acc') =>
      sources_readable seen l1 = true /\
      dom (cache st') = seen ∪ list_to_set (link <$> l1) /\
      fact_links acc' ⊆ seen ∪ list_to_set (link <$> l1)
  | Raise e => e = TypeError /\ sources_readable seen l1 = false
  end.
Proof.
  induction l1 as [|a l1 IH]; intros seen st acc Hdom Hfl;
    cbn [for_each sources_readable].
  - split; [done|]. rewrite fmap_nil, list_to_set_nil. split; set_solver.
  - pose proof (step_readable seen st acc a Hdom Hfl) as Hstep.
    destruct (step (st, acc) a) as [[st2 acc2]|e].
    + destruct Hstep as (-> & Hdom2 & Hfl2). rewrite result_bind_ok.
      specialize (IH _ st2 acc2 Hdom2 Hfl2).
      destruct (for_each step (st2, acc2) l1) as [[st3 acc3]|e].
      * destruct IH as (-> & Hdom3 & Hfl3). split; [done|].
        rewrite fmap_cons, list_to_set_cons. split; set_solver.
      * destruct IH as (-> & ->). done.
    + destruct Hstep as (-> & ->). done.
Qed.

Lemma sources_readable_app l1 : forall (seen : gset (option string)) l2,
  sources_readable seen (l1 ++ l2)
  = sources_readable seen l1
    && sources_readable (seen ∪ list_to_set (link <$> l1)) l2.
Proof.
  induction l1 as [|a l1 IH]; intros seen l2; cbn [app sources_readable].
  - rewrite fmap_nil, list_to_set_nil. by rewrite (right_id_L ∅ (∪)).
  - rewrite IH, fmap_cons, list_to_set_cons.
    rewrite (assoc_L (∪) seen). by rewrite andb_assoc.
Qed.

Lemma facts_readable data : forall (seen : gset (option string)) st qi,
  dom (cache st) = seen ->
  match for_each (process_fact_with step) (st, qi) data with
  | Ok (st', _) =>
      sources_readable seen (concat (links <$> data)) = true /\
      dom (cache st') = seen ∪ list_to_set (link <$> concat (links <$> data))
  | Raise e =>
      e = TypeError /\ sources_readable seen (concat (links <$> data)) = false
  end.
Proof.
  induction data as [|item data IH]; intros seen st qi Hdom;
    cbn [for_each fmap list_fmap concat].
  - split; [done|]. cbn. set_solver.
  - change (list_fmap fact (list link_item) links data) with (links <$> data).
    rewrite sources_readable_app.
    assert (Hfact : process_fact_with step (st, qi) item
                    = (sa ← for_each step (st, fact_acc_init) (links item);
                       Ok (sa.1, qi ++ [intervals_for_fact sa.2])))
      by reflexivity.
    rewrite Hfact. clear Hfact.
    pose proof (steps_readable (links item) seen st fact_acc_init Hdom
                  ltac:(set_solver)) as Hlinks.
    destruct (for_each step (st, fact_acc_init) (links item)) as [[st2 acc2]|e].
    + destruct Hlinks as (-> & Hdom2 & _). rewrite !result_bind_ok. cbn [fst snd].
      specialize (IH _ st2 (qi ++ [intervals_for_fact acc2]) Hdom2).
      destruct (for_each (process_fact_with step) _ data) as [[st3 qi3]|e].
      * destruct IH as (-> & Hdom3). split; [done|].
        rewrite fmap_app, list_to_set_app_L, Hdom3. set_solver.
      * destruct IH as (-> & ->). done.
    + destruct Hlinks as (-> & ->). done.
Qed.
End LinkLoop.

Lemma process_link_fresh' ud units_of st acc l raw :
  link l ∉ fact_links acc ->
  Pass1.processed_links st !! link l = None ->
  link_data l = Some raw ->
  exists st' iv,
    Pass1.process_link ud units_of (st, acc) l
    = Ok (st', FactAcc (fact_links acc ∪ {[link l]})
                 (intervals_for_fact acc ++ [iv])) /\
    Pass1.processed_links st' = <[link l := iv]> (Pass1.processed_links st).
Proof.
  intros Hin Hc Hd.
  destruct (process_link_fresh ud units_of st acc l raw Hin Hc Hd) as [corpus' Heq].
  eexists _, _. split; [exact Heq | done].
Qed.

(** X11: the first pass of [sents.py] and [paras.py] stores one interval
    list per fact, in the order of the facts; the list of a fact holds, for
    every URL among the links of the fact, once and in the order of the
    links, the interval that [processed_links] has for the URL at the end of
    the run.  So a fact has as many intervals as it has different URLs. *)
Theorem fact_intervals_follow_its_urls ud units_of (data : list fact) st qi :
  Pass1.run ud units_of data = Ok (st, qi) ->
  Forall2 (fun item ivs =>
             listed_by (Pass1.processed_links st) (link <$> links item) ivs /\
             length ivs = size (list_to_set (link <$> links item)
                                  : gset (option string)))
          data qi.
Proof.
  intros Hrun.
  destruct (facts_listed Pass1.processed_links (Pass1.process_link ud units_of)
              (process_link_duplicate ud units_of)
              (process_link_cached ud units_of)
              (process_link_no_data ud units_of)
              (process_link_fresh' ud units_of) data _ _ _ _ Hrun)
    as (new & -> & Hnew).
  rewrite app_nil_l. eapply Forall2_impl; [exact Hnew|].
  intros item ivs Hl. cbv beta in *. split; [done|].
  by eapply listed_by_length.
Qed.

Lemma fact_intervals_follow_its_urls_witness :
  exists st qi,
    Sents.run ud_basic sentenize_one demo_data = Ok (st, qi) /\
    Forall2 (fun item ivs =>
               listed_by (Pass1.processed_links st) (link <$> links item) ivs /\
               length ivs = size (list_to_set (link <$> links item)
                                    : gset (option string)))
            demo_data qi.
Proof.
  destruct (Sents.run ud_basic sentenize_one demo_data) as [[st qi]|e] eqn:Hrun;
    [|by vm_compute in Hrun].
  exists st, qi. split; [done|].
  exact (fact_intervals_follow_its_urls ud_basic sentenize_one demo_data st qi Hrun).
Defined.


(** X12: the first pass of [sents.py] and [paras.py] ends without an
    error exactly when every link whose URL occurs for the first time in the
    data (read fact by fact, link by link) has a ["link_data"]; the keys of
    [processed_links] are then the URLs of the data.  Otherwise it raises
    [TypeError]. *)
Theorem first_pass_raises_exactly_on_unreadable_source ud units_of
    (data : list fact) :
  (sources_readable ∅ (concat (links <$> data)) = true ->
   exists st qi,
     Pass1.run ud units_of data = Ok (st, qi) /\
     dom (Pass1.processed_links st)
     = list_to_set (link <$> concat (links <$> data))) /\
  (sources_readable ∅ (concat (links <$> data)) = false ->
   Pass1.run ud units_of data = Raise TypeError).
Proof.
  pose proof (facts_readable Pass1.processed_links (Pass1.process_link ud units_of)
                (process_link_duplicate ud units_of)
                (process_link_cached ud units_of)
                (process_link_no_data ud units_of)
                (process_link_fresh' ud units_of) data ∅ Pass1.init []
                (dom_empty_L (M := gmap (option string)))) as Hrun.
  change (for_each (process_fact_with (Pass1.process_link ud units_of))
            (Pass1.init, []) data)
    with (Pass1.run ud units_of data) in Hrun.
  destruct (Pass1.run ud units_of data) as [[st qi]|e].
  - destruct Hrun as [Hr Hdom]. split; [|congruence].
    intros _. exists st, qi. split; [done|]. rewrite Hdom. set_solver.
  - destruct Hrun as [-> Hr]. split; [congruence | done].
Qed.

Lemma first_pass_raises_exactly_on_unreadable_source_witness :
  (exists st qi,
     Sents.run ud_basic sentenize_one demo_data = Ok (st, qi) /\
     dom (Pass1.processed_links st)
     = list_to_set (link <$> concat (links <$> demo_data))) /\
  Sents.run ud_basic sentenize_one
    [Fact (py "q") [LinkItem (Some "u"%string) (Some (py "A."));
                    LinkItem (Some "u"%string) None;
                    LinkItem (Some "v"%string) None]]
  = Raise TypeError.
Proof.
  split.
  - apply (proj1 (first_pass_raises_exactly_on_unreadable_source
                    ud_basic sentenize_one demo_data)).
    by vm_compute.
  - apply (proj2 (first_pass_raises_exactly_on_unreadable_source
                    ud_basic sentenize_one _)).
    by vm_compute.
Defined.

(** * The first pass of [articles.py] *)

Section ArticlesFacts.
Variable ud : unicodedata.

Lemma articles_process_link_duplicate st acc l :
  link l ∈ fact_links acc -> Articles.process_link ud (st, acc) l = Ok (st, acc).
Proof. intros Hin. unfold Articles.process_link. by rewrite bool_decide_eq_true_2. Qed.

Lemma articles_process_link_cached st acc l cached :
  link l ∉ fact_links acc ->
  Articles.processed_links st !! link l = Some cached ->
  Articles.process_link ud (st, acc) l
  = Ok (st, FactAcc (fact_links acc ∪ {[link l]})
              (intervals_for_fact acc ++ [cached])).
Proof.
  intros Hin Hc. unfold Articles.process_link.
  by rewrite bool_decide_eq_false_2, Hc.
Qed.

Lemma articles_process_link_no_data st acc l :
  link l ∉ fact_links acc ->
  Articles.processed_links st !! link l = None ->
  link_data l = None ->
  Articles.process_link ud (st, acc) l = Raise TypeError.
Proof.
  intros Hin Hc Hd. unfold Articles.process_link.
  by rewrite bool_decide_eq_false_2, Hc, Hd.
Qed.

Lemma articles_process_link_new st acc l raw :
  link l ∉ fact_links acc ->
  Articles.processed_links st !! link l = None ->
  link_data l = Some raw ->
  let c := Articles.doc_counter st in
  Articles.process_link ud (st, acc) l
  = Ok (Articles.State (<[c := preprocess_text ud raw]> (Articles.corpus_articles st))
          (c + 1) (<[link l := (c, c)]> (Articles.processed_links st)),
        FactAcc (fact_links acc ∪ {[link l]}) (intervals_for_fact acc ++ [(c, c)])).
Proof.
  intros Hin Hc Hd c. unfold Articles.process_link.
  by rewrite bool_decide_eq_false_2, Hc, Hd.
Qed.

Lemma articles_process_link_fresh st acc l raw :
  link l ∉ fact_links acc ->
  Articles.processed_links st !! link l = None ->
  link_data l = Some raw ->
  exists st' iv,
    Articles.process_link ud (st, acc) l
    = Ok (st', FactAcc (fact_links acc ∪ {[link l]})
                 (intervals_for_fact acc ++ [iv])) /\
    Articles.processed_links st' = <[link l := iv]> (Articles.processed_links st).
Proof.
  intros Hin Hc Hd. eexists _, _.
  split; [by apply articles_process_link_new | done].
Qed.

Lemma articles_consistent_seen seen seen' st :
  (forall l, l ∈ seen -> l ∈ seen') ->
  articles_consistent ud seen st -> articles_consistent ud seen' st.
Proof.
  intros Hsub (Hc & Hdom & Hcache & Hinj & Hsize).
  split; [done|]. split; [done|]. split; [|done].
  intros u iv Hu. destruct (Hcache u iv Hu) as (H1 & H2 & l & raw & Hl & Hrest).
  split; [done|]. split; [done|]. exists l, raw. split; [by apply Hsub | done].
Qed.

Lemma articles_process_link_consistent seen st acc l st' acc' :
  articles_consistent ud seen st ->
  Articles.process_link ud (st, acc) l = Ok (st', acc') ->
  articles_consistent ud (seen ++ [l]) st'.
Proof.
  intros Hinv Hstep.
  assert (Hweak : articles_consistent ud (seen ++ [l]) st).
  { eapply articles_consistent_seen; [|exact Hinv].
    intros x Hx. apply elem_of_app. by left. }
  destruct (decide (link l ∈ fact_links acc)) as [Hin|Hin].
  { rewrite articles_process_link_duplicate in Hstep by done.
    by injection Hstep as <- <-. }
  destruct (Articles.processed_links st !! link l) as [cached|] eqn:Hc.
  { rewrite (articles_process_link_cached _ _ _ cached) in Hstep by done.
    by injection Hstep as <- <-. }
  destruct (link_data l) as [raw|] eqn:Hd;
    [|by rewrite articles_process_link_no_data in Hstep].
  clear Hweak. rewrite (articles_process_link_new _ _ _ raw) in Hstep by done.
  injection Hstep as <- <-.
  destruct Hinv as (Hcnt & Hdom & Hcache & Hinj & Hsize).
  set (c := Articles.doc_counter st) in *.
  unfold articles_consistent.
  cbn [Articles.corpus_articles Articles.doc_counter Articles.processed_links].
  split; [lia|]. split; [|split; [|split]].
  - intros k. destruct (decide (k = c)) as [->|Hk].
    + rewrite lookup_insert_eq. split; [lia | by eexists].
    + rewrite lookup_insert_ne by done. rewrite Hdom. lia.
  - intros u iv Hu. destruct (decide (link l = u)) as [<-|Hneq].
    + rewrite lookup_insert_eq in Hu. injection Hu as <-. cbn [fst snd].
      split; [done|]. split; [lia|]. exists l, raw.
      split; [apply elem_of_app; right; by left|].
      split; [done|]. split; [done|]. apply lookup_insert_eq.
    + rewrite lookup_insert_ne in Hu by done.
      destruct (Hcache u iv Hu) as (H1 & H2 & l' & raw' & Hl & Hlu & Hd' & Hart).
      split; [done|]. split; [lia|]. exists l', raw'.
      split; [apply elem_of_app; by left|].
      split; [done|]. split; [done|].
      rewrite lookup_insert_ne by lia. done.
  - intros u1 u2 iv1 iv2 Hu1 Hu2 Heq.
    destruct (decide (link l = u1)) as [<-|Hn1];
      destruct (decide (link l = u2)) as [<-|Hn2]; [done| | |].
    + rewrite lookup_insert_eq in Hu1. injection Hu1 as <-.
      rewrite lookup_insert_ne in Hu2 by done.
      destruct (Hcache u2 iv2 Hu2) as (_ & H2 & _). cbn [fst] in Heq. lia.
    + rewrite lookup_insert_eq in Hu2. injection Hu2 as <-.
      rewrite lookup_insert_ne in Hu1 by done.
      destruct (Hcache u1 iv1 Hu1) as (_ & H2 & _). cbn [fst] in Heq. lia.
    + rewrite lookup_insert_ne in Hu1, Hu2 by done.
      exact (Hinj u1 u2 iv1 iv2 Hu1 Hu2 Heq).
  - rewrite map_size_insert_None by done. lia.
Qed.

Lemma articles_process_links_consistent l1 : forall seen st acc st' acc',
  articles_consistent ud seen st ->
  for_each (Articles.process_link ud) (st, acc) l1 = Ok (st', acc') ->
  articles_consistent ud (seen ++ l1) st'.
Proof.
  induction l1 as [|a l1 IH]; intros seen st acc st' acc' Hinv Hrun;
    cbn [for_each] in Hrun.
  - injection Hrun as <- <-. by rewrite app_nil_r.
  - apply result_bind_inv in Hrun as ([st2 acc2] & Hstep & Hrun).
    rewrite (cons_middle a seen l1), (assoc_L (++)).
    eapply IH; [|exact Hrun]. by eapply articles_process_link_consistent.
Qed.

Lemma articles_process_facts_consistent data : forall seen st qi st' qi',
  articles_consistent ud seen st ->
  for_each (Articles.process_fact ud) (st, qi) data = Ok (st', qi') ->
  articles_consistent ud (seen ++ concat (links <$> data)) st'.
Proof.
  induction data as [|item data IH]; intros seen st qi st' qi' Hinv Hrun;
    cbn [for_each] in Hrun.
  - injection Hrun as <- <-. by rewrite app_nil_r.
  - apply result_bind_inv in Hrun as ([st1 qi1] & Hfact & Hrun).
    unfold Articles.process_fact in Hfact. cbn [fst snd] in Hfact.
    apply result_bind_inv in Hfact as ([st1' acc] & Hlinks & Hret).
    injection Hret as <- <-.
    rewrite fmap_cons. cbn [concat]. rewrite (assoc_L (++)).
    eapply IH; [|exact Hrun]. by eapply articles_process_links_consistent.
Qed.

Lemma articles_run_consistent data st qi :
  Articles.run ud data = Ok (st, qi) ->
  articles_consistent ud (concat (links <$> data)) st.
Proof.
  intros Hrun.
  apply (articles_process_facts_consistent data [] Articles.init [] st qi); [|done].
  unfold articles_consistent. cbn.
  split; [done|]. split; [|split; [|split]].
  - intros k. rewrite lookup_empty. split; [by intros [] | lia].
  - intros u iv Hu. by rewrite lookup_empty in Hu.
  - intros u1 u2 iv1 iv2 Hu1. by rewrite lookup_empty in Hu1.
  - done.
Qed.

Lemma articles_run_listed data st qi :
  Articles.run ud data = Ok (st, qi) ->
  Forall2 (fun item ivs =>
             listed_by (Articles.processed_links st) (link <$> links item) ivs)
          data qi.
Proof.
  intros Hrun.
  destruct (facts_listed Articles.processed_links (Articles.process_link ud)
              articles_process_link_duplicate articles_process_link_cached
              articles_process_link_no_data articles_process_link_fresh
              data _ _ _ _ Hrun)
    as (new & -> & Hnew).
  by rewrite app_nil_l.
Qed.
End ArticlesFacts.

(** A demonstration input for [articles.py]: the second source has no text
    after normalization and is stored all the same. *)
Lemma articles_demo_run :
  exists st,
    Articles.run ud_basic
      [Fact (py "q0") [LinkItem (Some "u0"%string) (Some (py "A. B."));
                       LinkItem (Some "u1"%string) (Some (py " "))];
       Fact (py "q1") [LinkItem (Some "u1"%string) None;
                       LinkItem (Some "u0"%string) None]]
    = Ok (st, [[(0, 0); (1, 1)]; [(1, 1); (0, 0)]]) /\
    Articles.corpus_articles st = {[ 0 := py "A. B."; 1 := [] ]}.
Proof. eexists. split; [by vm_compute|]. by vm_compute. Qed.

(** X13: after a run of the first pass of [articles.py] that ends without
    an error there is one article per URL: the ids of the articles are
    [0 .. doc_counter - 1], there are as many as [processed_links] has
    URLs; the interval of a URL is [(c, c)], where article [c] is the
    normalized ["link_data"] of a link of the data with that URL (empty or
    not), and two URLs never share an article. *)
Theorem articles_one_per_url ud (data : list fact) st qi :
  Articles.run ud data = Ok (st, qi) ->
  (forall k, is_Some (Articles.corpus_articles st !! k)
             <-> 0 <= k < Articles.doc_counter st) /\
  Z.of_nat (size (Articles.processed_links st)) = Articles.doc_counter st /\
  (forall u iv, Articles.processed_links st !! u = Some iv ->
     iv.2 = iv.1 /\
     exists item l raw,
       item ∈ data /\ l ∈ links item /\ link l = u /\ link_data l = Some raw /\
       Articles.corpus_articles st !! iv.1 = Some (preprocess_text ud raw)) /\
  (forall u1 u2 iv,
     Articles.processed_links st !! u1 = Some iv ->
     Articles.processed_links st !! u2 = Some iv -> u1 = u2).
Proof.
  intros Hrun.
  destruct (articles_run_consistent ud data st qi Hrun)
    as (_ & Hdom & Hcache & Hinj & Hsize).
  split; [done|]. split; [done|]. split.
  - intros u iv Hu.
    destruct (Hcache u iv Hu) as (H1 & _ & l & raw & Hl & Hlu & Hd & Hart).
    split; [done|].
    apply elem_of_concat_links in Hl as (item & Hitem & Hl).
    by exists item, l, raw.
  - intros u1 u2 iv Hu1 Hu2. by eapply Hinj.
Qed.

Lemma articles_one_per_url_witness :
  exists st qi,
    Articles.run ud_basic demo_data = Ok (st, qi) /\
    (forall k, is_Some (Articles.corpus_articles st !! k)
               <-> 0 <= k < Articles.doc_counter st) /\
    Z.of_nat (size (Articles.processed_links st)) = Articles.doc_counter st /\
    (forall u iv, Articles.processed_links st !! u = Some iv ->
       iv.2 = iv.1 /\
       exists item l raw,
         item ∈ demo_data /\ l ∈ links item /\ link l = u /\
         link_data l = Some raw /\
         Articles.corpus_articles st !! iv.1 = Some (preprocess_text ud_basic raw)) /\
    (forall u1 u2 iv,
       Articles.processed_links st !! u1 = Some iv ->
       Articles.processed_links st !! u2 = Some iv -> u1 = u2).
Proof.
  destruct (Articles.run ud_basic demo_data) as [[st qi]|e] eqn:Hrun;
    [|by vm_compute in Hrun].
  exists st, qi. split; [done|].
  exact (articles_one_per_url ud_basic demo_data st qi Hrun).
Defined.

Lemma article_candidates_of_the_fact ud (data : list fact) st qi :
  Articles.run ud data = Ok (st, qi) ->
  Forall2 (fun item ivs =>
             forall c,
               c ∈ Articles.valid_article_ids (Articles.corpus_articles st) ivs <->
               exists l, l ∈ links item /\
                         Articles.processed_links st !! link l = Some (c, c))
          data qi.
Proof.
  intros Hrun.
  destruct (articles_run_consistent ud data st qi Hrun)
    as (_ & Hdom & Hcache & _ & _).
  eapply Forall2_impl; [exact (articles_run_listed ud data st qi Hrun)|].
  intros item ivs (us & Hnd & Hsub & Hall & Hivs) c. cbv beta.
  unfold Articles.valid_article_ids. rewrite valid_para_ids_spec, Exists_exists.
  split.
  - intros (_ & iv & Hiv & Hc).
    apply list_elem_of_lookup in Hiv as [k Hk].
    destruct (Forall2_lookup_r _ _ _ _ _ Hivs Hk) as (u & Hu & Hcu).
    apply list_elem_of_lookup_2 in Hu.
    pose proof (elem_of_sublist _ _ _ Hu Hsub) as Hurl.
    apply list_elem_of_fmap in Hurl as (l & -> & Hl).
    exists l. split; [done|].
    destruct (Hcache _ _ Hcu) as (Heq & _ & _).
    unfold in_interval in Hc. destruct iv as [a b]. cbn [fst snd] in *.
    rewrite Hcu. repeat f_equal; lia.
  - intros (l & Hl & Hcl).
    destruct (Hcache _ _ Hcl) as (_ & Hrange & _). cbn [fst] in Hrange.
    split; [apply elem_of_dom, Hdom; lia|].
    assert (Hu : link l ∈ us).
    { apply Hall, list_elem_of_fmap. by exists l. }
    apply list_elem_of_lookup in Hu as [k Hk].
    destruct (Forall2_lookup_l _ _ _ _ _ Hivs Hk) as (iv & Hiv & Hcu).
    exists iv. split; [by eapply list_elem_of_lookup_2|].
    rewrite Hcl in Hcu. injection Hcu as <-. unfold in_interval. cbn. lia.
Qed.

(** X14: in [articles.py] the candidates of a fact are exactly the
    articles of its links: [c] is among the [valid_article_ids] computed
    from the interval list of the fact if and only if some link of the fact
    has a URL whose cached interval is [(c, c)]. *)
Theorem article_candidates_are_the_articles_of_the_fact ud (data : list fact) st qi :
  Articles.run ud data = Ok (st, qi) ->
  Forall2 (fun item ivs =>
             forall c,
               c ∈ Articles.valid_article_ids (Articles.corpus_articles st) ivs <->
               exists l, l ∈ links item /\
                         Articles.processed_links st !! link l = Some (c, c))
          data qi.
Proof. apply article_candidates_of_the_fact. Qed.

Lemma article_candidates_are_the_articles_of_the_fact_witness :
  exists st qi,
    Articles.run ud_basic demo_data = Ok (st, qi) /\
    Forall2 (fun item ivs =>
               forall c,
                 c ∈ Articles.valid_article_ids (Articles.corpus_articles st) ivs <->
                 exists l, l ∈ links item /\
                           Articles.processed_links st !! link l = Some (c, c))
            demo_data qi.
Proof.
  destruct (Articles.run ud_basic demo_data) as [[st qi]|e] eqn:Hrun;
    [|by vm_compute in Hrun].
  exists st, qi. split; [done|].
  exact (article_candidates_are_the_articles_of_the_fact ud_basic demo_data
           st qi Hrun).
Defined.

(** X15: the first pass of [articles.py] ends without an error exactly
    when every link whose URL occurs for the first time in the data has a
    ["link_data"]; it then stores one interval list per fact, and the keys
    of [processed_links] are the URLs of the data.  Otherwise it raises
    [TypeError]. *)
Theorem articles_pass_raises_exactly_on_unreadable_source ud (data : list fact) :
  (sources_readable ∅ (concat (links <$> data)) = true ->
   exists st qi,
     Articles.run ud data = Ok (st, qi) /\
     length qi = length data /\
     dom (Articles.processed_links st)
     = list_to_set (link <$> concat (links <$> data))) /\
  (sources_readable ∅ (concat (links <$> data)) = false ->
   Articles.run ud data = Raise TypeError).
Proof.
  pose proof (facts_readable Articles.processed_links (Articles.process_link ud)
                (articles_process_link_duplicate ud)
                (articles_process_link_cached ud)
                (articles_process_link_no_data ud)
                (articles_process_link_fresh ud) data ∅ Articles.init []
                (dom_empty_L (M := gmap (option string)))) as Hr.
  change (for_each (process_fact_with (Articles.process_link ud))
            (Articles.init, []) data)
    with (Articles.run ud data) in Hr.
  destruct (Articles.run ud data) as [[st qi]|e] eqn:Hrun.
  - destruct Hr as [Hr Hdom]. split; [|congruence].
    intros _. exists st, qi. split; [done|]. split.
    + symmetry. exact (Forall2_length _ _ _ (articles_run_listed ud data st qi Hrun)).
    + rewrite Hdom. set_solver.
  - destruct Hr as [-> Hr]. split; [congruence | done].
Qed.

Lemma articles_pass_raises_exactly_on_unreadable_source_witness :
  (exists st qi,
     Articles.run ud_basic demo_data = Ok (st, qi) /\
     length qi = length demo_data /\
     dom (Articles.processed_links st)
     = list_to_set (link <$> concat (links <$> demo_data))) /\
  Articles.run ud_basic
    [Fact (py "q") [LinkItem (Some "u"%string) (Some (py "A."));
                    LinkItem (Some "u"%string) None;
                    LinkItem (Some "v"%string) None]]
  = Raise TypeError.
Proof.
  split.
  - apply (proj1 (articles_pass_raises_exactly_on_unreadable_source
                    ud_basic demo_data)).
    by vm_compute.
  - apply (proj2 (articles_pass_raises_exactly_on_unreadable_source ud_basic _)).
    by vm_compute.
Defined.

(** X16: the article-level scores of [articles.py], from the first pass to
    the aggregation.  For the fact at position [fact_id] of the data the
    aggregation ends without an error, and its dict holds the score [v] for
    the article [c] exactly when [c] is the article of a link of the fact,
    some judged sentence of [corpus_sentences] is contained in the article,
    and [v] is the largest of 0 and the scores of these judgments. *)
Theorem article_scores_of_a_fact ud (data : list fact) st qi
    (corpus_sentences : gmap Z text) (fact_id : nat) item (d : list (Z * Z)) :
  Articles.run ud data = Ok (st, qi) ->
  data !! fact_id = Some item ->
  exists scores,
    article_scores ud (Articles.corpus_articles st) corpus_sentences qi fact_id d
      = Ok scores /\
    forall c v,
      scores !! c = Some v <->
      (exists l, l ∈ links item /\
                 Articles.processed_links st !! link l = Some (c, c)) /\
      received_scores ud corpus_sentences (Articles.corpus_articles st) d c <> [] /\
      v = foldl Z.max 0
            (received_scores ud corpus_sentences (Articles.corpus_articles st) d c).
Proof.
  intros Hrun Hitem.
  pose proof (article_candidates_of_the_fact ud data st qi Hrun) as Hcand.
  destruct (Forall2_lookup_l _ _ _ _ _ Hcand Hitem) as (ivs & Hivs & Hc).
  unfold article_scores. rewrite Hivs. cbn [default]. cbv zeta.
  destruct (aggregate_lookup ud (Articles.corpus_articles st) corpus_sentences
              (Articles.valid_article_ids (Articles.corpus_articles st) ivs) d)
    as (scores & Hs & Hspec); [apply valid_para_ids_in_corpus|].
  exists scores. split; [done|]. intros c v. rewrite Hspec, <- Hc.
  case_bool_decide as Hv; cbn [andb].
  - case_bool_decide as Hr.
    + split; [intros [= <-]; done | intros (_ & _ & ->); done].
    + split; [done | intros (_ & Hne & _); done].
  - split; [done | intros (Hin & _); done].
Qed.

Lemma article_scores_of_a_fact_witness :
  exists st qi,
    Articles.run ud_basic demo_data = Ok (st, qi) /\
    exists scores,
      article_scores ud_basic (Articles.corpus_articles st) paris_sentences qi 1
        [(0, 2); (1, 4)] = Ok scores /\
      forall c v,
        scores !! c = Some v <->
        (exists l, l ∈ [LinkItem (Some "u2"%string) (Some (py "C."));
                        LinkItem (Some "u3"%string) (Some (py "D."))] /\
                   Articles.processed_links st !! link l = Some (c, c)) /\
        received_scores ud_basic paris_sentences (Articles.corpus_articles st)
          [(0, 2); (1, 4)] c <> [] /\
        v = foldl Z.max 0
              (received_scores ud_basic paris_sentences (Articles.corpus_articles st)
                 [(0, 2); (1, 4)] c).
Proof.
  destruct (Articles.run ud_basic demo_data) as [[st qi]|e] eqn:Hrun;
    [|by vm_compute in Hrun].
  exists st, qi. split; [done|].
  exact (article_scores_of_a_fact ud_basic demo_data st qi paris_sentences 1 _
           [(0, 2); (1, 4)] Hrun eq_refl).
Defined.

(** * The documents of [sents.py] and [paras.py] and their sources *)

Section Pass1Cover.
Variable ud : unicodedata.
Variable units_of : text -> list text.

Lemma process_link_covers st acc l st' acc' :
  (0 <= Pass1.doc_counter st /\
   forall k, 0 <= k < Pass1.doc_counter st ->
     exists u iv, Pass1.processed_links st !! u = Some iv /\ in_interval k iv) ->
  Pass1.process_link ud units_of (st, acc) l = Ok (st', acc') ->
  0 <= Pass1.doc_counter st' /\
  forall k, 0 <= k < Pass1.doc_counter st' ->
    exists u iv, Pass1.processed_links st' !! u = Some iv /\ in_interval k iv.
Proof.
  intros [Hcnt Hcov] Hstep.
  destruct (decide (link l ∈ fact_links acc)) as [Hin|Hin].
  { rewrite process_link_duplicate in Hstep by done. by injection Hstep as <- <-. }
  destruct (Pass1.processed_links st !! link l) as [cached|] eqn:Hc.
  { rewrite (process_link_cached _ _ _ _ _ cached) in Hstep by done.
    by injection Hstep as <- <-. }
  destruct (link_data l) as [raw|] eqn:Hd;
    [|by rewrite process_link_no_data in Hstep].
  destruct (process_link_fresh ud units_of st acc l raw Hin Hc Hd) as [corpus' Heq].
  rewrite Heq in Hstep. injection Hstep as <- <-.
  cbn [Pass1.doc_counter Pass1.processed_links].
  split; [lia|]. intros k Hk.
  destruct (decide (k < Pass1.doc_counter st)) as [Hold|Hnew].
  - destruct (Hcov k ltac:(lia)) as (u & iv & Hu & Hiv).
    exists u, iv. split; [|done].
    rewrite lookup_insert_ne; [done|]. intros <-. congruence.
  - eexists _, _. split; [apply lookup_insert_eq|].
    unfold in_interval. cbn [fst snd]. lia.
Qed.

Lemma run_covers data st qi :
  Pass1.run ud units_of data = Ok (st, qi) ->
  forall k, 0 <= k < Pass1.doc_counter st ->
    exists u iv, Pass1.processed_links st !! u = Some iv /\ in_interval k iv.
Proof.
  intros Hrun.
  refine (proj2 (for_each_invariant
            (fun sq : Pass1.state * list (list interval) =>
               0 <= Pass1.doc_counter sq.1 /\
               forall k, 0 <= k < Pass1.doc_counter sq.1 ->
                 exists u iv, Pass1.processed_links sq.1 !! u = Some iv /\
                              in_interval k iv)
            (Pass1.process_fact ud units_of) _ data (Pass1.init, []) (st, qi) _ Hrun)).
  - intros [st0 qi0] item [st1 qi1] Hinv Hfact.
    unfold Pass1.process_fact in Hfact. cbn [fst snd] in *.
    apply result_bind_inv in Hfact as ([st1' acc] & Hlinks & Hret).
    injection Hret as <- <-.
    exact (for_each_invariant
             (fun sa : Pass1.state * fact_acc =>
                0 <= Pass1.doc_counter sa.1 /\
                forall k, 0 <= k < Pass1.doc_counter sa.1 ->
                  exists u iv, Pass1.processed_links sa.1 !! u = Some iv /\
                               in_interval k iv)
             (Pass1.process_link ud units_of)
             (fun sa l sa' => match sa, sa' with
                              | (s, a), (s', a') => process_link_covers s a l s' a'
                              end)
             (links item) (st0, fact_acc_init) (st1', acc) Hinv Hlinks).
  - cbn. split; [done|]. intros k Hk. lia.
Qed.

(** Every document of the corpus is one of the units kept of the text of a
    link of the data. *)
Lemma run_documents_from_sources data st qi k t :
  Pass1.run ud units_of data = Ok (st, qi) ->
  Pass1.corpus st !! k = Some t ->
  exists item l raw,
    item ∈ data /\ l ∈ links item /\ link_data l = Some raw /\
    t ∈ kept_units ud units_of raw.
Proof.
  intros Hrun Hk.
  destruct (run_consistent ud units_of data st qi Hrun)
    as (_ & Hdom & _ & Hcache & _).
  assert (Hrange : 0 <= k < Pass1.doc_counter st) by (apply Hdom; by eexists).
  destruct (run_covers data st qi Hrun k Hrange) as (u & iv & Hu & Hiv).
  destruct (Hcache u iv Hu) as (_ & _ & l & raw & Hl & _ & Hd & Hend & Hunits).
  apply elem_of_concat_links in Hl as (item & Hitem & Hl).
  exists item, l, raw. split; [done|]. split; [done|]. split; [done|].
  unfold in_interval in Hiv.
  assert (Hj : (Z.to_nat (k - iv.1) < length (kept_units ud units_of raw))%nat) by lia.
  apply lookup_lt_is_Some in Hj as [t' Ht'].
  pose proof (Hunits _ _ Ht') as Hck.
  replace (iv.1 + Z.of_nat (Z.to_nat (k - iv.1))) with k in Hck by lia.
  rewrite Hk in Hck. injection Hck as ->. by eapply list_elem_of_lookup_2.
Qed.
End Pass1Cover.

(** X17: after a run of the first pass of [sents.py] or [paras.py] that
    ends without an error, the cached intervals cover the corpus: every
    document id below [doc_counter] lies in the interval of one URL, and of
    one only. *)
Theorem source_intervals_cover_the_corpus ud units_of (data : list fact) st qi k :
  Pass1.run ud units_of data = Ok (st, qi) ->
  0 <= k < Pass1.doc_counter st ->
  exists u iv,
    Pass1.processed_links st !! u = Some iv /\ in_interval k iv /\
    forall u' iv',
      Pass1.processed_links st !! u' = Some iv' -> in_interval k iv' -> u' = u.
Proof.
  intros Hrun Hk.
  destruct (run_covers ud units_of data st qi Hrun k Hk) as (u & iv & Hu & Hiv).
  exists u, iv. split; [done|]. split; [done|].
  intros u' iv' Hu' Hiv'.
  destruct (run_consistent ud units_of data st qi Hrun) as (_ & _ & _ & _ & Hdis).
  destruct (decide (u' = u)) as [|Hne]; [done|].
  unfold in_interval in *.
  destruct (Hdis u' u iv' iv Hne Hu' Hu); lia.
Qed.

Lemma source_intervals_cover_the_corpus_witness :
  exists st qi,
    Sents.run ud_basic sentenize_one demo_data = Ok (st, qi) /\
    0 <= 3 < Pass1.doc_counter st /\
    exists u iv,
      Pass1.processed_links st !! u = Some iv /\ in_interval 3 iv /\
      forall u' iv',
        Pass1.processed_links st !! u' = Some iv' -> in_interval 3 iv' -> u' = u.
Proof.
  destruct (Sents.run ud_basic sentenize_one demo_data) as [[st qi]|e] eqn:Hrun;
    [|by vm_compute in Hrun].
  exists st, qi. split; [done|].
  assert (Hk : 0 <= 3 < Pass1.doc_counter st).
  { vm_compute in Hrun. injection Hrun as <- _. by vm_compute. }
  split; [exact Hk|].
  exact (source_intervals_cover_the_corpus ud_basic sentenize_one demo_data
           st qi 3 Hrun Hk).
Defined.

(** * The paragraphs of [paras.py] *)

Lemma split_blank_cons cur c s :
  split_blank cur (c :: s)
  = match s with
    | d :: s' =>
        if (c =? 0xa) && (d =? 0xa) then cur :: split_blank [] s'
        else split_blank (cur ++ [c]) s
    | [] => [cur ++ [c]]
    end.
Proof.
  destruct s as [|d s'].
  - destruct c as [|p|p]; try reflexivity.
    repeat (destruct p as [p|p|]; try reflexivity).
  - destruct c as [|p|p]; try reflexivity.
    repeat (destruct p as [p|p|]; try reflexivity).
    destruct d as [|q|q]; try reflexivity.
    repeat (destruct q as [q|q|]; try reflexivity).
Qed.

Lemma str_in_pair_snoc a b (l : text) c :
  str_in [a; b] (l ++ [c])
  = str_in [a; b] l
    || match last l with Some x => (a =? x) && (b =? c) | None => false end.
Proof.
  induction l as [|x l IH]; [cbn; by destruct (a =? c)|].
  cbn [app]. rewrite !str_in_cons, IH. clear IH.
  destruct l as [|y l].
  - cbn. destruct (a =? x), (b =? c); done.
  - change (last (x :: y :: l)) with (last (y :: l)).
    cbn [app starts_with]. by rewrite orb_assoc.
Qed.

Lemma split_blank_no_blank_line (n : nat) : forall (s cur : text),
  (length s <= n)%nat ->
  str_in [0xa; 0xa] cur = false ->
  (last cur = Some 0xa -> head s <> Some 0xa) ->
  Forall (fun p => str_in [0xa; 0xa] p = false) (split_blank cur s).
Proof.
  induction n as [|n IH]; intros s cur Hlen Hcur Hlast.
  - destruct s; [|simpl in Hlen; lia]. by apply Forall_singleton.
  - destruct s as [|c s]; [by apply Forall_singleton|].
    assert (Hsnoc : str_in [0xa; 0xa] (cur ++ [c]) = false).
    { rewrite str_in_pair_snoc, Hcur. cbn [orb].
      destruct (last cur) as [x|] eqn:Hx; [|done].
      destruct (Z.eqb_spec 0xa x) as [<-|]; [|done].
      destruct (Z.eqb_spec 0xa c) as [<-|]; [|done].
      by destruct (Hlast eq_refl). }
    rewrite split_blank_cons. destruct s as [|d s].
    + by apply Forall_singleton.
    + destruct (Z.eqb_spec c 0xa) as [->|Hc]; cbn [andb].
      * destruct (Z.eqb_spec d 0xa) as [->|Hd].
        -- apply Forall_cons. split; [done|].
           apply IH; [simpl in *; lia | done | done].
        -- apply IH; [simpl in *; lia | done |].
           intros _ [= ->]. done.
      * apply IH; [simpl in *; lia | done |].
        rewrite last_snoc. intros [= ->]. done.
Qed.

Lemma paragraphs_trimmed (article_text p : text) :
  p ∈ Paras.paragraphs article_text ->
  p <> [] /\ strip p = p /\ str_in [0xa; 0xa] p = false.
Proof.
  unfold Paras.paragraphs. intros [Hne Hp]%list_elem_of_filter.
  apply list_elem_of_fmap in Hp as (q & -> & Hq).
  split; [done|]. split; [apply strip_idem|].
  pose proof (split_blank_no_blank_line (length article_text) article_text []
                (le_n _) eq_refl ltac:(done)) as Hall.
  rewrite Forall_forall in Hall. specialize (Hall q Hq).
  destruct (strip_infix q) as (a & b & Hs). rewrite Hs in Hall.
  by apply str_in_drop_prefix, str_in_drop_suffix in Hall.
Qed.

(** X18: every document that [paras.py] puts into the corpus is a
    paragraph of the normalized text of a link of the data; it is not
    empty, it neither starts nor ends with white space ([strip] leaves it as
    it is), and it holds no blank line. *)
Theorem paragraph_documents_are_trimmed ud (data : list fact) st qi k p :
  Paras.run ud data = Ok (st, qi) ->
  Pass1.corpus st !! k = Some p ->
  p <> [] /\ strip p = p /\ str_in [0xa; 0xa] p = false /\
  exists item l raw,
    item ∈ data /\ l ∈ links item /\ link_data l = Some raw /\
    p ∈ Paras.paragraphs (preprocess_text ud raw).
Proof.
  intros Hrun Hk.
  destruct (run_documents_from_sources ud Paras.paragraphs data st qi k p Hrun Hk)
    as (item & l & raw & Hitem & Hl & Hd & Hp).
  unfold kept_units in Hp. apply list_elem_of_filter in Hp as [_ Hp].
  destruct (paragraphs_trimmed _ _ Hp) as (H1 & H2 & H3).
  split; [done|]. split; [done|]. split; [done|].
  by exists item, l, raw.
Qed.

Lemma paragraph_documents_are_trimmed_witness :
  let data :=
    [Fact (py "q") [LinkItem (Some "u"%string)
                      (Some [0x41; 0x2e; 0xa; 0xa; 0xa; 0x20; 0x42; 0x2e; 0x20])]] in
  exists st qi,
    Paras.run ud_basic data = Ok (st, qi) /\
    Pass1.corpus st !! 1 = Some (py "B.") /\
    py "B." <> [] /\ strip (py "B.") = py "B." /\
    str_in [0xa; 0xa] (py "B.") = false /\
    exists item l raw,
      item ∈ data /\ l ∈ links item /\ link_data l = Some raw /\
      py "B." ∈ Paras.paragraphs (preprocess_text ud_basic raw).
Proof.
  cbv zeta.
  destruct (Paras.run ud_basic _) as [[st qi]|e] eqn:Hrun;
    [|by vm_compute in Hrun].
  exists st, qi. split; [done|].
  assert (Hk : Pass1.corpus st !! 1 = Some (py "B.")).
  { vm_compute in Hrun. injection Hrun as <- _. by vm_compute. }
  split; [exact Hk|].
  exact (paragraph_documents_are_trimmed ud_basic _ st qi 1 (py "B.") Hrun Hk).
Defined.


(** * The sentence list of [windows.py] and its sources *)

Lemma sentences_from_app (gsl new : list (Z * text * Z)) (i W : Z) :
  (Z.to_nat i + Z.to_nat W <= length gsl)%nat ->
  sentences_from (gsl ++ new) i W = sentences_from gsl i W.
Proof.
  intros Hle. unfold sentences_from. f_equal.
  rewrite drop_app_le by lia. rewrite take_app_le; [done|].
  rewrite length_drop. lia.
Qed.

Lemma sentences_from_new (gsl new : list (Z * text * Z)) :
  sentences_from (gsl ++ new) (Z.of_nat (length gsl)) (Z.of_nat (length new))
  = (fun entry : Z * text * Z => entry.1.2) <$> new.
Proof.
  unfold sentences_from. f_equal. rewrite !Nat2Z.id.
  rewrite drop_app_length. by apply take_ge.
Qed.

Lemma foldl_add_sentence_list (sentences : list text) :
  forall (gsl : list (Z * text * Z)) (c : Z),
  exists new,
    (foldl Windows.add_sentence (gsl, c) sentences).1 = gsl ++ new /\
    (fun entry : Z * text * Z => entry.1.2) <$> new = sentences.
Proof.
  induction sentences as [|s ss IH]; intros gsl c; cbn [foldl].
  - exists []. by rewrite app_nil_r.
  - unfold Windows.add_sentence at 2. cbn [fst snd].
    destruct (IH (gsl ++ [(c, s, c)]) (c + 1)) as (new & -> & Hnew).
    exists ((c, s, c) :: new). split; [by rewrite <- app_assoc|].
    rewrite fmap_cons. cbn [fst snd]. by rewrite Hnew.
Qed.

Section WindowsConsistency.
Variable ud : unicodedata.
Variable sentenize : text -> list text.

Lemma windows_consistent_seen seen seen' st :
  (forall l, l ∈ seen -> l ∈ seen') ->
  windows_consistent ud sentenize seen st -> windows_consistent ud sentenize seen' st.
Proof.
  intros Hsub (Hc & Hcache & Hdis & Hcov).
  split; [done|]. split; [|done].
  intros u iv Hu. destruct (Hcache u iv Hu) as (H1 & H2 & l & Hl & Hrest).
  split; [done|]. split; [done|]. exists l. split; [by apply Hsub | done].
Qed.

Lemma windows_process_link_consistent seen st acc l :
  windows_consistent ud sentenize seen st ->
  windows_consistent ud sentenize (seen ++ [l])
    (Windows.process_link ud sentenize (st, acc) l).1.
Proof.
  intros Hinv.
  assert (Hweak : windows_consistent ud sentenize (seen ++ [l]) st).
  { eapply windows_consistent_seen; [|exact Hinv].
    intros x Hx. apply elem_of_app. by left. }
  unfold Windows.process_link.
  case_bool_decide as Hin; [done|].
  destruct (Windows.processed_links st !! link l) as [cached|] eqn:Hc; [done|].
  cbv zeta. case_bool_decide as Htext; [done|].
  fold (kept_sentences ud sentenize (default [] (link_data l))).
  set (ss := kept_sentences ud sentenize (default [] (link_data l))).
  case_bool_decide as Hss; [done|].
  clear Hweak. cbn [fst].
  destruct Hinv as (Hcnt & Hcache & Hdis & Hcov).
  destruct (foldl_add_sentence_list ss (Windows.global_sentences_list st)
              (Windows.global_sentence_counter st)) as (new & Hlist & Hnew).
  pose proof (foldl_add_sentence_counter ss (Windows.global_sentences_list st)
                (Windows.global_sentence_counter st)) as Hcounter.
  set (built := foldl Windows.add_sentence
                  (Windows.global_sentences_list st,
                   Windows.global_sentence_counter st) ss) in *.
  assert (Hlen : length new = length ss) by (by rewrite <- Hnew, length_fmap).
  assert (Hpos : (0 < length ss)%nat) by (destruct ss; [done | simpl; lia]).
  set (c := Windows.global_sentence_counter st) in *.
  set (gsl := Windows.global_sentences_list st) in *.
  unfold windows_consistent.
  cbn [Windows.global_sentences_list Windows.global_sentence_counter
       Windows.processed_links].
  rewrite Hcounter, Hlist.
  split; [rewrite length_app; lia|]. split; [|split].
  - intros u iv Hu. destruct (decide (link l = u)) as [<-|Hneq].
    + rewrite lookup_insert_eq in Hu. injection Hu as <-. cbn [fst snd].
      split; [lia|]. split; [lia|]. exists l.
      split; [apply elem_of_app; right; by left|]. split; [done|].
      replace (c + Z.of_nat (length ss) - 1 - c + 1) with (Z.of_nat (length new))
        by lia.
      rewrite Hcnt. by rewrite sentences_from_new.
    + rewrite lookup_insert_ne in Hu by done.
      destruct (Hcache u iv Hu) as (H1 & H2 & l' & Hl' & Hlu & Hsent).
      split; [done|]. split; [lia|]. exists l'.
      split; [apply elem_of_app; by left|]. split; [done|].
      rewrite sentences_from_app by lia. done.
  - intros u1 u2 iv1 iv2 Hne Hu1 Hu2.
    destruct (decide (link l = u1)) as [<-|Hn1];
      destruct (decide (link l = u2)) as [<-|Hn2]; [done| | |].
    + rewrite lookup_insert_eq in Hu1. injection Hu1 as <-.
      rewrite lookup_insert_ne in Hu2 by done.
      destruct (Hcache u2 iv2 Hu2) as (_ & H2 & _). cbn [fst snd]. lia.
    + rewrite lookup_insert_eq in Hu2. injection Hu2 as <-.
      rewrite lookup_insert_ne in Hu1 by done.
      destruct (Hcache u1 iv1 Hu1) as (_ & H2 & _). cbn [fst snd]. lia.
    + rewrite lookup_insert_ne in Hu1, Hu2 by done.
      exact (Hdis u1 u2 iv1 iv2 Hne Hu1 Hu2).
  - intros k Hk. destruct (decide (k < c)) as [Hold|Hnew'].
    + destruct (Hcov k ltac:(lia)) as (u & iv & Hu & Hiv).
      exists u, iv. split; [|done].
      rewrite lookup_insert_ne; [done|]. intros <-. congruence.
    + eexists _, _. split; [apply lookup_insert_eq|].
      unfold in_interval. cbn [fst snd]. lia.
Qed.

Lemma windows_process_links_consistent l1 : forall seen st acc,
  windows_consistent ud sentenize seen st ->
  windows_consistent ud sentenize (seen ++ l1)
    (foldl (Windows.process_link ud sentenize) (st, acc) l1).1.
Proof.
  induction l1 as [|a l1 IH]; intros seen st acc Hinv; cbn [foldl].
  - by rewrite app_nil_r.
  - rewrite (cons_middle a seen l1), (assoc_L (++)).
    pose proof (windows_process_link_consistent seen st acc a Hinv) as Hstep.
    destruct (Windows.process_link ud sentenize (st, acc) a) as [st2 acc2].
    by apply IH.
Qed.

Lemma windows_process_facts_consistent data : forall seen st qi,
  windows_consistent ud sentenize seen st ->
  windows_consistent ud sentenize (seen ++ concat (links <$> data))
    (foldl (Windows.process_fact ud sentenize) (st, qi) data).1.
Proof.
  induction data as [|item data IH]; intros seen st qi Hinv; cbn [foldl].
  - by rewrite app_nil_r.
  - rewrite fmap_cons. cbn [concat]. rewrite (assoc_L (++)).
    assert (Hfact : Windows.process_fact ud sentenize (st, qi) item
                    = ((foldl (Windows.process_link ud sentenize)
                          (st, fact_acc_init) (links item)).1,
                       qi ++ [intervals_for_fact
                                (foldl (Windows.process_link ud sentenize)
                                   (st, fact_acc_init) (links item)).2]))
      by reflexivity.
    rewrite Hfact. apply IH. by apply windows_process_links_consistent.
Qed.

Lemma windows_run_consistent data :
  windows_consistent ud sentenize (concat (links <$> data))
    (Windows.run ud sentenize data).1.
Proof.
  apply (windows_process_facts_consistent data [] Windows.init []).
  unfold windows_consistent. cbn.
  split; [done|]. split; [|split].
  - intros u iv Hu. by rewrite lookup_empty in Hu.
  - intros u1 u2 iv1 iv2 _ Hu1. by rewrite lookup_empty in Hu1.
  - intros k Hk. lia.
Qed.
End WindowsConsistency.

Lemma sentences_from_lookup (gsl : list (Z * text * Z)) (i W : Z) (k : nat) entry :
  0 <= i -> (Z.to_nat i <= k)%nat -> Z.of_nat k < i + W ->
  gsl !! k = Some entry ->
  sentences_from gsl i W !! (k - Z.to_nat i)%nat = Some entry.1.2.
Proof.
  intros Hi Hik HkW Hk. unfold sentences_from.
  rewrite list_lookup_fmap, lookup_take_lt by lia.
  rewrite lookup_drop. replace (Z.to_nat i + (k - Z.to_nat i))%nat with k by lia.
  by rewrite Hk.
Qed.

(** X19: in [windows.py] the cached sentence intervals partition the
    sentence list: every interval is not empty and lies within
    [0 .. total_sentences - 1], and every sentence index lies in the
    interval of one URL, and of one only. *)
Theorem sentence_intervals_partition_the_list ud sentenize (data : list fact) :
  let st := (Windows.run ud sentenize data).1 in
  let T := Windows.total_sentences (Windows.global_sentences_list st) in
  Windows.global_sentence_counter st = T /\
  (forall u iv, Windows.processed_links st !! u = Some iv ->
     0 <= iv.1 /\ iv.1 <= iv.2 /\ iv.2 < T) /\
  (forall k, 0 <= k < T ->
     exists u iv,
       Windows.processed_links st !! u = Some iv /\ in_interval k iv /\
       forall u' iv',
         Windows.processed_links st !! u' = Some iv' -> in_interval k iv' -> u' = u).
Proof.
  intros st T.
  destruct (windows_run_consistent ud sentenize data) as (Hcnt & Hcache & Hdis & Hcov).
  fold st in Hcnt, Hcache, Hdis, Hcov.
  assert (HT : Windows.global_sentence_counter st = T) by exact Hcnt.
  split; [done|]. split.
  - intros u iv Hu. destruct (Hcache u iv Hu) as (H1 & H2 & _). lia.
  - intros k Hk. destruct (Hcov k ltac:(lia)) as (u & iv & Hu & Hiv).
    exists u, iv. split; [done|]. split; [done|].
    intros u' iv' Hu' Hiv'.
    destruct (decide (u' = u)) as [|Hne]; [done|].
    unfold in_interval in *.
    destruct (Hdis u' u iv' iv Hne Hu' Hu); lia.
Qed.

Lemma sentence_intervals_partition_the_list_witness :
  let st := (Windows.run ud_basic sentenize_one demo_data).1 in
  Windows.global_sentence_counter st = 5 /\
  (forall u iv, Windows.processed_links st !! u = Some iv ->
     0 <= iv.1 /\ iv.1 <= iv.2 /\ iv.2 < 5) /\
  (forall k, 0 <= k < 5 ->
     exists u iv,
       Windows.processed_links st !! u = Some iv /\ in_interval k iv /\
       forall u' iv',
         Windows.processed_links st !! u' = Some iv' -> in_interval k iv' -> u' = u).
Proof.
  exact (sentence_intervals_partition_the_list ud_basic sentenize_one demo_data).
Defined.

(** X20: in [windows.py] the sentences of a cached interval are the
    sentences kept of the text of a link of the data that has the URL (the
    text of a link without ["link_data"] being empty): the trimmed,
    non-empty sentences of the normalized text, in order.  Hence no sentence
    of the list is empty, and none starts or ends with white space. *)
Theorem interval_sentences_are_those_of_its_source ud sentenize (data : list fact) :
  let st := (Windows.run ud sentenize data).1 in
  (forall u iv, Windows.processed_links st !! u = Some iv ->
     exists item l,
       item ∈ data /\ l ∈ links item /\ link l = u /\
       sentences_from (Windows.global_sentences_list st) iv.1 (iv.2 - iv.1 + 1)
       = kept_sentences ud sentenize (default [] (link_data l))) /\
  (forall (k : nat) entry,
     Windows.global_sentences_list st !! k = Some entry ->
     entry.1.2 <> [] /\ strip entry.1.2 = entry.1.2).
Proof.
  intros st.
  destruct (windows_run_consistent ud sentenize data) as (Hcnt & Hcache & Hdis & Hcov).
  fold st in Hcnt, Hcache, Hdis, Hcov.
  split.
  - intros u iv Hu. destruct (Hcache u iv Hu) as (_ & _ & l & Hl & Hlu & Hsent).
    apply elem_of_concat_links in Hl as (item & Hitem & Hl).
    by exists item, l.
  - intros k entry Hk.
    pose proof (lookup_lt_Some _ _ _ Hk) as Hlt.
    destruct (Hcov (Z.of_nat k) ltac:(lia)) as (u & iv & Hu & Hiv).
    destruct (Hcache u iv Hu) as (H1 & H2 & l & _ & _ & Hsent).
    unfold in_interval in Hiv.
    pose proof (sentences_from_lookup (Windows.global_sentences_list st)
                  iv.1 (iv.2 - iv.1 + 1) k entry ltac:(lia) ltac:(lia) ltac:(lia) Hk)
      as Hin.
    rewrite Hsent in Hin. apply list_elem_of_lookup_2 in Hin.
    unfold kept_sentences in Hin. apply list_elem_of_filter in Hin as [Hne Hin].
    split; [done|].
    apply list_elem_of_fmap in Hin as (q & -> & _). apply strip_idem.
Qed.

Lemma interval_sentences_are_those_of_its_source_witness :
  let st := (Windows.run ud_basic sentenize_one demo_data).1 in
  (forall u iv, Windows.processed_links st !! u = Some iv ->
     exists item l,
       item ∈ demo_data /\ l ∈ links item /\ link l = u /\
       sentences_from (Windows.global_sentences_list st) iv.1 (iv.2 - iv.1 + 1)
       = kept_sentences ud_basic sentenize_one (default [] (link_data l))) /\
  (forall (k : nat) entry,
     Windows.global_sentences_list st !! k = Some entry ->
     entry.1.2 <> [] /\ strip entry.1.2 = entry.1.2).
Proof.
  exact (interval_sentences_are_those_of_its_source ud_basic sentenize_one demo_data).
Defined.

(** * The normalizer: what it leaves and what it does to a heading *)

(** X21: whatever the tables, no character of a normalized text is a
    combining mark: each one is [й] or [ё] or has the combining class 0. *)
Theorem normalized_text_has_no_combining_mark ud (t : text) :
  Forall (fun c => c ∈ exclude_chars \/ combining ud c = 0) (preprocess_text ud t).
Proof.
  unfold preprocess_text. cbv zeta.
  generalize (normalize_NFC ud (strip (replace_nbsp (sub_header (sub_accent t))))).
  intros l. induction l as [|x l IH]; [apply Forall_nil_2|].
  cbn [flat_map]. apply Forall_app. split; [|done].
  unfold strip_diacritics. case_bool_decide as Hx.
  - apply Forall_singleton. by left.
  - apply Forall_forall. intros c [Hc _]%list_elem_of_filter. by right.
Qed.

Section HeaderMatch.
Context {A : Type}.

Lemma star_space_greedy (k : text -> option A) (ws t : text) r :
  forallb isspace ws = true ->
  match t with c :: _ => isspace c = false | [] => True end ->
  k t = Some r ->
  star_space k (ws ++ t) = Some r.
Proof.
  intros Hws Ht Hk. induction ws as [|c ws IH]; cbn [app].
  - destruct t as [|c t]; [done|]. cbn [star_space]. by rewrite Ht.
  - cbn [forallb] in Hws. apply andb_true_iff in Hws as [Hc Hws].
    cbn [star_space]. rewrite Hc. by rewrite (IH Hws).
Qed.

Lemma star_space_lit_fails (k : text -> option A) (s : text) :
  match lstrip s with d :: _ => d <> 0x3d | [] => True end ->
  star_space (lit 0x3d k) s = None.
Proof.
  induction s as [|c s IH]; [done|]. cbn [lstrip star_space].
  destruct (isspace c) eqn:Hc.
  - intros Hs. rewrite (IH Hs). cbn [lit].
    destruct (Z.eqb_spec c 0x3d) as [->|]; [by vm_compute in Hc | done].
  - intros Hd. cbn [lit]. by destruct (Z.eqb_spec c 0x3d).
Qed.

Lemma group_lazy_skip (k : text -> text -> option A) (h2 : text) :
  forall (g tail : text),
  Forall (fun c => c <> 0xa) h2 ->
  (forall g1 c g2, h2 = g1 ++ c :: g2 -> k (g ++ g1) (c :: g2 ++ tail) = None) ->
  group_lazy k g (h2 ++ tail) = group_lazy k (g ++ h2) tail.
Proof.
  induction h2 as [|c h2 IH]; intros g tail Hnl Hfail.
  - by rewrite app_nil_r.
  - cbn [app].
    assert (Hhere : k g (c :: h2 ++ tail) = None).
    { specialize (Hfail [] c h2 eq_refl). by rewrite app_nil_r in Hfail. }
    assert (Hunfold : group_lazy k g (c :: h2 ++ tail)
                      = match k g (c :: h2 ++ tail) with
                        | Some r => Some r
                        | None => if c =? 0xa then None
                                  else group_lazy k (g ++ [c]) (h2 ++ tail)
                        end) by reflexivity.
    rewrite Hunfold, Hhere.
    apply Forall_cons in Hnl as [Hc Hnl].
    destruct (Z.eqb_spec c 0xa) as [|_]; [done|].
    rewrite IH; [by rewrite <- app_assoc | done |].
    intros g1 c' g2 ->. rewrite <- app_assoc. cbn [app].
    apply (Hfail (c :: g1) c' g2). done.
Qed.
End HeaderMatch.

Lemma lstrip_finds_mark (P : Z -> Prop) (l tail : text) z :
  Forall P l -> z ∈ l -> isspace z = false ->
  match lstrip (l ++ tail) with d :: _ => P d | [] => False end.
Proof.
  intros HP Hz Hzs. induction l as [|c l IH]; [by apply elem_of_nil in Hz|].
  apply Forall_cons in HP as [Hc HP]. cbn [app lstrip].
  destruct (isspace c) eqn:Hcs; [|done].
  apply IH; [done|]. apply elem_of_cons in Hz as [->|Hz]; [congruence | done].
Qed.

Lemma strip_fixed_ends (h : text) :
  h <> [] -> strip h = h ->
  (match h with c :: _ => isspace c = false | [] => True end) /\
  exists h0 z, h = h0 ++ [z] /\ isspace z = false.
Proof.
  intros Hne Hs.
  assert (Hhead : match h with c :: _ => isspace c = false | [] => True end).
  { rewrite <- Hs. apply strip_head. }
  split; [done|].
  assert (Hr : rstrip h = h).
  { unfold strip in Hs. by rewrite (lstrip_fixed h Hhead) in Hs. }
  unfold rstrip in Hr.
  assert (Hl : lstrip (reverse h) = reverse h).
  { rewrite <- Hr at 2. by rewrite reverse_involutive. }
  pose proof (lstrip_head (reverse h)) as Hrh. rewrite Hl in Hrh.
  destruct (reverse h) as [|z r] eqn:Hrev.
  - apply (f_equal reverse) in Hrev. rewrite reverse_involutive in Hrev. done.
  - exists (reverse r), z. split; [|done].
    apply (f_equal reverse) in Hrev. rewrite reverse_involutive in Hrev.
    by rewrite Hrev, reverse_cons.
Qed.

Lemma sub_header_from_skip (pre rest : text) :
  sub_header_from (length pre) (pre ++ rest) = sub_header_from 0 rest.
Proof.
  induction pre as [|c pre IH]; [done|]. cbn [length app sub_header_from]. exact IH.
Qed.

Lemma match_header_of_heading (ws1 h ws2 ws3 rest : text) :
  forallb isspace ws1 = true ->
  forallb isspace ws2 = true ->
  forallb isspace ws3 = true ->
  h <> [] -> strip h = h ->
  Forall (fun c => c <> 0x3d /\ c <> 0xa) h ->
  match rest with c :: _ => isspace c = false | [] => True end ->
  match_header ([0x3d; 0x3d] ++ ws1 ++ h ++ ws2 ++ [0x3d; 0x3d] ++ ws3 ++ rest)
  = Some (h, rest).
Proof.
  intros H1 H2 H3 Hne Hs Hh Hrest.
  destruct (strip_fixed_ends h Hne Hs) as (Hhead & h0 & z & Hhz & Hz).
  set (tail := ws2 ++ [0x3d; 0x3d] ++ ws3 ++ rest).
  unfold match_header.
  change ([0x3d; 0x3d] ++ ws1 ++ h ++ tail) with (0x3d :: 0x3d :: ws1 ++ h ++ tail).
  cbn [lit]. rewrite !Z.eqb_refl.
  set (K := fun g : text =>
              star_space (lit 0x3d (lit 0x3d (star_space (fun rest0 : text =>
                Some (g, rest0)))))).
  apply star_space_greedy; [done | destruct h; [done | exact Hhead] |].
  rewrite (group_lazy_skip K h [] tail).
  - cbn [app].
    assert (Hunfold : forall g s, group_lazy K g s
                      = match K g s with
                        | Some r => Some r
                        | None => match s with
                                  | c :: s' => if c =? 0xa then None
                                               else group_lazy K (g ++ [c]) s'
                                  | [] => None
                                  end
                        end) by (intros g s; by destruct s).
    rewrite Hunfold.
    assert (HK : K h tail = Some (h, rest)).
    { unfold K, tail. apply star_space_greedy; [done | done |].
      change ([0x3d; 0x3d] ++ ws3 ++ rest) with (0x3d :: 0x3d :: ws3 ++ rest).
      cbn [lit]. rewrite !Z.eqb_refl. by apply star_space_greedy. }
    by rewrite HK.
  - eapply Forall_impl; [exact Hh|]. by intros c [_ ?].
  - intros g1 c g2 Hsplit. unfold K. apply star_space_lit_fails.
    assert (Hsuffix : exists l, c :: g2 = l ++ [z]).
    { rewrite Hhz in Hsplit. destruct g2 as [|d g2] using rev_ind.
      - exists []. apply (f_equal reverse) in Hsplit.
        rewrite !reverse_app in Hsplit. cbn in Hsplit.
        by injection Hsplit as ->.
      - exists (c :: g2). rewrite app_comm_cons, app_assoc in Hsplit.
        apply app_inj_tail in Hsplit as [_ ->]. done. }
    destruct Hsuffix as [l Hl].
    pose proof (lstrip_finds_mark (fun d => d <> 0x3d) (c :: g2) tail z) as Hmark.
    change ((c :: g2) ++ tail) with (c :: g2 ++ tail) in Hmark.
    destruct (lstrip (c :: g2 ++ tail)) as [|d ?].
    + done.
    + apply Hmark; [| |done].
      * rewrite Hsplit in Hh. apply Forall_app in Hh as [_ Hh].
        eapply Forall_impl; [exact Hh|]. by intros ? [? _].
      * rewrite Hl. apply elem_of_app. right. by left.
Qed.

(** X22: what the header pattern is for.  A heading [== title ==], with
    any white space around the title and after the closing marker, is
    replaced by the title and one blank, and the substitution goes on after
    it; the title is trimmed and not empty, holds no [=] and no line break,
    and the text after the heading does not start with white space. *)
Theorem heading_is_replaced_by_its_title (ws1 h ws2 ws3 rest : text) :
  forallb isspace ws1 = true ->
  forallb isspace ws2 = true ->
  forallb isspace ws3 = true ->
  h <> [] -> strip h = h ->
  Forall (fun c => c <> 0x3d /\ c <> 0xa) h ->
  match rest with c :: _ => isspace c = false | [] => True end ->
  sub_header ([0x3d; 0x3d] ++ ws1 ++ h ++ ws2 ++ [0x3d; 0x3d] ++ ws3 ++ rest)
  = h ++ [0x20] ++ sub_header rest.
Proof.
  intros H1 H2 H3 Hne Hs Hh Hrest.
  pose proof (match_header_of_heading ws1 h ws2 ws3 rest H1 H2 H3 Hne Hs Hh Hrest)
    as Hm.
  unfold sub_header.
  set (pre := [0x3d] ++ ws1 ++ h ++ ws2 ++ [0x3d; 0x3d] ++ ws3).
  assert (Hsplit : [0x3d; 0x3d] ++ ws1 ++ h ++ ws2 ++ [0x3d; 0x3d] ++ ws3 ++ rest
                   = 0x3d :: pre ++ rest).
  { unfold pre. by rewrite <- !app_assoc. }
  rewrite Hsplit in Hm |- *.
  assert (Hunfold : sub_header_from 0 (0x3d :: pre ++ rest)
                    = match match_header (0x3d :: pre ++ rest) with
                      | Some (g, rest0) =>
                          g ++ [0x20]
                            ++ sub_header_from
                                 (Nat.sub (Nat.sub (length (0x3d :: pre ++ rest))
                                             (length rest0)) 1)
                                 (pre ++ rest)
                      | None => 0x3d :: sub_header_from 0 (pre ++ rest)
                      end) by reflexivity.
  rewrite Hunfold, Hm.
  replace (Nat.sub (Nat.sub (length (0x3d :: pre ++ rest)) (length rest)) 1)
    with (length pre) by (cbn [length]; rewrite length_app; lia).
  by rewrite sub_header_from_skip.
Qed.

Lemma heading_is_replaced_by_its_title_witness :
  sub_header (py "== History ==" ++ [0xa] ++ py "It began.")
  = py "History" ++ [0x20] ++ sub_header (py "It began.").
Proof.
  apply (heading_is_replaced_by_its_title [0x20] (py "History") [0x20] [0xa]
           (py "It began.")).
  - reflexivity.
  - reflexivity.
  - reflexivity.
  - discriminate.
  - by vm_compute.
  - vm_compute. repeat (apply Forall_cons; split; [split; discriminate|]).
    apply Forall_nil_2.
  - reflexivity.
Defined.

(** * The sentence-level qrels of [sents.py] *)

Lemma foldl_invariant_in {A B} (P : A -> Prop) (f : A -> B -> A) (l : list B) :
  (forall a b, b ∈ l -> P a -> P (f a b)) ->
  forall a, P a -> P (foldl f a l).
Proof.
  induction l as [|x l IH]; intros Hf a Ha; [done|]. cbn [foldl].
  apply IH.
  - intros a' b Hb. apply Hf. by right.
  - apply Hf; [by left | done].
Qed.

Section QrelsFacts.
Variable ud : unicodedata.
Variable lower : text -> text.

Lemma find_steps_none target_words threshold (corpus : list (Z * text)) :
  (foldl (find_step ud lower target_words threshold) (None, PrimFloat.zero) corpus).1
  = None <->
  Forall (fun doc_data => passes_tests ud lower target_words threshold doc_data = false) corpus.
Proof.
  assert (Hsome : forall l id sim,
            (foldl (find_step ud lower target_words threshold) (Some id, sim) l).1
            <> None).
  { induction l as [|d l IH]; intros id sim; [done|]. cbn [foldl].
    unfold find_step at 2. cbv zeta.
    destruct (_ && _); apply IH. }
  induction corpus as [|d corpus IH]; [by split; [constructor|]|].
  cbn [foldl]. unfold find_step at 2. cbv zeta. cbn [fst snd].
  fold (passes_tests ud lower target_words threshold d).
  destruct (passes_tests ud lower target_words threshold d) eqn:Hd.
  - split; [intros H; by apply Hsome in H|].
    intros [H _]%Forall_cons. congruence.
  - rewrite IH. split; [intros H; by apply Forall_cons | by intros [_ H]%Forall_cons].
Qed.

Lemma find_steps_some target_words threshold (corpus : list (Z * text)) :
  forall best id,
    (foldl (find_step ud lower target_words threshold) best corpus).1 = Some id ->
    best.1 = Some id \/
    exists doc_text,
      (id, doc_text) ∈ corpus /\
      PrimFloat.leb threshold
        (similarity target_words (words ud lower doc_text)) = true.
Proof.
  induction corpus as [|d corpus IH]; intros best id Hrun; [by left|].
  cbn [foldl] in Hrun. apply IH in Hrun as [Hbest|(t & Hin & Hpass)].
  - unfold find_step in Hbest. cbv zeta in Hbest.
    destruct (PrimFloat.ltb _ _ && PrimFloat.leb _ _) eqn:Htest; [|by left].
    cbn [fst] in Hbest. injection Hbest as <-. right.
    apply andb_true_iff in Htest as [_ Hth].
    exists d.2. split; [|done]. destruct d. by left.
  - right. exists t. split; [by right | done].
Qed.

Lemma corpus_between_elem (corpus : gmap Z text) (iv : interval) k t :
  (k, t) ∈ corpus_between corpus iv <-> in_interval k iv /\ corpus !! k = Some t.
Proof.
  unfold corpus_between, in_interval. rewrite list_elem_of_omap. split.
  - intros (k' & Hk' & Hkt). apply elem_of_seqZ in Hk'.
    destruct (corpus !! k') as [t'|] eqn:E; [|done].
    cbn in Hkt. injection Hkt as <- <-. split; [lia | done].
  - intros [Hk Ht]. exists k. split; [apply elem_of_seqZ; lia|].
    by rewrite Ht.
Qed.

Lemma create_qrels_sound (corpus : gmap Z text) processed_links (data : list scored_fact) row :
  row ∈ qrels_lines (create_qrels ud lower corpus processed_links data) ->
  row_sound ud lower corpus processed_links data row.
Proof.
  revert row. unfold create_qrels.
  apply (foldl_invariant_in
           (fun out => forall row, row ∈ qrels_lines out ->
                                   row_sound ud lower corpus processed_links data row)).
  - intros out [idx item] Hentry Hout.
    apply elem_of_lookup_imap in Hentry as (i & item' & [= -> ->] & Hitem).
    unfold qrels_fact_step. cbn [fst snd].
    apply foldl_invariant_in; [|done].
    intros out1 l Hl Hout1. unfold link_step.
    destruct (processed_links !! link (scored_item l)) as [iv|] eqn:Hiv; [|done].
    apply foldl_invariant_in; [|done].
    intros out2 judged Hj Hout2 row. unfold score_step. cbv zeta.
    destruct (Z.eqb_spec (score judged) 0) as [|Hnz]; [apply Hout2|].
    destruct (find_id_by_text _ _ _ _ _) as [doc_id|] eqn:Hfind;
      cbn [qrels_lines]; [|apply Hout2].
    intros [Hrow|Hrow]%elem_of_app; [by apply Hout2|].
    apply list_elem_of_singleton in Hrow as ->.
    unfold find_id_by_text in Hfind. cbv zeta in Hfind.
    apply find_steps_some in Hfind as [Habs|(t & Hin & Hpass)]; [done|].
    apply corpus_between_elem in Hin as [Hdoc Ht].
    split; [done|]. by exists item', l, judged, iv, t.
  - intros row Hrow. by apply elem_of_nil in Hrow.
Qed.

Lemma score_steps_written (corpus : gmap Z text) iv query_id (l : list score_item) : forall out,
  records_written (foldl (score_step ud lower corpus iv query_id) out l)
  = (records_written out + length (nonzero_scores l))%nat.
Proof.
  induction l as [|judged l IH]; intros out; cbn [foldl].
  - unfold nonzero_scores. rewrite filter_nil. cbn. lia.
  - rewrite IH. unfold nonzero_scores. rewrite filter_cons.
    unfold score_step. cbv zeta.
    destruct (Z.eqb_spec (score judged) 0) as [Hz|Hnz].
    + rewrite decide_False by (intros H; by apply H). done.
    + rewrite decide_True by done.
      destruct (find_id_by_text _ _ _ _ _); unfold records_written;
        cbn [qrels_lines not_found_lines length]; rewrite length_app; cbn; lia.
Qed.

Lemma link_steps_written (corpus : gmap Z text) (processed_links : gmap (option string) interval)
    query_id (ls : list scored_link) : forall out,
  (forall l, l ∈ ls -> is_Some (processed_links !! link (scored_item l))) ->
  records_written (foldl (link_step ud lower corpus processed_links query_id) out ls)
  = (records_written out + length (nonzero_scores (ls ≫= scores)))%nat.
Proof.
  induction ls as [|l ls IH]; intros out Hall; cbn [foldl].
  - cbn. lia.
  - rewrite IH by (intros l' Hl'; apply Hall; by right).
    unfold link_step. destruct (Hall l ltac:(by left)) as [iv ->].
    rewrite score_steps_written, bind_cons. unfold nonzero_scores.
    rewrite filter_app, length_app. lia.
Qed.

Lemma fact_steps_written (corpus : gmap Z text) (processed_links : gmap (option string) interval)
    (entries : list (nat * scored_fact)) : forall out,
  (forall entry l, entry ∈ entries -> l ∈ scored_links entry.2 ->
     is_Some (processed_links !! link (scored_item l))) ->
  records_written (foldl (qrels_fact_step ud lower corpus processed_links) out entries)
  = (records_written out
     + length (nonzero_scores ((entries.*2 ≫= scored_links) ≫= scores)))%nat.
Proof.
  induction entries as [|entry entries IH]; intros out Hall; cbn [foldl].
  - cbn. lia.
  - rewrite IH by (intros e l He; apply Hall; by right).
    unfold qrels_fact_step.
    rewrite link_steps_written by (intros l Hl; apply (Hall entry); [by left | done]).
    rewrite fmap_cons, bind_cons, bind_app. unfold nonzero_scores.
    rewrite filter_app, length_app. lia.
Qed.

Lemma imap_pair_snd (data : list scored_fact) : (imap pair data).*2 = data.
Proof.
  rewrite fmap_imap. rewrite <- (list_fmap_id data) at 2.
  rewrite <- imap_const. by apply imap_ext.
Qed.

Lemma create_qrels_written sentenize (data : list scored_fact) st qi :
  Sents.run ud sentenize (plain_fact <$> data) = Ok (st, qi) ->
  records_written (create_qrels ud lower (Pass1.corpus st) (Pass1.processed_links st) data)
  = length (nonzero_scores ((data ≫= scored_links) ≫= scores)).
Proof.
  intros Hrun. unfold create_qrels.
  rewrite fact_steps_written.
  - by rewrite imap_pair_snd.
  - intros [i item] l Hentry Hl. cbn [snd] in Hl.
    apply elem_of_lookup_imap in Hentry as (i' & item' & [= -> ->] & Hitem).
    destruct (process_facts_effect ud sentenize _ _ _ _ _ Hrun) as (_ & Hsome & _).
    apply (Hsome (plain_fact item') (scored_item l)).
    + apply list_elem_of_fmap. exists item'. split; [done|].
      by eapply list_elem_of_lookup_2.
    + cbn. apply list_elem_of_fmap. by exists l.
Qed.

Lemma find_id_by_text_outcome (corpus : list (Z * text)) (t : text) threshold :
  (find_id_by_text ud lower corpus t threshold = None <->
   Forall (fun doc_data =>
             PrimFloat.ltb PrimFloat.zero
               (similarity (words ud lower t) (words ud lower doc_data.2))
             && PrimFloat.leb threshold
                  (similarity (words ud lower t) (words ud lower doc_data.2))
             = false) corpus) /\
  (forall id,
     find_id_by_text ud lower corpus t threshold = Some id ->
     exists doc_text,
       (id, doc_text) ∈ corpus /\
       PrimFloat.leb threshold
         (similarity (words ud lower t) (words ud lower doc_text)) = true).
Proof.
  unfold find_id_by_text. cbv zeta. split; [apply find_steps_none|].
  intros id Hid. by apply find_steps_some in Hid as [Habs|Hdoc].
Qed.
End QrelsFacts.


(** X23: [find_id_by_text] returns [None] exactly when no document of the
    corpus it is given has a similarity with the text that is above 0 and
    reaches the threshold; and the document it returns otherwise is one of
    that corpus whose similarity reaches the threshold. *)
Theorem find_id_by_text_finds_a_passing_document (ud : unicodedata)
    (lower : text -> text)
    (corpus : list (Z * text)) (t : text) (threshold : float) :
  (find_id_by_text ud lower corpus t threshold = None <->
   Forall (fun doc_data =>
             passes_tests ud lower (words ud lower t) threshold doc_data = false)
          corpus) /\
  (forall id,
     find_id_by_text ud lower corpus t threshold = Some id ->
     exists doc_text,
       (id, doc_text) ∈ corpus /\
       PrimFloat.leb threshold
         (similarity (words ud lower t) (words ud lower doc_text)) = true).
Proof. apply find_id_by_text_outcome. Qed.

Lemma find_id_by_text_finds_a_passing_document_witness :
  find_id_by_text ud_basic lower_basic
    [(0, py "It has museums."); (1, py "Paris is big.")] (py "paris is BIG.")
    threshold_qrels = Some 1 /\
  exists doc_text,
    (1, doc_text) ∈ [(0, py "It has museums."); (1, py "Paris is big.")] /\
    PrimFloat.leb threshold_qrels
      (similarity (words ud_basic lower_basic (py "paris is BIG."))
         (words ud_basic lower_basic doc_text)) = true.
Proof.
  assert (Hfind : find_id_by_text ud_basic lower_basic
                    [(0, py "It has museums."); (1, py "Paris is big.")]
                    (py "paris is BIG.") threshold_qrels = Some 1)
    by (by vm_compute).
  split; [exact Hfind|].
  exact (proj2 (find_id_by_text_finds_a_passing_document ud_basic lower_basic
                  [(0, py "It has museums."); (1, py "Paris is big.")]
                  (py "paris is BIG.") threshold_qrels) 1 Hfind).
Defined.

(** X24: every line of [qrels.tsv] is written for a judgment of a link of
    its fact with a score other than 0, and names a document of the corpus
    that lies in the interval cached for the URL of that link and whose
    similarity with the judged text reaches the threshold 0.2. *)
Theorem qrels_lines_are_sound (ud : unicodedata) (lower : text -> text)
    (corpus : gmap Z text)
    (processed_links : gmap (option string) interval)
    (data : list scored_fact) (row : nat * Z * Z) :
  row ∈ qrels_lines (create_qrels ud lower corpus processed_links data) ->
  row_sound ud lower corpus processed_links data row.
Proof. apply create_qrels_sound. Qed.

Lemma qrels_lines_are_sound_witness :
  (0%nat, 0, 2)
    ∈ qrels_lines (create_qrels ud_basic lower_basic {[ 0 := py "Paris is big." ]}
                     {[ Some "u0"%string := (0, 0) ]} scored_demo) /\
  row_sound ud_basic lower_basic {[ 0 := py "Paris is big." ]}
    {[ Some "u0"%string := (0, 0) ]} scored_demo (0%nat, 0, 2).
Proof.
  assert (Hrow : (0%nat, 0, 2)
            ∈ qrels_lines
                (create_qrels ud_basic lower_basic {[ 0 := py "Paris is big." ]}
                   {[ Some "u0"%string := (0, 0) ]} scored_demo)).
  { vm_compute. by left. }
  split; [exact Hrow|].
  exact (qrels_lines_are_sound ud_basic lower_basic _ _ scored_demo _ Hrow).
Defined.

(** X25: after a first pass of [sents.py] that ends without an error, no
    judgment is passed over for want of an interval: every judgment with a
    score other than 0 yields one record, a line of [qrels.tsv] or a line of
    [not_found.jsonl], and the judgments with the score 0 yield none. *)
Theorem every_nonzero_judgment_is_recorded (ud : unicodedata)
    (lower : text -> text) (sentenize : text -> list text)
    (data : list scored_fact) st qi :
  Sents.run ud sentenize (plain_fact <$> data) = Ok (st, qi) ->
  records_written
    (create_qrels ud lower (Pass1.corpus st) (Pass1.processed_links st) data)
  = length (nonzero_scores ((data ≫= scored_links) ≫= scores)).
Proof. apply create_qrels_written. Qed.

Lemma every_nonzero_judgment_is_recorded_witness :
  exists st qi,
    Sents.run ud_basic sentenize_one (plain_fact <$> scored_demo) = Ok (st, qi) /\
    records_written
      (create_qrels ud_basic lower_basic (Pass1.corpus st)
         (Pass1.processed_links st) scored_demo)
    = length (nonzero_scores ((scored_demo ≫= scored_links) ≫= scores)).
Proof.
  destruct (Sents.run ud_basic sentenize_one (plain_fact <$> scored_demo))
    as [[st qi]|e] eqn:Hrun; [|by vm_compute in Hrun].
  exists st, qi. split; [done|].
  exact (every_nonzero_judgment_is_recorded ud_basic lower_basic sentenize_one
           scored_demo st qi Hrun).
Defined.


(** * [extract_article_title] *)

Lemma split_from_cons0 sep cur c (s : text) :
  split_from sep 0 cur (c :: s)
  = if starts_with sep (c :: s)
    then cur :: split_from sep (length sep - 1) [] s
    else split_from sep 0 (cur ++ [c]) s.
Proof. reflexivity. Qed.

Lemma split_from_skip sep (pre rest cur : text) :
  split_from sep (length pre) cur (pre ++ rest) = split_from sep 0 cur rest.
Proof.
  induction pre as [|c pre IH]; cbn [length app].
  - by destruct rest.
  - exact IH.
Qed.

Lemma split_from_no_sep sep (s : text) : forall cur,
  str_in sep s = false -> split_from sep 0 cur s = [cur ++ s].
Proof.
  induction s as [|c s IH]; intros cur Hs.
  - by rewrite app_nil_r.
  - rewrite str_in_cons in Hs. apply orb_false_iff in Hs as [Hhere Hrest].
    rewrite split_from_cons0, Hhere, IH by done.
    by rewrite <- app_assoc.
Qed.

Lemma split_from_sep_found sep (s : text) : forall cur,
  sep <> [] -> str_in sep s = true ->
  (length (split_from sep 0 cur s) > 1)%nat.
Proof.
  assert (Hne : forall skip cur s', (length (split_from sep skip cur s') > 0)%nat).
  { intros skip cur s'. revert skip cur.
    induction s' as [|c s' IH]; intros skip cur; cbn [split_from]; [cbn; lia|].
    destruct skip as [|n]; [|apply IH].
    destruct (starts_with sep (c :: s')); [cbn; lia | apply IH]. }
  induction s as [|c s IH]; intros cur Hsep Hs.
  - destruct sep; [done|]. discriminate.
  - rewrite str_in_cons in Hs. rewrite split_from_cons0.
    destruct (starts_with sep (c :: s)) eqn:Hhere.
    + cbn [length]. pose proof (Hne (length sep - 1)%nat [] s). lia.
    + apply IH; [done|]. by rewrite orb_false_l in Hs.
Qed.

Lemma starts_with_long (p x y : text) :
  (length p <= length x)%nat -> starts_with p (x ++ y) = starts_with p x.
Proof.
  revert x. induction p as [|a p IH]; intros x Hlen; [by destruct x|].
  destruct x as [|b x]; [cbn in Hlen; lia|].
  cbn [app starts_with]. rewrite IH; [done|]. cbn in Hlen. lia.
Qed.

Lemma split_from_first (base rest : text) : forall cur,
  str_in wiki_sep (base ++ [0x2f; 0x77; 0x69; 0x6b; 0x69]) = false ->
  split_from wiki_sep 0 cur (base ++ wiki_sep ++ rest)
  = (cur ++ base) :: split_from wiki_sep 0 [] rest.
Proof.
  induction base as [|c base IH]; intros cur Hfree.
  - cbn [app]. rewrite app_nil_r.
    change (wiki_sep ++ rest)
      with (0x2f :: [0x77; 0x69; 0x6b; 0x69; 0x2f] ++ rest).
    rewrite split_from_cons0.
    change (0x2f :: [0x77; 0x69; 0x6b; 0x69; 0x2f] ++ rest)
      with (wiki_sep ++ rest).
    rewrite starts_with_prefix.
    exact (f_equal (cons cur)
             (split_from_skip wiki_sep [0x77; 0x69; 0x6b; 0x69; 0x2f] rest [])).
  - cbn [app] in Hfree |- *. rewrite str_in_cons in Hfree.
    apply orb_false_iff in Hfree as [Hhere Hrest].
    rewrite split_from_cons0.
    assert (Hfull : starts_with wiki_sep (c :: base ++ wiki_sep ++ rest) = false).
    { change (c :: base ++ wiki_sep ++ rest)
        with (c :: base ++ ([0x2f; 0x77; 0x69; 0x6b; 0x69] ++ [0x2f]) ++ rest).
      rewrite <- (app_assoc [0x2f; 0x77; 0x69; 0x6b; 0x69]), (app_assoc base).
      rewrite app_comm_cons, starts_with_long; [done|].
      cbn [length]. rewrite length_app. cbn. lia. }
    rewrite Hfull, IH by done. by rewrite <- app_assoc.
Qed.

(** X26: [extract_article_title] returns [None] exactly for a URL that
    does not hold ['/wiki/']; for a URL [base + '/wiki/' + title] in which
    ['/wiki/'] occurs nowhere else it returns the title. *)
Theorem extract_article_title_spec (url : text) :
  (extract_article_title url = None <-> str_in wiki_sep url = false) /\
  (forall base title,
     url = base ++ wiki_sep ++ title ->
     str_in wiki_sep (base ++ [0x2f; 0x77; 0x69; 0x6b; 0x69]) = false ->
     str_in wiki_sep title = false ->
     extract_article_title url = Some title).
Proof.
  split.
  - unfold extract_article_title. cbv zeta.
    destruct (str_in wiki_sep url) eqn:Hin.
    + pose proof (split_from_sep_found wiki_sep url [] ltac:(done) Hin) as Hlen.
      rewrite bool_decide_eq_true_2 by lia.
      split; [|done]. intros Hnone.
      apply lookup_ge_None in Hnone. lia.
    + rewrite split_from_no_sep by done. cbn [length].
      rewrite bool_decide_eq_false_2 by lia. done.
  - intros base title -> Hbase Htitle.
    unfold extract_article_title. cbv zeta.
    rewrite split_from_first by done.
    rewrite split_from_no_sep by done.
    cbn [length]. rewrite bool_decide_eq_true_2 by lia. done.
Qed.

Lemma extract_article_title_spec_witness :
  extract_article_title (py "https://ru.wikipedia.org/wiki/Paris") = Some (py "Paris").
Proof.
  apply (proj2 (extract_article_title_spec (py "https://ru.wikipedia.org/wiki/Paris"))
           (py "https://ru.wikipedia.org") (py "Paris")).
  - reflexivity.
  - by vm_compute.
  - by vm_compute.
Defined.


(** * From a judged sentence to the score of a window *)

Lemma build_windows_text (gsl : list (Z * text * Z)) W built i :
  1 <= W ->
  Windows.build_windows gsl W = Ok built ->
  0 <= i <= Z.of_nat (length gsl) - W ->
  Windows.corpus_window built !! i = Some (join [0x20] (sentences_from gsl i W)).
Proof.
  intros HW Hbuilt Hi. unfold Windows.build_windows in Hbuilt.
  destruct (add_windows_text gsl W
              (seqZ 0 (Windows.total_windows gsl W)) (Windows.Windows_ ∅ ∅) HW)
    as (ws & Hws & Hspec).
  { intros j Hj. apply elem_of_seqZ in Hj.
    unfold Windows.total_windows, Windows.total_sentences in Hj. lia. }
  rewrite Hbuilt in Hws. injection Hws as <-.
  rewrite Hspec, bool_decide_eq_true_2; [done|].
  apply elem_of_seqZ. unfold Windows.total_windows, Windows.total_sentences. lia.
Qed.

(** X27: the pipeline of [windows.py] from a judged sentence to a score.
    Let sentence [k] be a sentence of a source of the fact of rank [i], let
    the window [w] hold it, and let the qrels of the fact judge it with the
    score [r]; let the normalizer leave the text of the sentence and the
    text of the window as they are.  Then the aggregation ends without an
    error and the score of [w] for the fact is at least [r] and at least
    0. *)
Theorem judged_sentence_scores_its_window (ud : unicodedata)
    (sentenize : text -> list text) (data : list fact) W built
    (corpus_sentences : gmap Z text) (i : nat) ivs s e (k : nat) w entry
    sid r (d : list (Z * Z)) :
  let sq := Windows.run ud sentenize data in
  let gsl := Windows.global_sentences_list sq.1 in
  let T := Windows.total_sentences gsl in
  1 <= W ->
  Windows.build_windows gsl W = Ok built ->
  sq.2 !! i = Some ivs ->
  (s, e) ∈ ivs ->
  s <= Z.of_nat k <= e ->
  0 <= w <= T - W ->
  w <= Z.of_nat k <= w + W - 1 ->
  gsl !! k = Some entry ->
  corpus_sentences !! sid = Some entry.1.2 ->
  (sid, r) ∈ d ->
  preprocess_text ud entry.1.2 = entry.1.2 ->
  preprocess_text ud (join [0x20] (sentences_from gsl w W))
    = join [0x20] (sentences_from gsl w W) ->
  exists scores v,
    window_scores ud W built corpus_sentences
      (Windows.extended_query_interval T W (Windows.query_interval_window T W sq.2))
      i d = Ok scores /\
    scores !! w = Some v /\ r <= v /\ 0 <= v.
Proof.
  intros sq gsl T HW Hbuilt Hi Hiv Hk Hw Hwk Hentry Hsid Hd Hsent Hwin.
  destruct (window_candidate ud sentenize data W built i ivs s e w
              HW Hbuilt Hi Hiv Hw ltac:(lia) ltac:(lia)) as (ivs' & Hivs' & Hvalid).
  fold sq gsl T in Hivs'.
  pose proof (build_windows_text gsl W built w HW Hbuilt Hw) as Htext.
  unfold window_scores. rewrite Hivs'. cbn [default]. cbv zeta.
  destruct (aggregate_lookup ud (Windows.corpus_window built) corpus_sentences
              (Windows.valid_window_ids W (Windows.window_to_sentence_index built) ivs')
              d) as (scores & Hs & Hspec).
  { by eapply valid_window_ids_in_corpus. }
  assert (Hin : entry.1.2 ∈ sentences_from gsl w W).
  { eapply list_elem_of_lookup_2.
    apply (sentences_from_lookup gsl w W k entry); [lia | lia | lia | done]. }
  assert (Hhit : is_sentence_in_window ud entry.1.2
                   (join [0x20] (sentences_from gsl w W)) = true).
  { unfold is_sentence_in_window. rewrite Hsent, Hwin. by apply str_in_join. }
  assert (Hr : r ∈ received_scores ud corpus_sentences
                     (Windows.corpus_window built) d w).
  { unfold received_scores. rewrite Htext. unfold contributing.
    apply list_elem_of_omap. exists (sid, r). split; [done|].
    cbn [fst snd]. by rewrite Hsid, Hhit. }
  exists scores, (foldl Z.max 0 (received_scores ud corpus_sentences
                                   (Windows.corpus_window built) d w)).
  split; [done|]. split.
  - rewrite Hspec, bool_decide_eq_true_2 by done. cbn [andb].
    rewrite bool_decide_eq_true_2; [done|].
    intros Hnil. rewrite Hnil in Hr. by apply elem_of_nil in Hr.
  - destruct (foldl_max_spec (received_scores ud corpus_sentences
                                (Windows.corpus_window built) d w) 0)
      as (H0 & Hall & _).
    split; [by apply Hall | done].
Qed.

Lemma judged_sentence_scores_its_window_witness :
  exists scores v,
    window_scores ud_basic 2
      (Windows.Windows_
         {[ 0 := py "A. B."; 1 := py "B. C."; 2 := py "C. D."; 3 := py "D. E." ]}
         {[ 0 := 0; 1 := 1; 2 := 2; 3 := 3 ]})
      {[ 7 := py "C." ]}
      (Windows.extended_query_interval 5 2
         (Windows.query_interval_window 5 2
            (Windows.run ud_basic sentenize_one demo_data).2))
      1 [(7, 3)] = Ok scores /\
    scores !! 1 = Some v /\ 3 <= v /\ 0 <= v.
Proof.
  apply (judged_sentence_scores_its_window ud_basic sentenize_one demo_data 2 _
           {[ 7 := py "C." ]} 1 [(2, 2); (3, 3)] 2 2 2 1 (2, py "C.", 2) 7 3
           [(7, 3)]).
  - lia.
  - by vm_compute.
  - by vm_compute.
  - by left.
  - lia.
  - vm_compute. split; discriminate.
  - lia.
  - by vm_compute.
  - by vm_compute.
  - by left.
  - by vm_compute.
  - by vm_compute.
Defined.
